(** * nette/vite-plugin: the Vite plugin for Nette, verified against its specification.

  The development embeds the plugin's [index.ts] as executable Rocq
  definitions.  The revision embedded is the one with the [host] plugin
  option, the port-80 rule and the [allowedHosts] setting, which is the one
  the tests of the repository exercise; module [Legacy] holds the earlier
  revision kept as [src/src/index.ts]: its hooks and callbacks, the
  banner it prints from a timer with its two version probes, and the
  middleware it installs.

  - [Str], [Path]: the POSIX flavour of Node's [path] module ([resolve],
    [join], [dirname]) on strings;
  - [Fs]: a tree-shaped file system with the four [fs] calls the plugin
    makes;
  - [Json]: [JSON.stringify] for flat string records;
  - [Data], [Monad], [Plugin]: the module-level variables, the hooks of
    the plugin object and the listener callbacks, in a state-and-exception
    monad over a [World];
  - [Signal]: the callback for SIGINT;
  - [Spec], [Setting], [Sample]: the notions of the specification, the
    setting of the theorems, and a sample process.

  The facts and the theorems follow the definitions: first the claims of
  the specification (module [Claims]), then further properties of the
  code (module [Further]). *)

From stdpp Require Import gmap strings list fin_maps pretty.
From Stdlib Require Import Ascii.

Set Default Proof Using "Type".
#[local] Set Warnings "-register-all".
#[local] Open Scope string_scope.

(* ===================================================================== *)
(** * Strings *)
(* ===================================================================== *)

Module Str.

Definition slash : ascii := "/"%char.
Definition is_slash (c : ascii) : bool := Ascii.eqb c slash.

(** [s.split('/')] *)
Fixpoint split_slash (s : string) : list string :=
  match s with
  | EmptyString => [EmptyString]
  | String c s' =>
      if is_slash c then EmptyString :: split_slash s'
      else match split_slash s' with
           | [] => [String c EmptyString]
           | h :: t => String c h :: t
           end
  end.

(** [s.charCodeAt(0) === CHAR_FORWARD_SLASH] *)
Definition starts_with_slash (s : string) : bool :=
  match s with
  | String c _ => is_slash c
  | EmptyString => false
  end.

(** [s.charCodeAt(s.length - 1) === CHAR_FORWARD_SLASH] *)
Fixpoint ends_with_slash (s : string) : bool :=
  match s with
  | EmptyString => false
  | String c EmptyString => is_slash c
  | String _ s' => ends_with_slash s'
  end.

Definition is_empty (s : string) : bool :=
  match s with EmptyString => true | _ => false end.

Fixpoint has_slash (s : string) : bool :=
  match s with
  | EmptyString => false
  | String c s' => is_slash c || has_slash s'
  end.

Fixpoint drop_while (f : ascii -> bool) (l : list ascii) : list ascii :=
  match l with
  | [] => []
  | c :: l' => if f c then drop_while f l' else l
  end.

(** The double quote character, for messages and JSON text. *)
Definition dquote : string := String (ascii_of_nat 34) EmptyString.

End Str.

(* ===================================================================== *)
(** * Node's [path] module (POSIX) *)
(* ===================================================================== *)

Module Path.
Import Str.

(** One segment of [normalizeString]: empty and [.] segments are
    skipped, [..] pops the previous segment (or is kept when the path may
    climb above its start), anything else is pushed.  The stack holds the
    segments kept so far, last one first. *)
Definition normalize_step (allowAboveRoot : bool)
    (stack : list string) (seg : string) : list string :=
  if decide (seg = EmptyString) then stack
  else if decide (seg = ".") then stack
  else if decide (seg = "..") then
    match stack with
    | top :: rest =>
        if decide (top = "..")
        then (if allowAboveRoot then ".." :: stack else stack)
        else rest
    | [] => if allowAboveRoot then [".."] else []
    end
  else seg :: stack.

Definition normalize_segments (allowAboveRoot : bool) (segs : list string)
    : list string :=
  rev (fold_left (normalize_step allowAboveRoot) segs []).

(** [normalizeString(path, allowAboveRoot, '/', isPosixPathSeparator)] *)
Definition normalizeString (path : string) (allowAboveRoot : bool) : string :=
  String.concat "/" (normalize_segments allowAboveRoot (split_slash path)).

(** The loop of [path.resolve]: arguments are visited from the last one
    to the first, then the working directory, until an absolute one has
    been prepended.  [paths] is that visiting order. *)
Fixpoint resolve_loop (paths : list string) (resolvedPath : string)
    : string * bool :=
  match paths with
  | [] => (resolvedPath, false)
  | p :: rest =>
      if is_empty p then resolve_loop rest resolvedPath
      else
        let resolvedPath' := p +:+ "/" +:+ resolvedPath in
        if starts_with_slash p then (resolvedPath', true)
        else resolve_loop rest resolvedPath'
  end.

(** The segments [path.resolve] arrives at, and whether they are rooted. *)
Definition resolve_segments (cwd : string) (args : list string)
    : bool * list string :=
  let '(resolvedPath, resolvedAbsolute) := resolve_loop (rev args ++ [cwd]) EmptyString in
  (resolvedAbsolute,
   normalize_segments (negb resolvedAbsolute) (split_slash resolvedPath)).

(** [path.resolve(...args)] with [process.cwd()] = [cwd]. *)
Definition resolve (cwd : string) (args : list string) : string :=
  let '(resolvedAbsolute, segs) := resolve_segments cwd args in
  let resolvedPath := String.concat "/" segs in
  if resolvedAbsolute then "/" +:+ resolvedPath
  else if is_empty resolvedPath then "." else resolvedPath.

(** [path.normalize(path)] *)
Definition normalize (path : string) : string :=
  if is_empty path then "."
  else
    let isAbsolute := starts_with_slash path in
    let trailingSeparator := ends_with_slash path in
    let path' := normalizeString path (negb isAbsolute) in
    if is_empty path' then
      (if isAbsolute then "/" else if trailingSeparator then "./" else ".")
    else
      let path'' := if trailingSeparator then path' +:+ "/" else path' in
      if isAbsolute then "/" +:+ path'' else path''.

(** [path.join(...args)] *)
Definition join (args : list string) : string :=
  match filter (fun a => is_empty a = false) args with
  | [] => "."
  | parts => normalize (String.concat "/" parts)
  end.

(** [path.dirname(path)]: scanning from the end (index 0 excluded),
    trailing separators are skipped, then the last segment, and the path
    is cut at the separator found there. *)
Definition dirname (path : string) : string :=
  match String.list_ascii_of_string path with
  | [] => "."
  | c :: rest =>
      let hasRoot := is_slash c in
      let scanned :=
        drop_while (fun x => negb (is_slash x)) (drop_while is_slash (rev rest)) in
      match scanned with
      | [] => if hasRoot then "/" else "."
      | _ :: before =>
          if hasRoot && bool_decide (before = []) then "//"
          else String.string_of_list_ascii (c :: rev before)
      end
  end.

(** The text of a rooted path with the given segments. *)
Definition render (segs : list string) : string :=
  "/" +:+ String.concat "/" segs.

(** A segment that normalisation keeps as it is. *)
Definition clean (seg : string) : Prop :=
  seg <> EmptyString /\ seg <> "." /\ seg <> ".." /\ has_slash seg = false.

End Path.


(* ===================================================================== *)
(** * The file system and Node's [fs] calls *)
(* ===================================================================== *)

Module Fs.

(** A file holds the text written to it; a directory maps names to nodes. *)
Inductive node : Type :=
| File (data : string)
| Dir (entries : gmap string node).

Inductive errno : Type := ENOENT | ENOTDIR | EISDIR | EEXIST.

#[global] Instance errno_eq_dec : EqDecision errno.
Proof. solve_decision. Defined.

Definition empty_dir : node := Dir ∅.

Definition is_dir (n : node) : bool :=
  match n with Dir _ => true | File _ => false end.

(** Walk [p] down from [n]. *)
Fixpoint lookup (n : node) (p : list string) : errno + node :=
  match p with
  | [] => inr n
  | s :: p' =>
      match n with
      | File _ => inl ENOTDIR
      | Dir es =>
          match es !! s with
          | None => inl ENOENT
          | Some c => lookup c p'
          end
      end
  end.

(** What [fs.existsSync] answers: any failure of the walk is [false]. *)
Definition exists_at (n : node) (p : list string) : bool :=
  match lookup n p with inr _ => true | inl _ => false end.

(** [fs.mkdirSync(p, { recursive: true })]: directories on the way are
    kept, missing ones are made, a regular file in the way is an error. *)
Fixpoint mkdir_p (n : node) (p : list string) : errno + node :=
  match p with
  | [] =>
      match n with
      | Dir _ => inr n
      | File _ => inl EEXIST
      end
  | s :: p' =>
      match n with
      | File _ => inl ENOTDIR
      | Dir es =>
          match mkdir_p (default empty_dir (es !! s)) p' with
          | inl e => inl e
          | inr c => inr (Dir (<[s := c]> es))
          end
      end
  end.

(** [fs.writeFileSync(p, data)]: the parent must be a directory, the
    target must not be one; the file is made or replaced. *)
Fixpoint write_file (n : node) (p : list string) (data : string) : errno + node :=
  match p with
  | [] => inl EISDIR
  | s :: p' =>
      match n with
      | File _ => inl ENOTDIR
      | Dir es =>
          match p' with
          | [] =>
              match es !! s with
              | Some (Dir _) => inl EISDIR
              | _ => inr (Dir (<[s := File data]> es))
              end
          | _ :: _ =>
              match es !! s with
              | None => inl ENOENT
              | Some c =>
                  match write_file c p' data with
                  | inl e => inl e
                  | inr c' => inr (Dir (<[s := c']> es))
                  end
              end
          end
      end
  end.

(** [fs.rmSync(p, { force: true })], not recursive: a missing entry is
    ignored, a file is unlinked, a directory is refused. *)
Fixpoint rm_force (n : node) (p : list string) : errno + node :=
  match p with
  | [] => inl EISDIR
  | s :: p' =>
      match n with
      | File _ => inl ENOTDIR
      | Dir es =>
          match es !! s with
          | None => inr n
          | Some c =>
              match p' with
              | [] =>
                  match c with
                  | File _ => inr (Dir (delete s es))
                  | Dir _ => inl EISDIR
                  end
              | _ :: _ =>
                  match rm_force c p' with
                  | inl e => inl e
                  | inr c' => inr (Dir (<[s := c']> es))
                  end
              end
          end
      end
  end.

(** The text of the regular file at [p], if there is one. *)
Definition read_file (n : node) (p : list string) : option string :=
  match lookup n p with
  | inr (File data) => Some data
  | _ => None
  end.

(** [p] can be written after its parent has been made with [mkdir_p]:
    no regular file stands where a directory is needed, and the target
    is not a directory. *)
Fixpoint writable (n : node) (p : list string) : bool :=
  match p with
  | [] => false
  | s :: p' =>
      match n with
      | File _ => false
      | Dir es =>
          match es !! s with
          | None => true
          | Some c =>
              match p' with
              | [] => negb (is_dir c)
              | _ :: _ => writable c p'
              end
          end
      end
  end.

End Fs.

(* ===================================================================== *)
(** * [JSON.stringify] *)
(* ===================================================================== *)

Module Json.
Import Str.

Definition backslash : ascii := ascii_of_nat 92.
Definition newline : string := String (ascii_of_nat 10) EmptyString.
Definition tab : string := String (ascii_of_nat 9) EmptyString.

Definition hex_digit (n : nat) : ascii :=
  ascii_of_nat (if (n <? 10)%nat then (48 + n)%nat else (87 + n)%nat).

(** One character of [QuoteJSONString]: the quote, the backslash and the
    control characters are escaped, the rest is copied. *)
Definition escape_char (c : ascii) : string :=
  let n := nat_of_ascii c in
  if (n =? 34)%nat then String backslash dquote
  else if (n =? 92)%nat then String backslash (String backslash EmptyString)
  else if (n =? 8)%nat then String backslash "b"
  else if (n =? 12)%nat then String backslash "f"
  else if (n =? 10)%nat then String backslash "n"
  else if (n =? 13)%nat then String backslash "r"
  else if (n =? 9)%nat then String backslash "t"
  else if (n <? 32)%nat then
    String backslash
      (String "u" (String "0" (String "0"
        (String (hex_digit (n / 16)%nat) (String (hex_digit (n mod 16)%nat) EmptyString)))))
  else String c EmptyString.

(** A character that is copied as it is. *)
Definition plain (c : ascii) : bool :=
  let n := nat_of_ascii c in
  (32 <=? n)%nat && negb (n =? 34)%nat && negb (n =? 92)%nat.

Fixpoint all_plain (s : string) : bool :=
  match s with
  | EmptyString => true
  | String c s' => plain c && all_plain s'
  end.

Fixpoint escape (s : string) : string :=
  match s with
  | EmptyString => EmptyString
  | String c s' => escape_char c +:+ escape s'
  end.

Definition quote (s : string) : string := dquote +:+ escape s +:+ dquote.

(** [JSON.stringify(data, null, gap)] for an object whose properties are
    strings, given in insertion order. *)
Definition stringify_object (gap : string) (props : list (string * string)) : string :=
  match props with
  | [] => "{}"
  | _ =>
      "{" +:+ newline +:+ gap
      +:+ String.concat ("," +:+ newline +:+ gap)
            (map (fun kv => quote kv.1 +:+ ": " +:+ quote kv.2) props)
      +:+ newline +:+ "}"
  end.

(** The value of a lower-case hexadecimal digit. *)
Definition hex_value (c : ascii) : option nat :=
  let n := nat_of_ascii c in
  if (48 <=? n)%nat && (n <=? 57)%nat then Some (n - 48)%nat
  else if (97 <=? n)%nat && (n <=? 102)%nat then Some (n - 87)%nat
  else None.

(** Reading the text of a JSON string back, one character at a time: the
    character the text starts with and the rest of the text.  A text that
    starts with the closing quote, or with no escape that [escape_char]
    writes, has no first character. *)
Definition unescape_char (s : string) : option (ascii * string) :=
  match s with
  | EmptyString => None
  | String c rest =>
      if (nat_of_ascii c =? 34)%nat then None
      else if (nat_of_ascii c =? 92)%nat then
        match rest with
        | String e rest' =>
            let k := nat_of_ascii e in
            if (k =? 34)%nat then Some (ascii_of_nat 34, rest')
            else if (k =? 92)%nat then Some (ascii_of_nat 92, rest')
            else if (k =? 98)%nat then Some (ascii_of_nat 8, rest')
            else if (k =? 102)%nat then Some (ascii_of_nat 12, rest')
            else if (k =? 110)%nat then Some (ascii_of_nat 10, rest')
            else if (k =? 114)%nat then Some (ascii_of_nat 13, rest')
            else if (k =? 116)%nat then Some (ascii_of_nat 9, rest')
            else if (k =? 117)%nat then
              match rest' with
              | String "0" (String "0" (String h (String l rest''))) =>
                  match hex_value h, hex_value l with
                  | Some a, Some b => Some (ascii_of_nat (16 * a + b), rest'')
                  | _, _ => None
                  end
              | _ => None
              end
            else None
        | EmptyString => None
        end
      else Some (c, rest)
  end.

End Json.

(* ===================================================================== *)
(** * The plugin: data *)
(* ===================================================================== *)

Module Data.

(** A host setting as JavaScript has it: [undefined], a boolean or a string. *)
Inductive HostValue : Type :=
| HostUndefined
| HostBool (b : bool)
| HostString (s : string).

#[global] Instance HostValue_eq_dec : EqDecision HostValue.
Proof. solve_decision. Defined.

(** [entry?: string | string[]] *)
Inductive Entry : Type :=
| EntryString (s : string)
| EntryArray (l : list string).

(** [interface PluginConfig] *)
Record PluginConfig : Type := {
  infoFile : option string;
  host : option string;
  entry : option Entry;
}.

Inductive Command : Type := serve | build.

#[global] Instance Command_eq_dec : EqDecision Command.
Proof. solve_decision. Defined.

(** The fields of Vite's [ResolvedConfig] that the plugin touches.
    [server_https] is the truthiness of [server.https]. *)
Record ResolvedConfig : Type := {
  command : Command;
  root : string;
  build_outDir : string;
  server_https : bool;
  server_host : HostValue;
  server_origin : option string;
}.

Inductive Manifest : Type :=
| ManifestBool (b : bool)
| ManifestString (s : string).

(** An element of a CORS origin list; [defaultAllowedOrigins] is Vite's
    constant. *)
Inductive CorsOrigin : Type :=
| defaultAllowedOrigins
| OriginString (s : string).

Inductive Cors : Type :=
| CorsBool (b : bool)
| CorsOptions (origin : list CorsOrigin).

(** [allowedHosts?: string[] | true] *)
Inductive AllowedHosts : Type :=
| AllowedAll
| AllowedList (hosts : list string).

(** The fields of the user's Vite configuration that the [config] hook
    reads; [None] is [undefined]. *)
Record UserBuild : Type := {
  ub_manifest : option Manifest;
  ub_outDir : option string;
  ub_assetsDir : option string;
}.

Record UserServer : Type := {
  us_https : bool;
  us_host : HostValue;
  us_cors : option Cors;
  us_allowedHosts : option AllowedHosts;
}.

Record UserConfig : Type := {
  uc_root : option string;
  uc_base : option string;
  uc_build : option UserBuild;
  uc_server : option UserServer;
}.

(** The object the [config] hook returns. *)
Record HookConfig : Type := {
  c_root : string;
  c_base : string;
  c_build_manifest : Manifest;
  c_build_outDir : string;
  c_build_assetsDir : string;
  c_build_rollupOptions_input : option (list string);
  c_server_cors : Cors;
  c_server_allowedHosts : option AllowedHosts;
  c_server_origin : string;
}.

(** [ViteDevServer]: [httpServer] is a handle of the listener, or [null]. *)
Record ViteDevServer : Type := {
  httpServer : option nat;
}.

(** The events of an HTTP listener; [Listening] carries the port that
    [httpServer.address()] reports at that moment. *)
Inductive Event : Type :=
| Listening (port : N)
| Close.

(** The callbacks [generateInfoFile] registers, with what each closure
    captured. *)
Inductive Handler : Type :=
| OnListening (httpServer : nat) (infoFilePath : string)
| OnClose (httpServer : nat) (infoFilePath : string)
| OnSigint (httpServer : nat).

Inductive Exn : Type :=
| FsError (e : Fs.errno)
| Error (message : string)
| TypeError.

(** Everything the plugin reads and writes: the file system, the working
    directory, the configuration objects Vite owns (by reference), the two
    module-level variables and the registered callbacks. *)
Record World : Type := {
  fs : Fs.node;
  cwd : string;
  heap : gmap nat ResolvedConfig;
  resolvedConfig : option nat;
  pluginConfig : option PluginConfig;
  handlers : list Handler;
}.

Definition set_fs (n : Fs.node) (w : World) : World :=
  {| fs := n; cwd := cwd w; heap := heap w; resolvedConfig := resolvedConfig w;
     pluginConfig := pluginConfig w; handlers := handlers w |}.

Definition set_heap (h : gmap nat ResolvedConfig) (w : World) : World :=
  {| fs := fs w; cwd := cwd w; heap := h; resolvedConfig := resolvedConfig w;
     pluginConfig := pluginConfig w; handlers := handlers w |}.

Definition set_resolvedConfig (r : option nat) (w : World) : World :=
  {| fs := fs w; cwd := cwd w; heap := heap w; resolvedConfig := r;
     pluginConfig := pluginConfig w; handlers := handlers w |}.

Definition set_pluginConfig (c : option PluginConfig) (w : World) : World :=
  {| fs := fs w; cwd := cwd w; heap := heap w; resolvedConfig := resolvedConfig w;
     pluginConfig := c; handlers := handlers w |}.

Definition set_handlers (l : list Handler) (w : World) : World :=
  {| fs := fs w; cwd := cwd w; heap := heap w; resolvedConfig := resolvedConfig w;
     pluginConfig := pluginConfig w; handlers := l |}.

Definition set_origin (url : string) (c : ResolvedConfig) : ResolvedConfig :=
  {| command := command c; root := root c; build_outDir := build_outDir c;
     server_https := server_https c; server_host := server_host c;
     server_origin := Some url |}.

End Data.

(* ===================================================================== *)
(** * Computations: state and exceptions *)
(* ===================================================================== *)

Module Monad.
Import Data.

(** A computation runs in a world and ends with a value or an exception;
    what it changed before an exception stays changed. *)
Definition M (A : Type) : Type := World -> (Exn + A) * World.

Definition ret {A} (a : A) : M A := fun w => (inr a, w).

Definition bind {A B} (m : M A) (k : A -> M B) : M B :=
  fun w =>
    match m w with
    | (inl e, w') => (inl e, w')
    | (inr a, w') => k a w'
    end.

Definition throw {A} (e : Exn) : M A := fun w => (inl e, w).

Definition gets {A} (f : World -> A) : M A := fun w => (inr (f w), w).

Definition modify (f : World -> World) : M unit := fun w => (inr tt, f w).

(** Dereferencing a value that may be [undefined]. *)
Definition defined {A} (o : option A) : M A :=
  match o with
  | Some a => ret a
  | None => throw TypeError
  end.

Fixpoint for_each {A} (l : list A) (f : A -> M unit) : M unit :=
  match l with
  | [] => ret tt
  | a :: l' => bind (f a) (fun _ => for_each l' f)
  end.

Declare Scope monad_scope.
Delimit Scope monad_scope with monad.
Notation "x <- m ;; k" := (bind m (fun x => k))
  (at level 100, m at next level, right associativity) : monad_scope.
Notation "m ;; k" := (bind m (fun _ => k))
  (at level 100, right associativity) : monad_scope.

End Monad.

(* ===================================================================== *)
(** * The plugin: code *)
(* ===================================================================== *)

Module Plugin.
Import Str Data Monad.
#[local] Open Scope monad_scope.

(** ** JavaScript operators on host values *)

Definition truthy (v : HostValue) : bool :=
  match v with
  | HostUndefined => false
  | HostBool b => b
  | HostString s => negb (is_empty s)
  end.

(** [a || b] *)
Definition js_or (a b : HostValue) : HostValue :=
  if truthy a then a else b.

(** The text of [v] inside a template literal. *)
Definition template (v : HostValue) : string :=
  match v with
  | HostUndefined => "undefined"
  | HostBool true => "true"
  | HostBool false => "false"
  | HostString s => s
  end.

Definition of_optional (o : option string) : HostValue :=
  match o with
  | Some s => HostString s
  | None => HostUndefined
  end.

(** ** Node services *)

(** [process.cwd()] *)
Definition process_cwd : M string := gets cwd.

(** Where the operating system finds the path [p] of a running process. *)
Definition fs_path (w : World) (p : string) : list string :=
  (Path.resolve_segments (cwd w) [p]).2.

(** [fs.existsSync(p)] *)
Definition existsSync (p : string) : M bool :=
  fun w => (inr (Fs.exists_at (fs w) (fs_path w p)), w).

Definition fs_call (op : Fs.node -> list string -> Fs.errno + Fs.node)
    (p : string) : M unit :=
  fun w =>
    match op (fs w) (fs_path w p) with
    | inl e => (inl (FsError e), w)
    | inr n => (inr tt, set_fs n w)
    end.

(** [fs.mkdirSync(p, { recursive: true })] *)
Definition mkdirSync_recursive (p : string) : M unit := fs_call Fs.mkdir_p p.

(** [fs.writeFileSync(p, data)] *)
Definition writeFileSync (p : string) (data : string) : M unit :=
  fs_call (fun n k => Fs.write_file n k data) p.

(** [fs.rmSync(p, { force: true })] *)
Definition rmSync_force (p : string) : M unit := fs_call Fs.rm_force p.

(** ** [src/index.ts] *)

(** Reading the module-level variables; a property access on an unset
    one is a [TypeError]. *)
Definition the_resolvedConfig : M ResolvedConfig :=
  r <- gets resolvedConfig ;;
  r <- defined r ;;
  h <- gets heap ;;
  defined (h !! r).

Definition the_pluginConfig : M PluginConfig :=
  c <- gets pluginConfig ;;
  defined c.

(** [function writeJson(filePath, data)] *)
Definition writeJson (filePath : string) (data : list (string * string)) : M unit :=
  let dir := Path.dirname filePath in
  present <- existsSync dir ;;
  (if negb present then mkdirSync_recursive dir else ret tt) ;;
  writeFileSync filePath (Json.stringify_object Json.tab data).

(** The callback of [httpServer.on('listening', ...)]. *)
Definition on_listening (port : N) (infoFilePath : string) : M unit :=
  rc <- the_resolvedConfig ;;
  pc <- the_pluginConfig ;;
  let protocol := if server_https rc then "https" else "http" in
  let host := js_or (js_or (of_optional (host pc)) (server_host rc)) (HostString "localhost") in
  let host :=
    if bool_decide (host = HostBool true) || bool_decide (host = HostString "0.0.0.0")
    then HostString "localhost" else host in
  let devServerUrl :=
    if (port =? 80)%N then protocol +:+ "://" +:+ template host
    else protocol +:+ "://" +:+ template host +:+ ":" +:+ pretty port in
  writeJson infoFilePath [("devServer", devServerUrl)] ;;
  r <- gets resolvedConfig ;;
  r <- defined r ;;
  modify (fun w => set_heap (alter (set_origin devServerUrl) r (heap w)) w).

(** The callback of [httpServer.on('close', ...)]. *)
Definition on_close (infoFilePath : string) : M unit :=
  rmSync_force infoFilePath.

(** [function generateInfoFile(httpServer)] *)
Definition generateInfoFile (httpServer : nat) : M unit :=
  rc <- the_resolvedConfig ;;
  pc <- the_pluginConfig ;;
  file <- defined (infoFile pc) ;;
  here <- process_cwd ;;
  let infoFilePath := Path.resolve here [root rc; build_outDir rc; file] in
  modify (fun w => set_handlers (handlers w ++ [OnListening httpServer infoFilePath]) w) ;;
  modify (fun w => set_handlers (handlers w ++ [OnClose httpServer infoFilePath]) w) ;;
  modify (fun w => set_handlers (handlers w ++ [OnSigint httpServer]) w).

Definition output_directory_message (assetsDirectory : string) : string :=
  "The output directory " +:+ dquote +:+ assetsDirectory +:+ dquote
  +:+ " does not exist. Please set " +:+ dquote +:+ "build.outDir" +:+ dquote
  +:+ " in your Vite config.".

(** [function getDefaultOutDir()] *)
Definition getDefaultOutDir : M string :=
  projectRoot <- process_cwd ;;
  let wwwDirectory := Path.join [projectRoot; "www"] in
  let assetsDirectory := Path.join [wwwDirectory; "assets"] in
  present <- existsSync wwwDirectory ;;
  if negb present then throw (Error (output_directory_message assetsDirectory))
  else ret assetsDirectory.

(** [if (pluginConfig.entry)]: an empty string counts as unset, any
    array counts as set. *)
Definition entry_truthy (e : option Entry) : bool :=
  match e with
  | None => false
  | Some (EntryString s) => negb (is_empty s)
  | Some (EntryArray _) => true
  end.

(** [Array.isArray(e) ? e : [e]] *)
Definition entry_array (e : option Entry) : list string :=
  match e with
  | None => []
  | Some (EntryString s) => [s]
  | Some (EntryArray l) => l
  end.

(** Every value of type [string[] | true] is truthy. *)
Definition allowedHosts_truthy (a : AllowedHosts) : bool :=
  match a with
  | AllowedAll => true
  | AllowedList _ => true
  end.

(** The [config(userConfig)] hook. *)
Definition config (userConfig : UserConfig) : M HookConfig :=
  pc <- the_pluginConfig ;;
  here <- process_cwd ;;
  let root := default "assets" (uc_root userConfig) in
  let protocol :=
    if default false (us_https <$> uc_server userConfig) then "https" else "http" in
  let host :=
    js_or (js_or (of_optional (host pc))
                 (default HostUndefined (us_host <$> uc_server userConfig)))
          (HostString "localhost") in
  let entry :=
    if entry_truthy (entry pc)
    then Some (map (fun entry => Path.resolve here [root; entry]) (entry_array (entry pc)))
    else None in
  let host :=
    if bool_decide (host = HostBool true) || bool_decide (host = HostString "0.0.0.0")
    then HostString "localhost" else host in
  outDir <- match uc_build userConfig ≫= ub_outDir with
            | Some d => ret d
            | None => getDefaultOutDir
            end ;;
  ret {|
    c_root := root;
    c_base := default EmptyString (uc_base userConfig);
    c_build_manifest := default (ManifestBool true) (uc_build userConfig ≫= ub_manifest);
    c_build_outDir := outDir;
    c_build_assetsDir := default EmptyString (uc_build userConfig ≫= ub_assetsDir);
    c_build_rollupOptions_input := entry;
    c_server_cors :=
      default (CorsOptions [defaultAllowedOrigins; OriginString (protocol +:+ "://" +:+ template host)])
              (uc_server userConfig ≫= us_cors);
    (* a ?? b ? c : d  is  (a ?? b) ? c : d *)
    c_server_allowedHosts :=
      if match uc_server userConfig ≫= us_allowedHosts with
         | Some a => allowedHosts_truthy a
         | None => bool_decide (host = HostString "localhost")
         end
      then None
      else Some (AllowedList [template host]);
    c_server_origin := EmptyString;
  |}.

(** The [configResolved(config)] hook; [config] is a reference to the
    object Vite resolved. *)
Definition configResolved (config : nat) : M unit :=
  modify (set_resolvedConfig (Some config)).

(** The [configureServer(devServer)] hook. *)
Definition configureServer (devServer : ViteDevServer) : M unit :=
  rc <- the_resolvedConfig ;;
  match command rc, httpServer devServer with
  | serve, Some server => generateInfoFile server
  | _, _ => ret tt
  end.

(** The object the factory returns. *)
Record PluginOption : Type := {
  name : string;
  hook_config : UserConfig -> M HookConfig;
  hook_configResolved : nat -> M unit;
  hook_configureServer : ViteDevServer -> M unit;
}.

(** [export default function vitePluginNette(config = {})] *)
Definition vitePluginNette (config' : PluginConfig) : M PluginOption :=
  modify (set_pluginConfig (Some {|
    infoFile := Some (default ".vite/nette.json" (infoFile config'));
    host := host config';
    entry := entry config';
  |})) ;;
  ret {|
    name := "vite-plugin-nette";
    hook_config := config;
    hook_configResolved := configResolved;
    hook_configureServer := configureServer;
  |}.

(** ** The event emitter *)

(** One registered callback, when [ev] is emitted on [server]. *)
Definition run_handler (server : nat) (ev : Event) (h : Handler) : M unit :=
  match h, ev with
  | OnListening s infoFilePath, Listening port =>
      if decide (s = server) then on_listening port infoFilePath else ret tt
  | OnClose s infoFilePath, Close =>
      if decide (s = server) then on_close infoFilePath else ret tt
  | _, _ => ret tt
  end.

(** [server.emit(ev)]: the callbacks registered at this moment, in order. *)
Definition emit (server : nat) (ev : Event) : M unit :=
  hs <- gets handlers ;;
  for_each hs (run_handler server ev).

Definition emit_all (server : nat) (evs : list Event) : M unit :=
  for_each evs (emit server).

(** ** What the host process can do with the plugin *)

Inductive Action : Type :=
| CallFactory (c : PluginConfig)
| CallConfig (u : UserConfig)
| CallConfigResolved (r : nat)
| CallConfigureServer (d : ViteDevServer)
| Emit (server : nat) (ev : Event).

Definition perform (a : Action) : M unit :=
  match a with
  | CallFactory c => vitePluginNette c ;; ret tt
  | CallConfig u => config u ;; ret tt
  | CallConfigResolved r => configResolved r
  | CallConfigureServer d => configureServer d
  | Emit server ev => emit server ev
  end.

(** Every action is tried, whether or not an earlier one threw. *)
Fixpoint perform_all (l : list Action) (w : World) : World :=
  match l with
  | [] => w
  | a :: l' => perform_all l' (perform a w).2
  end.

End Plugin.

(* ===================================================================== *)
(** * The interrupt signal *)
(* ===================================================================== *)

Module Signal.
Import Data Monad Plugin.

(** How the process stands once a signal has been handled. *)
Inductive Outcome : Type :=
| Exited (code : N) (w : World)
| Uncaught (e : Exn) (w : World)
| Killed (w : World).

(** The callback of [process.on('SIGINT', ...)]:
    [httpServer.close(() => process.exit(0))].  For a listener with no
    connection open [close] emits the [close] event; the function given
    to [close] is registered for that event after the callbacks that are
    there already, so it runs last, and [process.exit] ends the process
    there.  An exception that leaves a callback is not caught by
    anything. *)
Definition on_sigint (httpServer : nat) (w : World) : Outcome :=
  match emit httpServer Close w with
  | (inr _, w') => Exited 0 w'
  | (inl e, w') => Uncaught e w'
  end.

(** SIGINT reaches the process: the first callback registered for it
    ends the process; with no callback the signal has its default
    action. *)
Fixpoint deliver (hs : list Handler) (w : World) : Outcome :=
  match hs with
  | [] => Killed w
  | OnSigint server :: _ => on_sigint server w
  | _ :: hs' => deliver hs' w
  end.

Definition sigint (w : World) : Outcome := deliver (handlers w) w.

End Signal.

(* ===================================================================== *)
(** * The earlier revision *)
(* ===================================================================== *)

Module Legacy.
Import Str Data Monad Plugin.
#[local] Open Scope monad_scope.

(** ** The process of this revision *)

(** Besides what the later revision does, the revision kept as
    [src/src/index.ts] sets a timer, installs a middleware and prints to
    the console. *)

(** The closure given to [setTimeout] in the [listening] callback; it
    captures nothing, and its body is [banner] below. *)
Inductive Timer : Type :=
| BannerTimer (delay : N).

(** The closure given to [devServer.middlewares.use]; its body is
    [index_middleware] below. *)
Inductive Middleware : Type :=
| IndexMiddleware.

(** The world of the plugin, the timers that are set and have not run,
    oldest first, the middlewares in use, per dev server and in the order
    of their installation, and the texts given to [console.log]. *)
Record Process : Type := {
  world : World;
  timers : list Timer;
  middlewares : list (ViteDevServer * Middleware);
  console : list string;
}.

Definition set_world (w : World) (p : Process) : Process :=
  {| world := w; timers := timers p; middlewares := middlewares p; console := console p |}.

Definition set_timers (l : list Timer) (p : Process) : Process :=
  {| world := world p; timers := l; middlewares := middlewares p; console := console p |}.

Definition set_middlewares (l : list (ViteDevServer * Middleware)) (p : Process) : Process :=
  {| world := world p; timers := timers p; middlewares := l; console := console p |}.

Definition set_console (l : list string) (p : Process) : Process :=
  {| world := world p; timers := timers p; middlewares := middlewares p; console := l |}.

(** A process in the world [w] in which no timer is set, no middleware
    is in use and nothing has been printed. *)
Definition process_of (w : World) : Process :=
  {| world := w; timers := []; middlewares := []; console := [] |}.

(** A computation of this revision runs in a process. *)
Definition L (A : Type) : Type := Process -> (Exn + A) * Process.

Definition lret {A} (a : A) : L A := fun p => (inr a, p).

Definition lbind {A B} (m : L A) (k : A -> L B) : L B :=
  fun p =>
    match m p with
    | (inl e, p') => (inl e, p')
    | (inr a, p') => k a p'
    end.

(** A computation on the world, run in the process. *)
Definition lift {A} (m : M A) : L A :=
  fun p => ((m (world p)).1, set_world (m (world p)).2 p).

(** The value of an expression that may throw. *)
Definition of_result {A} (r : Exn + A) : L A := fun p => (r, p).

Fixpoint lfor_each {A} (l : list A) (f : A -> L unit) : L unit :=
  match l with
  | [] => lret tt
  | a :: l' => lbind (f a) (fun _ => lfor_each l' f)
  end.

Declare Scope legacy_scope.
Delimit Scope legacy_scope with legacy.
Notation "x <- m ;; k" := (lbind m (fun x => k))
  (at level 100, m at next level, right associativity) : legacy_scope.
Notation "m ;; k" := (lbind m (fun _ => k))
  (at level 100, right associativity) : legacy_scope.

(** [setTimeout(callback, delay)] *)
Definition setTimeout (t : Timer) : L unit :=
  fun p => (inr tt, set_timers (timers p ++ [t]) p).

(** [devServer.middlewares.use(middleware)] *)
Definition middlewares_use (devServer : ViteDevServer) (m : Middleware) : L unit :=
  fun p => (inr tt, set_middlewares (middlewares p ++ [(devServer, m)]) p).

(** [console.log(text)] *)
Definition console_log (text : string) : L unit :=
  fun p => (inr tt, set_console (console p ++ [text]) p).

(** ** The callbacks and the hooks *)

(** The [listening] callback, from before the [host] option, the
    sentinel rule and the port-80 rule: the host is the server host or
    [localhost], and the port is always part of the URL.  Its last
    statement sets the timer of the banner, [banner] below. *)
Definition on_listening (port : N) (infoFilePath : string) : L unit :=
  (lift (rc <- the_resolvedConfig ;;
         let protocol := if server_https rc then "https" else "http" in
         let host := js_or (server_host rc) (HostString "localhost") in
         let devServerUrl := protocol +:+ "://" +:+ template host +:+ ":" +:+ pretty port in
         writeJson infoFilePath [("devServer", devServerUrl)] ;;
         r <- gets resolvedConfig ;;
         r <- defined r ;;
         modify (fun w => set_heap (alter (set_origin devServerUrl) r (heap w)) w))%monad ;;
   setTimeout (BannerTimer 200))%legacy.

(** [function generateInfoFile(httpServer)]: the path and the three
    registrations are those of the later revision. *)
Definition generateInfoFile (httpServer : nat) : M unit :=
  rc <- the_resolvedConfig ;;
  pc <- the_pluginConfig ;;
  file <- defined (infoFile pc) ;;
  here <- process_cwd ;;
  let infoFilePath := Path.resolve here [root rc; build_outDir rc; file] in
  modify (fun w => set_handlers (handlers w ++ [OnListening httpServer infoFilePath]) w) ;;
  modify (fun w => set_handlers (handlers w ++ [OnClose httpServer infoFilePath]) w) ;;
  modify (fun w => set_handlers (handlers w ++ [OnSigint httpServer]) w).

(** The [config(userConfig)] hook: the host is the user's server host or
    [localhost] as it stands, and there is no [allowedHosts] key. *)
Definition config (userConfig : UserConfig) : M HookConfig :=
  pc <- the_pluginConfig ;;
  here <- process_cwd ;;
  let root := default "assets" (uc_root userConfig) in
  let protocol :=
    if default false (us_https <$> uc_server userConfig) then "https" else "http" in
  let host :=
    js_or (default HostUndefined (us_host <$> uc_server userConfig))
          (HostString "localhost") in
  let entry :=
    if entry_truthy (entry pc)
    then Some (map (fun entry => Path.resolve here [root; entry]) (entry_array (entry pc)))
    else None in
  outDir <- match uc_build userConfig ≫= ub_outDir with
            | Some d => ret d
            | None => getDefaultOutDir
            end ;;
  ret {|
    c_root := root;
    c_base := default EmptyString (uc_base userConfig);
    c_build_manifest := default (ManifestBool true) (uc_build userConfig ≫= ub_manifest);
    c_build_outDir := outDir;
    c_build_assetsDir := default EmptyString (uc_build userConfig ≫= ub_assetsDir);
    c_build_rollupOptions_input := entry;
    c_server_cors :=
      default (CorsOptions [defaultAllowedOrigins; OriginString (protocol +:+ "://" +:+ template host)])
              (uc_server userConfig ≫= us_cors);
    c_server_allowedHosts := None;
    c_server_origin := EmptyString;
  |}.

(** A configuration object without the [allowedHosts] key. *)
Definition without_allowedHosts (c : HookConfig) : HookConfig := {|
  c_root := c_root c;
  c_base := c_base c;
  c_build_manifest := c_build_manifest c;
  c_build_outDir := c_build_outDir c;
  c_build_assetsDir := c_build_assetsDir c;
  c_build_rollupOptions_input := c_build_rollupOptions_input c;
  c_server_cors := c_server_cors c;
  c_server_allowedHosts := None;
  c_server_origin := c_server_origin c;
|}.

(** What a hook of the later revision gives back, as the earlier one
    gives it back: a configuration object is without the [allowedHosts]
    key. *)
Definition earlier (r : Exn + option HookConfig) : Exn + option HookConfig :=
  match r with
  | inr (Some c) => inr (Some (without_allowedHosts c))
  | _ => r
  end.

(** The [configureServer(devServer)] hook.  It returns the function
    [() => devServer.middlewares.use(...)], which installs the middleware
    [index_middleware] below when it is called. *)
Definition configureServer (devServer : ViteDevServer) : L (L unit) :=
  (lift (rc <- the_resolvedConfig ;;
         match command rc, httpServer devServer with
         | serve, Some server => generateInfoFile server
         | _, _ => ret tt
         end)%monad ;;
   lret (middlewares_use devServer IndexMiddleware))%legacy.

(** The plugin object of this revision. *)
Record PluginOption : Type := {
  name : string;
  hook_config : UserConfig -> M HookConfig;
  hook_configResolved : nat -> M unit;
  hook_configureServer : ViteDevServer -> L (L unit);
}.

(** [export default function vitePluginNette(config = {})]: the stored
    configuration has the two fields of this revision's interface. *)
Definition vitePluginNette (config' : PluginConfig) : M PluginOption :=
  modify (set_pluginConfig (Some {|
    infoFile := Some (default ".vite/nette.json" (infoFile config'));
    host := None;
    entry := entry config';
  |})) ;;
  ret {|
    name := "vite-plugin-nette";
    hook_config := config;
    hook_configResolved := configResolved;
    hook_configureServer := configureServer;
  |}.

(** One registered callback of this revision, when [ev] is emitted on
    [server]. *)
Definition run_handler (server : nat) (ev : Event) (h : Handler) : L unit :=
  match h, ev with
  | OnListening s infoFilePath, Listening port =>
      if decide (s = server) then on_listening port infoFilePath else lret tt
  | OnClose s infoFilePath, Close =>
      if decide (s = server) then lift (on_close infoFilePath) else lret tt
  | _, _ => lret tt
  end.

Definition emit (server : nat) (ev : Event) : L unit :=
  (hs <- lift (gets handlers) ;;
   lfor_each hs (run_handler server ev))%legacy.

(** ** Reading files *)

(** [fs.readFileSync(p).toString()] *)
Definition readFileSync (p : string) : M string :=
  fun w =>
    match Fs.lookup (fs w) (fs_path w p) with
    | inr (Fs.File data) => (inr data, w)
    | inr (Fs.Dir _) => (inl (FsError Fs.EISDIR), w)
    | inl e => (inl (FsError e), w)
    end.

(** [try { ... } catch { ... }] *)
Definition try_catch {A} (body : M A) (handler : M A) : M A :=
  fun w =>
    match body w with
    | (inl _, w') => handler w'
    | (inr a, w') => (inr a, w')
    end.

(** ** Values read with [JSON.parse] *)

(** A number is kept as the text JavaScript prints for it. *)
Inductive json : Type :=
| JNull
| JBool (b : bool)
| JNumber (numeral : string)
| JString (s : string)
| JArray (elements : list json)
| JObject (properties : gmap string json).

(** [v === undefined || v === null]; [None] is [undefined]. *)
Definition nullish (v : option json) : bool :=
  match v with
  | None | Some JNull => true
  | Some _ => false
  end.

(** The property [key] of [v] for the keys [packages], [name] and
    [version], which no prototype has: an object has its own properties,
    any other value has none of these. *)
Definition own_property (v : json) (key : string) : option json :=
  match v with
  | JObject properties => properties !! key
  | _ => None
  end.

(** [v.key]: reading a property of [null] is a [TypeError]. *)
Definition property (v : json) (key : string) : M (option json) :=
  match v with
  | JNull => throw TypeError
  | _ => ret (own_property v key)
  end.

(** [v === 'nette/application'] *)
Definition is_nette_application (v : option json) : bool :=
  match v with
  | Some (JString s) => bool_decide (s = "nette/application")
  | _ => false
  end.

(** [Array.prototype.find] with the callback
    [(composerPackage) => composerPackage.name === 'nette/application']. *)
Fixpoint find_package (elements : list json) : M (option json) :=
  match elements with
  | [] => ret None
  | composerPackage :: rest =>
      name <- property composerPackage "name" ;;
      if is_nette_application name then ret (Some composerPackage)
      else find_package rest
  end.

(** [packages.find(...)]: only an array has a [find] that can be
    called. *)
Definition call_find (packages : json) : M (option json) :=
  match packages with
  | JArray elements => find_package elements
  | _ => throw TypeError
  end.

(** What a middleware has done with a request so far: the status code
    of the response, the texts [res.end] was called with, and how often
    [next] was called. *)
Record Exchange : Type := {
  statusCode : N;
  ended : list string;
  nexts : nat;
}.

(** The text of [v] inside a template literal.  An array is the texts
    of its elements joined by commas, [null] among them giving the empty
    text; an object is [[object Object]], unless it has a property
    [toString] of its own: a value read with [JSON.parse] cannot be
    called, no primitive is reached and the conversion is a
    [TypeError]. *)
Fixpoint to_string (v : json) : Exn + string :=
  match v with
  | JNull => inr "null"
  | JBool b => inr (if b then "true" else "false")
  | JNumber numeral => inr numeral
  | JString s => inr s
  | JArray elements =>
      (fix join (l : list json) : Exn + string :=
         match l with
         | [] => inr EmptyString
         | x :: rest =>
             match match x with
                   | JNull => inr EmptyString
                   | _ => to_string x
                   end with
             | inl e => inl e
             | inr first =>
                 match rest with
                 | [] => inr first
                 | _ :: _ =>
                     match join rest with
                     | inl e => inl e
                     | inr others => inr (first +:+ "," +:+ others)
                     end
                 end
             end
         end) elements
  | JObject properties =>
      match properties !! "toString" with
      | Some _ => inl TypeError
      | None => inr "[object Object]"
      end
  end.

(** [`${v}`]; [None] is [undefined]. *)
Definition template_of (v : option json) : Exn + string :=
  match v with
  | Some v => to_string v
  | None => inr "undefined"
  end.

(** ** Sessions *)

(** What happens in a process of this revision: the host process calls a
    hook or a listener emits an event, as with the later revision, or the
    delay of the oldest timer is over. *)
Inductive Step : Type :=
| Do (a : Action)
| Timeout.

(** The hook calls and events among the steps. *)
Definition calls (l : list Step) : list Action :=
  flat_map (fun s => match s with Do a => [a] | Timeout => [] end) l.

Section Module_environment.
(** [JSON.parse]; [None] is a [SyntaxError]. *)
Variable JSON_parse : string -> option json.
(** [fileURLToPath(new URL('.', import.meta.url))], the value of
    [dirname()]: the directory of the module. *)
Variable dirname : string.
(** [colors.blue], [colors.bold] and [colors.dim] of [picocolors]. *)
Variables blue bold dim : string -> string.

Definition parse (text : string) : M json :=
  match JSON_parse text with
  | Some v => ret v
  | None => throw (Error "SyntaxError")
  end.

(** [function netteVersion()] *)
Definition netteVersion : M json :=
  try_catch
    (text <- readFileSync "composer.lock" ;;
     composer <- parse text ;;
     packages <- property composer "packages" ;;
     found <- match packages with
              | Some p => if nullish packages then ret None else call_find p
              | None => ret None
              end ;;
     version <- match found with
                | Some f => if nullish found then ret None else property f "version"
                | None => ret None
                end ;;
     ret (if nullish version then JString EmptyString else default JNull version))
    (ret (JString EmptyString)).

(** [function nettepluginVersion()]; [None] is [undefined]. *)
Definition nettepluginVersion : M (option json) :=
  try_catch
    (text <- readFileSync (Path.join [dirname; "../package.json"]) ;;
     package <- parse text ;;
     if nullish (Some package) then ret None else property package "version")
    (ret (Some (JString EmptyString))).

(** The middleware that the function returned by [configureServer]
    installs: [(req, res, next) => { ... }] for a request with
    [req.url = url].  What it did before an exception stays done. *)
Definition index_middleware (url : option string) (x : Exchange) (w : World)
    : option Exn * Exchange :=
  let '(thrown, x) :=
    if bool_decide (url = Some "/index.html") then
      let x := {| statusCode := 404; ended := ended x; nexts := nexts x |} in
      match readFileSync (Path.join [dirname; "dev-server-index.html"]) w with
      | (inr page, _) =>
          (None, {| statusCode := statusCode x; ended := ended x ++ [page];
                    nexts := nexts x |})
      | (inl e, _) => (Some e, x)
      end
    else (None, x) in
  match thrown with
  | Some e => (Some e, x)
  | None => (None, {| statusCode := statusCode x; ended := ended x; nexts := S (nexts x) |})
  end.

(** The body of the timer's callback: the two versions are read when
    the timer runs, and one text is printed. *)
Definition banner : L unit :=
  (nette <- lift netteVersion ;;
   nette <- of_result (to_string nette) ;;
   plugin <- lift nettepluginVersion ;;
   plugin <- of_result (template_of plugin) ;;
   console_log (Json.newline +:+ "  " +:+ blue (bold "Nette" +:+ " " +:+ nette)
                +:+ "  " +:+ dim "plugin" +:+ " " +:+ bold ("v" +:+ plugin)))%legacy.

Definition run_timer (t : Timer) : L unit :=
  match t with
  | BannerTimer _ => banner
  end.

(** The delay of the oldest timer is over: it is no longer set, and
    its callback runs.  (All timers of the plugin have the same
    delay.) *)
Definition timeout : L unit :=
  fun p =>
    match timers p with
    | [] => (inr tt, p)
    | t :: rest => run_timer t (set_timers rest p)
    end.

(** One step.  The [config] hook gives back its configuration
    object.  What [configureServer] gives back is the installer, which
    Vite calls once its own middlewares are installed: the step calls
    it and keeps nothing. *)
Definition perform (s : Step) : L (option HookConfig) :=
  match s with
  | Do (CallFactory c) => lift (vitePluginNette c ;; ret None)
  | Do (CallConfig u) => lift (c <- config u ;; ret (Some c))
  | Do (CallConfigResolved r) => lift (configResolved r ;; ret None)
  | Do (CallConfigureServer d) =>
      (install <- configureServer d ;; install ;; lret None)%legacy
  | Do (Emit server ev) => (emit server ev ;; lret None)%legacy
  | Timeout => (timeout ;; lret None)%legacy
  end.

(** Every step is tried, whether or not an earlier one threw. *)
Fixpoint perform_all (l : list Step) (p : Process) : Process :=
  match l with
  | [] => p
  | s :: l' => perform_all l' (perform s p).2
  end.

(** For each hook call and event of a session, in order: what it
    threw, or the configuration object it gave back, if any. *)
Fixpoint answers (l : list Step) (p : Process) : list (Exn + option HookConfig) :=
  match l with
  | [] => []
  | Do a :: l' => (perform (Do a) p).1 :: answers l' (perform (Do a) p).2
  | Timeout :: l' => answers l' (perform Timeout p).2
  end.

End Module_environment.

End Legacy.

(* ===================================================================== *)
(** * The words of the specification *)
(* ===================================================================== *)

Module Spec.
Import Str Data.

(** The states of the Coordinator (specification, section 4.2). *)
Inductive Lifecycle : Type := Idle | Active | Terminated.

#[global] Instance Lifecycle_eq_dec : EqDecision Lifecycle.
Proof. solve_decision. Defined.

(** A [listening] event makes the listener Active, a [close] event ends
    that. *)
Definition lifecycle_step (st : Lifecycle) (ev : Event) : Lifecycle :=
  match ev with
  | Listening _ => Active
  | Close => Terminated
  end.

Definition lifecycle (evs : list Event) : Lifecycle :=
  fold_left lifecycle_step evs Idle.

(** A host setting is set when it is a non-empty string or [true]. *)
Definition host_set (v : HostValue) : bool :=
  match v with
  | HostString s => negb (is_empty s)
  | HostBool b => b
  | HostUndefined => false
  end.

(** The all-interfaces sentinel. *)
Definition all_interfaces (v : HostValue) : bool :=
  match v with
  | HostBool true => true
  | HostString s => bool_decide (s = "0.0.0.0")
  | _ => false
  end.

(** The advertised host: the plugin's override if set, else the server
    host if set, else [localhost]; the sentinel becomes [localhost]. *)
Definition advertised_host (override : option string) (server_host : HostValue) : string :=
  let chosen :=
    match override with
    | Some h => if is_empty h then None else Some (HostString h)
    | None => None
    end in
  let chosen :=
    match chosen with
    | Some v => v
    | None => if host_set server_host then server_host else HostString "localhost"
    end in
  if all_interfaces chosen then "localhost"
  else match chosen with
       | HostString s => s
       | _ => "localhost"
       end.

Definition protocol_of (https : bool) : string :=
  if https then "https" else "http".

(** The URL of the dev server. *)
Definition dev_server_url (https : bool) (host : string) (port : N) : string :=
  if decide (port = 80%N) then protocol_of https +:+ "://" +:+ host
  else protocol_of https +:+ "://" +:+ host +:+ ":" +:+ pretty port.

(** The URL a [listening] event on [port] advertises under the given
    configuration. *)
Definition advertised_url (rc : ResolvedConfig) (pc : PluginConfig) (port : N) : string :=
  dev_server_url (server_https rc) (advertised_host (host pc) (server_host rc)) port.

(** The text of the artifact: tab-indented JSON with the one field. *)
Definition artifact (url : string) : string :=
  Json.stringify_object Json.tab [("devServer", url)].

(** ** Claims in the words of the specification *)

(** Resolution fails exactly when no output directory is given and no
    [www] directory exists under the working directory. *)
Definition fails_iff_no_www_directory (w : World) (u : UserConfig) : Prop :=
  (exists e, (Plugin.config u w).1 = inl e)
  <-> uc_build u ≫= ub_outDir = None
      /\ ~ exists es,
            Fs.lookup (fs w) (Plugin.fs_path w (Path.join [cwd w; "www"]))
            = inr (Fs.Dir es).

(** The allowed-hosts list holds the host override when one was given
    and differs from [localhost], is omitted otherwise, and a value the
    user gave is passed through. *)
Definition allowedHosts_as_stated (pc : PluginConfig) (u : UserConfig)
    (c : HookConfig) : Prop :=
  match uc_server u ≫= us_allowedHosts with
  | Some a => c_server_allowedHosts c = Some a
  | None =>
      match host pc with
      | Some o =>
          if decide (o = "localhost") then c_server_allowedHosts c = None
          else exists l, c_server_allowedHosts c = Some (AllowedList l) /\ In o l
      | None => c_server_allowedHosts c = None
      end
  end.

(** The entry input has the length and order of the entry setting; an
    element that is not absolute is resolved against the resolved root, an
    absolute one is unchanged; without an entry there is no list. *)
Definition entry_as_stated (w : World) (pc : PluginConfig) (u : UserConfig)
    (c : HookConfig) : Prop :=
  match entry pc with
  | None => c_build_rollupOptions_input c = None
  | Some e =>
      exists out,
        c_build_rollupOptions_input c = Some out
        /\ length out = length (Plugin.entry_array (Some e))
        /\ forall i x, Plugin.entry_array (Some e) !! i = Some x ->
              out !! i
              = Some (if Str.starts_with_slash x then x
                      else Path.resolve (cwd w)
                             [Path.resolve (cwd w) [default "assets" (uc_root u)]; x])
  end.

(** [server.origin] equals the artifact's [devServer] value at all times
    after the first Active transition: whatever events the listener
    [server] has seen from the world [w] on, once a [listening] event is
    among them the file at [place] holds the record of the URL that is
    the origin of the configuration [r]. *)
Definition origin_equals_artifact_at_all_times (w : World) (server r : nat)
    (place : list string) : Prop :=
  forall evs : list Event,
    (exists port, In (Listening port) evs) ->
    exists url,
      server_origin <$> heap (Plugin.emit_all server evs w).2 !! r = Some (Some url)
      /\ Fs.read_file (fs (Plugin.emit_all server evs w).2) place = Some (artifact url).

End Spec.

(* ===================================================================== *)
(** * The setting of the theorems *)
(* ===================================================================== *)

Module Setting.
Import Str Data Spec.

(** The callbacks of one attached Coordinator. *)
Definition coordinator (server : nat) (infoFilePath : string) : list Handler :=
  [OnListening server infoFilePath; OnClose server infoFilePath; OnSigint server].

(** The port of the most recent [listening] event. *)
Definition bound_port_step (acc : option N) (ev : Event) : option N :=
  match ev with
  | Listening port => Some port
  | Close => acc
  end.

Definition last_bound_port (evs : list Event) : option N :=
  fold_left bound_port_step evs None.

(** The configuration objects once the origin of [r] has been set for
    the port [lp], if any. *)
Definition origin_written (r : nat) (rc : ResolvedConfig) (pc : PluginConfig)
    (h0 : gmap nat ResolvedConfig) (lp : option N) : gmap nat ResolvedConfig :=
  match lp with
  | None => h0
  | Some port => <[r := set_origin (advertised_url rc pc port) rc]> h0
  end.

(** The path [generateInfoFile] computes, and its place in the file
    system. *)
Definition infoFilePath (w : World) (rc : ResolvedConfig) (file : string) : string :=
  Path.resolve (cwd w) [root rc; build_outDir rc; file].

Definition info_place (w : World) (rc : ResolvedConfig) (file : string) : list string :=
  Plugin.fs_path w (infoFilePath w rc file).

(** A dev-server process before [configureServer]: the working
    directory is rooted, the factory and [configResolved] have run (the
    configuration [rc], reached through [r], is for [serve]; the plugin
    configuration is [pc] with info file [file]), and no callback is
    registered yet. *)
Definition ready (w : World) (r : nat) (rc : ResolvedConfig) (pc : PluginConfig)
    (file : string) : Prop :=
  Str.starts_with_slash (cwd w) = true
  /\ handlers w = []
  /\ resolvedConfig w = Some r
  /\ heap w !! r = Some rc
  /\ command rc = serve
  /\ pluginConfig w = Some pc
  /\ infoFile pc = Some file.

(** A process in which every resolved configuration is for [build] and
    no callback is registered. *)
Definition builds_only (w : World) : Prop :=
  handlers w = []
  /\ forall r rc, heap w !! r = Some rc -> command rc = build.

(** What the file system shows after the event [le]. *)
Definition file_state (rc : ResolvedConfig) (pc : PluginConfig) (segs : list string)
    (le : option Event) (n : Fs.node) : Prop :=
  match le with
  | None => True
  | Some (Listening port) =>
      Fs.read_file n segs = Some (artifact (advertised_url rc pc port))
  | Some Close => Fs.exists_at n segs = false
  end.

(** The worlds one attached Coordinator moves through: its three
    callbacks are the registered ones, the module variables stay as they
    were at attachment, the artifact's place stays writable, and the file
    and the origin reflect the events seen so far. *)
Definition coordinator_inv (server r : nat) (rc : ResolvedConfig) (pc : PluginConfig)
    (segs : list string) (h0 : gmap nat ResolvedConfig)
    (le : option Event) (lp : option N) (w : World) : Prop :=
  handlers w = coordinator server (Path.render segs)
  /\ resolvedConfig w = Some r
  /\ pluginConfig w = Some pc
  /\ Fs.writable (fs w) segs = true
  /\ heap w = origin_written r rc pc h0 lp
  /\ file_state rc pc segs le (fs w).

(** What the callbacks of a Coordinator rely on, whatever else is
    registered: the module variables, a writable place, and the
    configuration objects with the origin as the events so far left it. *)
Definition callbacks_inv (r : nat) (rc : ResolvedConfig) (pc : PluginConfig)
    (segs : list string) (h0 : gmap nat ResolvedConfig) (lp : option N) (w : World) : Prop :=
  resolvedConfig w = Some r
  /\ pluginConfig w = Some pc
  /\ Fs.writable (fs w) segs = true
  /\ heap w = origin_written r rc pc h0 lp.

(** Everywhere but at the place [segs], [n'] has the files of [n] with
    their text and no other file, and every entry of [n]. *)
Definition kept_apart_from (segs : list string) (n n' : Fs.node) : Prop :=
  forall q, q <> segs ->
    Fs.read_file n' q = Fs.read_file n q
    /\ (Fs.exists_at n q = true -> Fs.exists_at n' q = true).

(** The directory of a place. *)
Definition parent (segs : list string) : list string := removelast segs.

(** The file system a Coordinator leaves after the events [evs], from a
    tree [n0] without the artifact: the directory of the artifact is made
    at the first [listening] event and stays; the artifact is there after
    a [listening] event and gone after a [close] event. *)
Definition tree_after (n0 : Fs.node) (segs : list string) (text : N -> string)
    (evs : list Event) : Fs.errno + Fs.node :=
  match last_bound_port evs with
  | None => inr n0
  | Some _ =>
      match Fs.mkdir_p n0 (parent segs) with
      | inl e => inl e
      | inr n1 =>
          match last evs with
          | Some (Listening port) => Fs.write_file n1 segs (text port)
          | _ => inr n1
          end
      end
  end.

(** A use of the plugin that stays clear of what the later revision
    added: no host option, no user configuration that binds all
    interfaces, no listener on port 80. *)
Definition plain_action (a : Plugin.Action) : Prop :=
  match a with
  | Plugin.CallFactory c => host c = None
  | Plugin.CallConfig u =>
      all_interfaces (default HostUndefined (us_host <$> uc_server u)) = false
  | Plugin.Emit _ (Listening port) => port <> 80%N
  | _ => True
  end.

(** What an action gives back to the host process: the [config] hook
    its configuration object; the other hooks and the events give
    nothing back. *)
Definition answer (a : Plugin.Action) : Monad.M (option HookConfig) :=
  match a with
  | Plugin.CallConfig u => Monad.bind (Plugin.config u) (fun c => Monad.ret (Some c))
  | _ => Monad.bind (Plugin.perform a) (fun _ => Monad.ret None)
  end.

(** For each action of a session, in order: what it threw, or the
    configuration object it gave back, if any. *)
Fixpoint answers (l : list Plugin.Action) (w : World) : list (Exn + option HookConfig) :=
  match l with
  | [] => []
  | a :: l' => (answer a w).1 :: answers l' (Plugin.perform a w).2
  end.

(** No configuration object binds all interfaces. *)
Definition no_sentinel (w : World) : Prop :=
  forall r rc, heap w !! r = Some rc -> all_interfaces (server_host rc) = false.

(** What stays true of the world in a session of plain actions from a
    process in which the plugin is not loaded: no configuration object
    binds all interfaces, the stored plugin configuration has no host
    option, and callbacks are registered only once the plugin is
    loaded. *)
Definition plain_world (w : World) : Prop :=
  no_sentinel w
  /\ (forall pc, pluginConfig w = Some pc -> host pc = None)
  /\ (pluginConfig w = None -> handlers w = []).

(** An event on one of two listeners: [true] names the first. *)
Definition on_listener (s1 s2 : nat) (e : bool * Event) : Plugin.Action :=
  Plugin.Emit (if e.1 then s1 else s2) e.2.

(** [k] calls of [configureServer] for the same listener. *)
Definition attachments (k : nat) (server : nat) (infoFilePath : string) : list Handler :=
  concat (replicate k (coordinator server infoFilePath)).

End Setting.


(* ===================================================================== *)
(** * A sample process *)
(* ===================================================================== *)

Module Sample.
Import Data Plugin.

(** A project directory [/home/app] with [www/assets] in it. *)
Definition tree : Fs.node :=
  Fs.Dir {[ "home" :=
    Fs.Dir {[ "app" :=
      Fs.Dir {[ "www" := Fs.Dir {[ "assets" := Fs.Dir ∅ ]} ]} ]} ]}.

(** The same project with a regular file named [www]. *)
Definition tree_www_file : Fs.node :=
  Fs.Dir {[ "home" := Fs.Dir {[ "app" := Fs.Dir {[ "www" := Fs.File EmptyString ]} ]} ]}.

(** A project without [www]. *)
Definition tree_bare : Fs.node :=
  Fs.Dir {[ "home" := Fs.Dir {[ "app" := Fs.Dir ∅ ]} ]}.

Definition mockConfig : ResolvedConfig := {|
  command := serve;
  root := "/home/app";
  build_outDir := "/home/app/www/assets";
  server_https := false;
  server_host := HostString "localhost";
  server_origin := Some EmptyString;
|}.

Definition buildConfig : ResolvedConfig := {|
  command := build;
  root := "/home/app";
  build_outDir := "/home/app/www/assets";
  server_https := false;
  server_host := HostString "localhost";
  server_origin := Some EmptyString;
|}.

(** The process before the plugin is loaded. *)
Definition boot (tree : Fs.node) (rc : ResolvedConfig) : World := {|
  fs := tree;
  cwd := "/home/app";
  heap := {[ 0 := rc ]};
  resolvedConfig := None;
  pluginConfig := None;
  handlers := [];
|}.

Definition options (file : option string) (h : option string) (e : option Entry)
    : PluginConfig :=
  {| infoFile := file; host := h; entry := e |}.

(** The factory has been called and Vite has resolved its configuration. *)
Definition started (o : PluginConfig) (w : World) : World :=
  perform_all [CallFactory o; CallConfigResolved 0] w.

Definition userConfig (server : option UserServer) (b : option UserBuild) : UserConfig :=
  {| uc_root := None; uc_base := None; uc_build := b; uc_server := server |}.

Definition userServer (h : HostValue) (a : option AllowedHosts) : UserServer :=
  {| us_https := false; us_host := h; us_cors := None; us_allowedHosts := a |}.

(** The dev-server process of the tests: default options, [mockConfig]. *)
Definition dev : World := started (options None None None) (boot tree mockConfig).

(** The plugin configuration the factory stores for default options. *)
Definition stored : PluginConfig := options (Some ".vite/nette.json") None None.

(** The same process with the info file at [deep/nested/path/info.json]. *)
Definition dev_nested : World :=
  started (options (Some "deep/nested/path/info.json") None None) (boot tree mockConfig).

Definition stored_nested : PluginConfig :=
  options (Some "deep/nested/path/info.json") None None.

(** The mock configuration of a test, by its [https] and [host]. *)
Definition mock (https : bool) (h : HostValue) : ResolvedConfig := {|
  command := serve;
  root := "/home/app";
  build_outDir := "/home/app/www/assets";
  server_https := https;
  server_host := h;
  server_origin := Some EmptyString;
|}.

(** A whole session: factory, [configResolved], [configureServer] with
    listener 7, then the events. *)
Definition session (o : PluginConfig) (rc : ResolvedConfig) (evs : list Event) : World :=
  perform_all
    (CallFactory o :: CallConfigResolved 0
     :: CallConfigureServer {| httpServer := Some 7 |} :: map (Emit 7) evs)
    (boot tree rc).

Definition assets : list string := ["home"; "app"; "www"; "assets"].

(** The [devServer] value of the artifact at [place] and the origin of the
    configuration, when both are there. *)
Definition outcome (place : list string) (w : World) : option string * option string :=
  (Fs.read_file (fs w) place, heap w !! 0 ≫= server_origin).

(** The dev-server process with the info file option set to the empty
    string, which the factory keeps. *)
Definition stored_unnamed : PluginConfig := options (Some EmptyString) None None.

Definition dev_unnamed : World := started stored_unnamed (boot tree mockConfig).

(** A second configuration object of the process, for HTTPS. *)
Definition secureConfig : ResolvedConfig := mock true (HostString "example.com").

Definition dev_two_configs : World :=
  started (options None None None)
    {| fs := tree; cwd := "/home/app"; heap := <[ 1 := secureConfig ]> {[ 0 := mockConfig ]};
       resolvedConfig := None; pluginConfig := None; handlers := [] |}.

(** The place of the default info file in the sample project. *)
Definition info_file : list string :=
  ["home"; "app"; "www"; "assets"; ".vite"; "nette.json"].

(** A project with a [composer.lock], and what [JSON.parse] makes of
    its text. *)
Definition lock_text : string :=
  "{" +:+ Json.quote "packages" +:+ ": [{"
  +:+ Json.quote "name" +:+ ": " +:+ Json.quote "nette/utils" +:+ ", "
  +:+ Json.quote "version" +:+ ": " +:+ Json.quote "v4.0.5" +:+ "}, {"
  +:+ Json.quote "name" +:+ ": " +:+ Json.quote "nette/application" +:+ ", "
  +:+ Json.quote "version" +:+ ": " +:+ Json.quote "v3.2.6" +:+ "}]}".

Definition lock_packages : list Legacy.json :=
  [Legacy.JObject {[ "name" := Legacy.JString "nette/utils";
                     "version" := Legacy.JString "v4.0.5" ]};
   Legacy.JObject {[ "name" := Legacy.JString "nette/application";
                     "version" := Legacy.JString "v3.2.6" ]}].

Definition lock_properties : gmap string Legacy.json :=
  {[ "packages" := Legacy.JArray lock_packages ]}.

Definition parse_lock (text : string) : option Legacy.json :=
  if decide (text = lock_text) then Some (Legacy.JObject lock_properties) else None.

Definition tree_composer : Fs.node :=
  Fs.Dir {[ "home" :=
    Fs.Dir {[ "app" :=
      Fs.Dir {[ "composer.lock" := Fs.File lock_text;
                "www" := Fs.Dir {[ "assets" := Fs.Dir ∅ ]} ]} ]} ]}.

(** The directory of the installed module, with the page it serves. *)
Definition module_dir : string := "/home/app/node_modules/@nette/vite-plugin/dist/".

Definition tree_installed : Fs.node :=
  Fs.Dir {[ "home" :=
    Fs.Dir {[ "app" :=
      Fs.Dir {[ "node_modules" :=
        Fs.Dir {[ "@nette" :=
          Fs.Dir {[ "vite-plugin" :=
            Fs.Dir {[ "dist" :=
              Fs.Dir {[ "dev-server-index.html" := Fs.File "<h1>Vite</h1>" ]} ]} ]} ]} ]} ]} ]}.

(** [picocolors] with colours off: every formatter gives its text
    back. *)
Definition no_colour (text : string) : string := text.

Definition fresh : Legacy.Exchange :=
  {| Legacy.statusCode := 200; Legacy.ended := []; Legacy.nexts := 0 |}.

End Sample.

#[local] Open Scope list_scope.

(* ===================================================================== *)
(** * Facts about strings and paths *)
(* ===================================================================== *)

Module StrFacts.
Import Str.

Lemma append_nil (b : string) : EmptyString +:+ b = b.
Proof. reflexivity. Qed.

Lemma append_cons (c : ascii) (a b : string) : String c a +:+ b = String c (a +:+ b).
Proof. reflexivity. Qed.

Lemma append_assoc (a b c : string) : (a +:+ b) +:+ c = a +:+ (b +:+ c).
Proof.
  induction a as [|x a IH]; [reflexivity|].
  by rewrite !append_cons, IH.
Qed.

Lemma append_empty_r (a : string) : a +:+ EmptyString = a.
Proof.
  induction a as [|x a IH]; [reflexivity|].
  by rewrite append_cons, IH.
Qed.

Lemma split_slash_nonempty (s : string) : split_slash s <> [].
Proof.
  destruct s as [|c s]; simpl; [done|].
  destruct (is_slash c); [done|]. by destruct (split_slash s).
Qed.

(** Splitting distributes over a separator. *)
Lemma split_slash_app (x y : string) :
  split_slash (x +:+ "/" +:+ y) = split_slash x ++ split_slash y.
Proof.
  induction x as [|c x IH]; simpl; [reflexivity|].
  destruct (is_slash c); [by rewrite IH|].
  rewrite IH. destruct (split_slash x) eqn:E; [|reflexivity].
  by destruct (split_slash_nonempty x).
Qed.

Lemma split_slash_plain (s : string) :
  has_slash s = false -> split_slash s = [s].
Proof.
  induction s as [|c s IH]; simpl; [done|].
  destruct (is_slash c); simpl; [done|]. intros H. by rewrite IH.
Qed.

Lemma split_slash_no_slash (s : string) :
  Forall (fun seg => has_slash seg = false) (split_slash s).
Proof.
  induction s as [|c s IH]; simpl; [by repeat constructor|].
  destruct (is_slash c) eqn:Ec; [by constructor|].
  destruct (split_slash s) as [|h t]; [by repeat constructor; simpl; rewrite Ec|].
  inversion IH; subst. constructor; [|done]. simpl. by rewrite Ec.
Qed.

(** Joining segments that hold no separator, then splitting, gives the
    segments back. *)
Lemma split_slash_concat (seg : string) (segs : list string) :
  Forall (fun s => has_slash s = false) (seg :: segs) ->
  split_slash (String.concat "/" (seg :: segs)) = seg :: segs.
Proof.
  revert seg. induction segs as [|s segs IH]; intros seg H.
  - simpl. apply split_slash_plain. by inversion H.
  - change (String.concat "/" (seg :: s :: segs))
      with (seg +:+ "/" +:+ String.concat "/" (s :: segs)).
    inversion H; subst. rewrite split_slash_app, IH by done.
    by rewrite split_slash_plain.
Qed.

Lemma is_empty_true (s : string) : is_empty s = true <-> s = EmptyString.
Proof. by destruct s. Qed.

Lemma is_empty_false (s : string) : is_empty s = false <-> s <> EmptyString.
Proof. by destruct s. Qed.

Lemma list_ascii_of_append (a b : string) :
  String.list_ascii_of_string (a +:+ b)
  = String.list_ascii_of_string a ++ String.list_ascii_of_string b.
Proof. induction a as [|x a IH]; simpl; [reflexivity | by rewrite IH]. Qed.

Lemma drop_while_all (f : ascii -> bool) (l k : list ascii) :
  Forall (fun c => f c = true) l ->
  drop_while f (l ++ k) = drop_while f k.
Proof. induction 1 as [|c l Hc _ IH]; simpl; [reflexivity | by rewrite Hc]. Qed.

Lemma has_slash_chars (s : string) :
  has_slash s = false ->
  Forall (fun c => negb (is_slash c) = true) (String.list_ascii_of_string s).
Proof.
  induction s as [|c s IH]; simpl; [by constructor|].
  destruct (is_slash c) eqn:E; simpl; [done|]. intros H. constructor; [by rewrite E | auto].
Qed.

End StrFacts.

Module PathFacts.
Import Str Path StrFacts.

Lemma clean_step (a : bool) (stack : list string) (seg : string) :
  clean seg -> normalize_step a stack seg = seg :: stack.
Proof.
  intros (H1 & H2 & H3 & _). unfold normalize_step.
  by rewrite !decide_False by done.
Qed.

(** Segments that are already clean are all kept, in order. *)
Lemma fold_clean (a : bool) (segs stack : list string) :
  Forall clean segs ->
  fold_left (normalize_step a) segs stack = rev segs ++ stack.
Proof.
  intros H. revert stack. induction H as [|s segs Hs _ IH]; intros stack; simpl.
  - reflexivity.
  - rewrite clean_step by done. rewrite IH. by rewrite <- app_assoc.
Qed.

Lemma normalize_segments_clean (a : bool) (segs : list string) :
  Forall clean segs -> normalize_segments a segs = segs.
Proof.
  intros H. unfold normalize_segments. rewrite fold_clean by done.
  by rewrite app_nil_r, rev_involutive.
Qed.

(** Below the root, normalisation leaves clean segments only. *)
Lemma step_keeps_clean (stack : list string) (seg : string) :
  has_slash seg = false -> Forall clean stack ->
  Forall clean (normalize_step false stack seg).
Proof.
  intros Hs Hst. unfold normalize_step.
  destruct (decide (seg = EmptyString)); [done|].
  destruct (decide (seg = ".")); [done|].
  destruct (decide (seg = "..")).
  - destruct stack as [|top rest]; [done|].
    destruct (decide (top = "..")); [done|]. by inversion Hst.
  - constructor; [|done]. by repeat split.
Qed.

Lemma fold_keeps_clean (segs stack : list string) :
  Forall (fun s => has_slash s = false) segs -> Forall clean stack ->
  Forall clean (fold_left (normalize_step false) segs stack).
Proof.
  intros H. revert stack. induction H as [|s segs Hs _ IH]; intros stack Hst; simpl.
  - done.
  - apply IH. by apply step_keeps_clean.
Qed.

Lemma normalize_segments_are_clean (segs : list string) :
  Forall (fun s => has_slash s = false) segs ->
  Forall clean (normalize_segments false segs).
Proof.
  intros H. unfold normalize_segments. apply Forall_rev.
  by apply fold_keeps_clean.
Qed.

Lemma clean_no_slash (segs : list string) :
  Forall clean segs -> Forall (fun s => has_slash s = false) segs.
Proof. intros H. eapply Forall_impl; [exact H|]. by intros s (_ & _ & _ & Hs). Qed.

(** The segments of a rendered path. *)
Lemma split_slash_render (segs : list string) :
  split_slash (render segs +:+ "/" +:+ EmptyString)
  = EmptyString :: split_slash (String.concat "/" segs) ++ [EmptyString].
Proof.
  rewrite split_slash_app. unfold render.
  change ("/" +:+ String.concat "/" segs)
    with (EmptyString +:+ "/" +:+ String.concat "/" segs).
  rewrite split_slash_app. reflexivity.
Qed.

Lemma fold_render (segs : list string) :
  Forall clean segs ->
  fold_left (normalize_step false) (split_slash (render segs +:+ "/" +:+ EmptyString)) []
  = rev segs.
Proof.
  intros H. rewrite split_slash_render.
  destruct segs as [|s segs]; [reflexivity|].
  rewrite split_slash_concat by by apply clean_no_slash.
  change (EmptyString :: (s :: segs) ++ [EmptyString])
    with ([EmptyString] ++ (s :: segs) ++ [EmptyString]).
  rewrite !fold_left_app. simpl fold_left at 3.
  change (normalize_step false [] EmptyString) with (@nil string).
  rewrite (fold_clean false (s :: segs)) by done. rewrite app_nil_r. reflexivity.
Qed.

(** ** [path.resolve] *)

Lemma starts_with_slash_nonempty (p : string) :
  starts_with_slash p = true -> is_empty p = false.
Proof. by destruct p. Qed.

(** What the loop has prepended does not depend on what was there. *)
Lemma resolve_loop_acc (l : list string) (acc : string) :
  resolve_loop l acc
  = ((resolve_loop l EmptyString).1 +:+ acc, (resolve_loop l EmptyString).2).
Proof.
  revert acc. induction l as [|p l IH]; intros acc; [reflexivity|].
  simpl. destruct (is_empty p); [apply IH|].
  destruct (starts_with_slash p).
  - simpl. by rewrite !append_assoc.
  - rewrite IH. rewrite (IH (p +:+ "/" +:+ EmptyString)). simpl.
    by rewrite !append_assoc.
Qed.

(** With a rooted working directory every resolution is rooted. *)
Lemma resolve_loop_rooted (l : list string) (cwd acc : string) :
  starts_with_slash cwd = true ->
  (resolve_loop (l ++ [cwd]) acc).2 = true.
Proof.
  intros H. revert acc. induction l as [|p l IH]; intros acc; simpl.
  - by rewrite (starts_with_slash_nonempty _ H), H.
  - destruct (is_empty p); [apply IH|].
    destruct (starts_with_slash p); [reflexivity | apply IH].
Qed.

Lemma resolve_segments_rooted (cwd : string) (args : list string) :
  starts_with_slash cwd = true ->
  (resolve_segments cwd args).1 = true /\ Forall clean (resolve_segments cwd args).2.
Proof.
  intros H. unfold resolve_segments.
  pose proof (resolve_loop_rooted (rev args) cwd EmptyString H) as Hr.
  destruct (resolve_loop (rev args ++ [cwd]) EmptyString) as [rp b].
  simpl in Hr. subst b. simpl. split; [reflexivity|].
  apply normalize_segments_are_clean, split_slash_no_slash.
Qed.

(** [path.resolve] returns the text of a rooted, normalised path. *)
Lemma resolve_render (cwd : string) (args : list string) :
  starts_with_slash cwd = true ->
  resolve cwd args = render (resolve_segments cwd args).2.
Proof.
  intros H. unfold resolve.
  destruct (resolve_segments_rooted cwd args H) as [Hb _].
  destruct (resolve_segments cwd args) as [b segs]. simpl in *. by subst b.
Qed.

(** A rooted last argument decides the result alone. *)
Lemma resolve_segments_absolute (cwd e : string) (args : list string) :
  starts_with_slash e = true ->
  resolve_segments cwd (args ++ [e])
  = (true, normalize_segments false (split_slash (e +:+ "/" +:+ EmptyString))).
Proof.
  intros H. unfold resolve_segments. rewrite rev_app_distr. simpl.
  by rewrite (starts_with_slash_nonempty _ H), H.
Qed.

Lemma starts_with_slash_render (segs : list string) :
  starts_with_slash (render segs) = true.
Proof. reflexivity. Qed.

(** The text of a normalised rooted path resolves to itself. *)
Lemma resolve_segments_render (cwd : string) (args segs : list string) :
  Forall clean segs ->
  resolve_segments cwd (args ++ [render segs]) = (true, segs).
Proof.
  intros H. rewrite resolve_segments_absolute by apply starts_with_slash_render.
  unfold normalize_segments. rewrite fold_render by done.
  by rewrite rev_involutive.
Qed.

Lemma resolve_of_render (cwd : string) (args segs : list string) :
  Forall clean segs ->
  resolve cwd (args ++ [render segs]) = render segs.
Proof.
  intros H. unfold resolve. by rewrite resolve_segments_render.
Qed.

(** ** [path.dirname] *)

Lemma concat_snoc (s0 s : string) (segs : list string) :
  String.concat "/" ((s0 :: segs) ++ [s])
  = String.concat "/" (s0 :: segs) +:+ "/" +:+ s.
Proof.
  revert s0. induction segs as [|s1 segs IH]; intros s0; [reflexivity|].
  change (String.concat "/" ((s0 :: s1 :: segs) ++ [s]))
    with (s0 +:+ "/" +:+ String.concat "/" ((s1 :: segs) ++ [s])).
  rewrite IH.
  change (String.concat "/" (s0 :: s1 :: segs))
    with (s0 +:+ "/" +:+ String.concat "/" (s1 :: segs)).
  by rewrite !append_assoc.
Qed.

Lemma clean_chars (s : string) :
  clean s ->
  exists c l,
    rev (String.list_ascii_of_string s) = c :: l
    /\ is_slash c = false
    /\ Forall (fun x => negb (is_slash x) = true) (c :: l).
Proof.
  intros (Hne & _ & _ & Hs).
  pose proof (has_slash_chars s Hs) as Hall. apply Forall_rev in Hall.
  destruct (rev (String.list_ascii_of_string s)) as [|c l] eqn:E.
  - destruct s as [|x s]; [done|]. simpl in E.
    by destruct (rev (String.list_ascii_of_string s)).
  - exists c, l. split; [reflexivity|]. split; [|done].
    inversion Hall; subst. by destruct (is_slash c).
Qed.

Lemma concat_nonempty (s0 : string) (segs : list string) :
  clean s0 -> String.concat "/" (s0 :: segs) <> EmptyString.
Proof.
  intros (Hne & _). destruct s0 as [|c s0]; [done|].
  by destruct segs.
Qed.

Lemma rev_chars_nonempty (s : string) :
  s <> EmptyString -> rev (String.list_ascii_of_string s) <> [].
Proof.
  destruct s as [|c s]; [done|]. intros _. simpl.
  by destruct (rev (String.list_ascii_of_string s)).
Qed.

(** The parent of a normalised rooted path. *)
Lemma dirname_render (segs : list string) (s : string) :
  Forall clean segs -> clean s ->
  dirname (render (segs ++ [s])) = render segs.
Proof.
  intros Hsegs Hs. destruct (clean_chars s Hs) as (c & l & Hrev & Hc & Hall).
  unfold dirname, render.
  destruct segs as [|s0 segs].
  - change ("/" +:+ String.concat "/" ([] ++ [s])) with (String "/" s).
    cbn [String.list_ascii_of_string]. rewrite Hrev.
    cbn [drop_while]. rewrite Hc.
    rewrite <- (app_nil_r (c :: l)), drop_while_all by done.
    reflexivity.
  - rewrite concat_snoc.
    change ("/" +:+ (String.concat "/" (s0 :: segs) +:+ "/" +:+ s))
      with (String "/" (String.concat "/" (s0 :: segs) +:+ "/" +:+ s)).
    cbn [String.list_ascii_of_string].
    rewrite !list_ascii_of_append. cbn [String.list_ascii_of_string].
    rewrite rev_app_distr. cbn [rev]. rewrite rev_app_distr, Hrev.
    cbn [rev app]. rewrite <- !app_assoc. cbn [app drop_while]. rewrite Hc.
    change (c :: l ++ ?k) with ((c :: l) ++ k).
    rewrite drop_while_all by done.
    cbn [drop_while]. change (negb (is_slash "/")) with false. cbv iota.
    inversion Hsegs; subst.
    pose proof (rev_chars_nonempty _ (concat_nonempty s0 segs ltac:(done))) as Hne.
    destruct (rev (String.list_ascii_of_string (String.concat "/" (s0 :: segs)))) as [|x r] eqn:E;
      [done|].
    rewrite bool_decide_false by done. rewrite andb_false_r.
    rewrite <- E, rev_involutive.
    change (String.string_of_list_ascii ("/"%char :: ?k))
      with (String "/" (String.string_of_list_ascii k)).
    by rewrite String.string_of_list_ascii_of_string.
Qed.

(** An empty last segment does not count. *)
Lemma normalize_segments_trailing (a : bool) (segs : list string) :
  normalize_segments a (segs ++ [EmptyString]) = normalize_segments a segs.
Proof. unfold normalize_segments. by rewrite fold_left_app. Qed.

(** A rooted last argument resolves to its own normal form. *)
Lemma resolve_absolute (cwd e : string) (args : list string) :
  starts_with_slash e = true ->
  resolve cwd (args ++ [e]) = render (normalize_segments false (split_slash e)).
Proof.
  intros H. unfold resolve. rewrite resolve_segments_absolute by done.
  by rewrite split_slash_app, normalize_segments_trailing.
Qed.

(** ** Resolving against a directory *)

Lemma split_slash_rooted (x : string) :
  split_slash ("/" +:+ x) = EmptyString :: split_slash x.
Proof. reflexivity. Qed.

Lemma fold_split_render (segs : list string) :
  Forall clean segs ->
  fold_left (normalize_step false) (split_slash (render segs)) [] = rev segs.
Proof.
  intros H. unfold render. rewrite split_slash_rooted.
  destruct segs as [|s segs]; [reflexivity|].
  rewrite split_slash_concat by by apply clean_no_slash.
  change (EmptyString :: s :: segs) with ([EmptyString] ++ (s :: segs)).
  rewrite fold_left_app. simpl fold_left at 2.
  change (normalize_step false [] EmptyString) with (@nil string).
  rewrite fold_clean by done. by rewrite app_nil_r.
Qed.

(** What the loop builds ends with a separator. *)
Lemma resolve_loop_trailing (l : list string) (x : string) :
  resolve_loop l EmptyString = (x, true) ->
  exists x', x = x' +:+ "/" +:+ EmptyString.
Proof.
  revert x. induction l as [|p l IH]; intros x H; [done|].
  simpl in H. destruct (is_empty p); [by apply IH|].
  destruct (starts_with_slash p).
  - inversion H; subst. eauto.
  - rewrite resolve_loop_acc in H. inversion H; subst.
    exists ((resolve_loop l EmptyString).1 +:+ p). by rewrite append_assoc.
Qed.

(** Resolving a relative path against the arguments before it is
    resolving it against what they resolve to. *)
Lemma resolve_relative (cwd e : string) (args : list string) :
  starts_with_slash cwd = true -> starts_with_slash e = false ->
  resolve cwd (args ++ [e]) = resolve cwd [resolve cwd args; e].
Proof.
  intros Hcwd He.
  assert (Hargs := resolve_render cwd args Hcwd).
  destruct (resolve_segments_rooted cwd args Hcwd) as [Hflag Hclean].
  set (S := (resolve_segments cwd args).2) in *.
  rewrite Hargs. unfold resolve at 1 2.
  assert (Heq : resolve_segments cwd (args ++ [e]) = resolve_segments cwd [render S; e]);
    [|by rewrite Heq].
  unfold resolve_segments. rewrite rev_app_distr.
  cbn [rev app resolve_loop]. rewrite He.
  change (is_empty (render S)) with false. cbv iota.
  change (starts_with_slash (render S)) with true. cbv iota.
  destruct (is_empty e) eqn:Ee.
  - (* the empty argument is skipped *)
    change (rev args ++ [cwd]) with (rev args ++ [cwd]).
    fold (resolve_segments cwd args).
    rewrite (surjective_pairing (resolve_segments cwd args)), Hflag.
    fold S. f_equal. unfold normalize_segments.
    rewrite fold_render by done. by rewrite rev_involutive.
  - rewrite resolve_loop_acc.
    pose proof (resolve_loop_rooted (rev args) cwd EmptyString Hcwd) as Hr.
    destruct (resolve_loop (rev args ++ [cwd]) EmptyString) as [x b] eqn:Hloop.
    simpl in Hr. subst b. cbn [fst snd].
    destruct (resolve_loop_trailing _ _ Hloop) as [x' ->].
    assert (HS : fold_left (normalize_step false) (split_slash x') [] = rev S).
    { subst S. unfold resolve_segments. rewrite Hloop. cbn [snd negb].
      unfold normalize_segments. rewrite rev_involutive.
      rewrite split_slash_app, fold_left_app. reflexivity. }
    f_equal. unfold normalize_segments. f_equal.
    change (negb true) with false.
    rewrite !append_assoc, !append_nil. rewrite !split_slash_app.
    rewrite !fold_left_app. rewrite HS.
    rewrite fold_split_render by done. reflexivity.
Qed.

(** ** [path.join] *)

Lemma ends_with_slash_append (a s : string) :
  s <> EmptyString -> ends_with_slash (a +:+ s) = ends_with_slash s.
Proof.
  intros Hs. induction a as [|c a IH]; [reflexivity|].
  rewrite append_cons. simpl. rewrite IH.
  destruct (a +:+ s) eqn:E; [|reflexivity].
  destruct a; [by rewrite append_nil in E | done].
Qed.

Lemma ends_with_slash_plain (s : string) :
  has_slash s = false -> ends_with_slash s = false.
Proof.
  induction s as [|c s IH]; [done|]. simpl.
  destruct (is_slash c) eqn:E; [done|]. simpl. intros H.
  destruct s; [done | by apply IH].
Qed.

(** Joining one more segment to a normalised rooted path. *)
Lemma join_render (segs : list string) (s : string) :
  Forall clean segs -> clean s ->
  join [render segs; s] = render (segs ++ [s]).
Proof.
  intros Hsegs Hs. pose proof Hs as (Hne & _ & _ & Hplain).
  assert (Hall : Forall clean (segs ++ [s])).
  { apply Forall_app. split; [done|]. by apply Forall_singleton. }
  unfold join. rewrite filter_cons_True by reflexivity.
  rewrite filter_cons_True by by apply is_empty_false.
  rewrite filter_nil.
  change (String.concat "/" [render segs; s]) with (render segs +:+ "/" +:+ s).
  unfold normalize.
  change (is_empty (render segs +:+ "/" +:+ s)) with false. cbv iota.
  change (starts_with_slash (render segs +:+ "/" +:+ s)) with true. cbv iota zeta.
  replace (ends_with_slash (render segs +:+ "/" +:+ s)) with false.
  2:{ rewrite <- append_assoc, ends_with_slash_append by done.
      by rewrite ends_with_slash_plain. }
  assert (Hn : normalizeString (render segs +:+ "/" +:+ s) (negb true)
               = String.concat "/" (segs ++ [s])).
  { unfold normalizeString, normalize_segments. f_equal.
    rewrite split_slash_app, fold_left_app, fold_split_render by done.
    rewrite split_slash_plain by done. simpl fold_left.
    rewrite clean_step by done.
    change (s :: rev segs) with (rev [s] ++ rev segs).
    by rewrite <- rev_app_distr, rev_involutive. }
  rewrite Hn.
  destruct (is_empty (String.concat "/" (segs ++ [s]))) eqn:E; [|reflexivity].
  apply is_empty_true in E. exfalso.
  destruct segs as [|s0 segs].
  - by simpl in E.
  - inversion Hsegs; subst. by eapply (concat_nonempty s0 (segs ++ [s])).
Qed.

(** ** The examples of Node's documentation *)

Example resolve_doc_1 : resolve "/home/myself/node" ["/foo/bar"; "./baz"] = "/foo/bar/baz".
Proof. vm_compute. reflexivity. Qed.

Example resolve_doc_2 : resolve "/home/myself/node" ["/foo/bar"; "/tmp/file/"] = "/tmp/file".
Proof. vm_compute. reflexivity. Qed.

Example resolve_doc_3 :
  resolve "/home/myself/node" ["wwwroot"; "static_files/png/"; "../gif/image.gif"]
  = "/home/myself/node/wwwroot/static_files/gif/image.gif".
Proof. vm_compute. reflexivity. Qed.

Example resolve_above_root : resolve "/a" ["../../b"] = "/b".
Proof. vm_compute. reflexivity. Qed.

Example resolve_nothing : resolve "/home/app" [] = "/home/app".
Proof. vm_compute. reflexivity. Qed.

Example join_doc_1 : join ["/foo"; "bar"; "baz/asdf"; "quux"; ".."] = "/foo/bar/baz/asdf".
Proof. vm_compute. reflexivity. Qed.

Example join_relative : join ["a"; ".."; ".."; "b"] = "../b".
Proof. vm_compute. reflexivity. Qed.

Example join_root : join ["/"; "www"] = "/www".
Proof. vm_compute. reflexivity. Qed.

Example normalize_doc_1 : normalize "/foo/bar//baz/asdf/quux/.." = "/foo/bar/baz/asdf".
Proof. vm_compute. reflexivity. Qed.

Example normalize_trailing : normalize "a/b/" = "a/b/".
Proof. vm_compute. reflexivity. Qed.

Example dirname_doc_1 : dirname "/foo/bar/baz/asdf/quux" = "/foo/bar/baz/asdf".
Proof. vm_compute. reflexivity. Qed.

Example dirname_top : dirname "/a" = "/".
Proof. vm_compute. reflexivity. Qed.

Example dirname_trailing : dirname "a/b//" = "a".
Proof. vm_compute. reflexivity. Qed.

Example dirname_plain : dirname "file.txt" = ".".
Proof. vm_compute. reflexivity. Qed.

End PathFacts.

(* ===================================================================== *)
(** * Facts about the file system *)
(* ===================================================================== *)

Module FsFacts.
Import Fs.

Implicit Types (n c : node) (es : gmap string node) (p q : list string) (s t : string).

(** ** Unfolding one step below a directory *)

Lemma writable_cons es t q :
  q <> [] ->
  writable (Dir es) (t :: q)
  = match es !! t with None => true | Some c => writable c q end.
Proof. intros H. simpl. destruct (es !! t); [|done]. by destruct q. Qed.

Lemma write_file_cons es t q data :
  q <> [] ->
  write_file (Dir es) (t :: q) data
  = match es !! t with
    | None => inl ENOENT
    | Some c =>
        match write_file c q data with
        | inl e => inl e
        | inr c' => inr (Dir (<[t := c']> es))
        end
    end.
Proof. intros H. by destruct q. Qed.

Lemma rm_force_cons es t q :
  q <> [] ->
  rm_force (Dir es) (t :: q)
  = match es !! t with
    | None => inr (Dir es)
    | Some c =>
        match rm_force c q with
        | inl e => inl e
        | inr c' => inr (Dir (<[t := c']> es))
        end
    end.
Proof. intros H. simpl. destruct (es !! t); [|done]. by destruct q. Qed.

Lemma snoc_nonempty p s : p ++ [s] <> [].
Proof. by destruct p. Qed.

Lemma writable_dir n p : writable n p = true -> exists es, n = Dir es.
Proof. destruct p; [done|]. destruct n; [done|]. eauto. Qed.

Lemma writable_empty_dir p : p <> [] -> writable empty_dir p = true.
Proof. destruct p; [done|]. intros _. simpl. by rewrite lookup_empty. Qed.

(** ** Walking *)

(** Whatever lies above an entry that can be reached is a directory. *)
Lemma lookup_prefix_dir n p q x :
  q <> [] -> lookup n (p ++ q) = inr x -> exists es, lookup n p = inr (Dir es).
Proof.
  intros Hq. revert n. induction p as [|t p IH]; intros n H.
  - destruct q; [done|]. destruct n; [done|]. simpl. eauto.
  - simpl in *. destruct n; [done|]. destruct (entries !! t); [|done]. by apply IH.
Qed.

(** A writable target is a regular file or is missing. *)
Lemma writable_lookup n p :
  writable n p = true ->
  (exists d, lookup n p = inr (File d)) \/ lookup n p = inl ENOENT.
Proof.
  revert n. induction p as [|t p IH]; intros n H; [done|].
  destruct (writable_dir _ _ H) as [es ->]. simpl in *.
  destruct (es !! t) as [c|]; [|by right].
  destruct p as [|t' p].
  - destruct c; [left; eauto | done].
  - by apply IH.
Qed.

Lemma writable_exists_parent n p s :
  writable n (p ++ [s]) = true -> exists_at n p = true ->
  exists es, lookup n p = inr (Dir es).
Proof.
  revert n. induction p as [|t p IH]; intros n H Hex.
  - destruct (writable_dir _ _ H) as [es ->]. simpl. eauto.
  - destruct (writable_dir _ _ H) as [es ->].
    change ((t :: p) ++ [s]) with (t :: (p ++ [s])) in H.
    rewrite writable_cons in H by apply snoc_nonempty.
    unfold exists_at in *. simpl in *.
    destruct (es !! t) as [c|]; [|done]. by apply IH.
Qed.

(** ** [mkdir_p] *)

(** Making a directory that is there changes nothing and does not fail. *)
Lemma mkdir_p_existing n p es :
  lookup n p = inr (Dir es) -> mkdir_p n p = inr n.
Proof.
  revert n. induction p as [|t p IH]; intros n H; simpl in *.
  - by destruct n.
  - destruct n as [|es']; [done|].
    destruct (es' !! t) as [c|] eqn:E; [|done]. simpl.
    rewrite (IH c H). by rewrite insert_id.
Qed.

(** After [mkdir_p] the directory is there. *)
Lemma mkdir_p_lookup n p n' :
  mkdir_p n p = inr n' -> exists es, lookup n' p = inr (Dir es).
Proof.
  revert n n'. induction p as [|t p IH]; intros n n' H; simpl in *.
  - destruct n; [done|]. inversion H; subst. eauto.
  - destruct n as [|es]; [done|].
    destruct (mkdir_p (default empty_dir (es !! t)) p) as [e|c] eqn:E; [done|].
    inversion H; subst. rewrite lookup_insert_eq. by eapply IH.
Qed.

(** Where the target is writable, its parent can be made, and the
    target stays writable. *)
Lemma mkdir_p_writable n p s :
  writable n (p ++ [s]) = true ->
  exists n', mkdir_p n p = inr n' /\ writable n' (p ++ [s]) = true.
Proof.
  revert n. induction p as [|t p IH]; intros n H.
  - destruct (writable_dir _ _ H) as [es ->]. simpl in *. eauto.
  - destruct (writable_dir _ _ H) as [es ->].
    change ((t :: p) ++ [s]) with (t :: (p ++ [s])) in *.
    rewrite writable_cons in H by apply snoc_nonempty.
    assert (Hc : writable (default empty_dir (es !! t)) (p ++ [s]) = true).
    { destruct (es !! t); [done|]. apply writable_empty_dir, snoc_nonempty. }
    destruct (IH _ Hc) as (c' & Hmk & Hw).
    exists (Dir (<[t := c']> es)). simpl mkdir_p. rewrite Hmk. split; [done|].
    rewrite writable_cons by apply snoc_nonempty. by rewrite lookup_insert_eq.
Qed.

(** ** [write_file] *)

(** With the parent in place, a writable target is written, holds the
    data afterwards, and stays writable. *)
Lemma write_file_writable n p s es data :
  writable n (p ++ [s]) = true -> lookup n p = inr (Dir es) ->
  exists n',
    write_file n (p ++ [s]) data = inr n'
    /\ lookup n' (p ++ [s]) = inr (File data)
    /\ writable n' (p ++ [s]) = true.
Proof.
  revert n. induction p as [|t p IH]; intros n H Hp.
  - simpl in Hp. inversion Hp; subst. simpl in *.
    destruct (es !! s) as [c|] eqn:E.
    + destruct c; [|done].
      eexists. split; [reflexivity|]. simpl. by rewrite lookup_insert_eq.
    + eexists. split; [reflexivity|]. simpl. by rewrite lookup_insert_eq.
  - destruct (writable_dir _ _ H) as [es' ->].
    change ((t :: p) ++ [s]) with (t :: (p ++ [s])) in *.
    rewrite writable_cons in H by apply snoc_nonempty.
    rewrite write_file_cons by apply snoc_nonempty.
    simpl in Hp. destruct (es' !! t) as [c|] eqn:E; [|done].
    destruct (IH c H Hp) as (c' & Hwr & Hlk & Hw). rewrite Hwr.
    eexists. split; [reflexivity|]. split.
    + simpl. by rewrite lookup_insert_eq.
    + rewrite writable_cons by apply snoc_nonempty. by rewrite lookup_insert_eq.
Qed.

(** Writing needs the parent: it is never made on the way. *)
Lemma write_file_needs_parent n p s data n' :
  write_file n (p ++ [s]) data = inr n' -> exists es, lookup n p = inr (Dir es).
Proof.
  revert n n'. induction p as [|t p IH]; intros n n' H.
  - simpl in *. destruct n; [done|]. eauto.
  - change ((t :: p) ++ [s]) with (t :: (p ++ [s])) in *.
    destruct n as [|es]; [done|].
    rewrite write_file_cons in H by apply snoc_nonempty. simpl.
    destruct (es !! t) as [c|]; [|done].
    destruct (write_file c (p ++ [s]) data) eqn:E; [done|]. by eapply IH.
Qed.

(** Where the target is not writable, making the parent (when it is
    not there) or writing the file fails. *)
Lemma not_writable_fails n p s data :
  writable n (p ++ [s]) = false ->
  (exists_at n p = true -> exists e, write_file n (p ++ [s]) data = inl e)
  /\ (exists_at n p = false ->
      (exists e, mkdir_p n p = inl e)
      \/ exists n1 e, mkdir_p n p = inr n1 /\ write_file n1 (p ++ [s]) data = inl e).
Proof.
  revert n. induction p as [|t p IH]; intros n H.
  - split; [|done]. intros _. simpl in *.
    destruct n as [|es]; [eauto|].
    destruct (es !! s) as [[|]|]; try done. eauto.
  - change ((t :: p) ++ [s]) with (t :: (p ++ [s])) in *.
    destruct n as [|es].
    + split; [done|]. intros _. left. simpl. eauto.
    + rewrite writable_cons in H by apply snoc_nonempty.
      rewrite write_file_cons by apply snoc_nonempty.
      unfold exists_at in *. simpl lookup. simpl mkdir_p.
      destruct (es !! t) as [c|] eqn:E; [|done]. simpl default.
      destruct (IH c H) as [IH1 IH2]. split.
      * intros Hex. destruct (IH1 Hex) as [e ->]. eauto.
      * intros Hex. destruct (IH2 Hex) as [[e ->]|(c1 & e & -> & Hwr)]; [eauto|].
        right. eexists _, e. split; [reflexivity|].
        rewrite write_file_cons by apply snoc_nonempty.
        by rewrite lookup_insert_eq, Hwr.
Qed.

(** ** [rm_force] *)

(** Removing what is not there changes nothing and does not fail. *)
Lemma rm_force_missing n p :
  lookup n p = inl ENOENT -> rm_force n p = inr n.
Proof.
  revert n. induction p as [|t p IH]; intros n H; [done|].
  destruct n as [|es]; [done|]. simpl in *.
  destruct (es !! t) as [c|] eqn:E; [|done].
  destruct p as [|t' p]; [done|].
  rewrite (IH c H). by rewrite insert_id.
Qed.

(** Removing a regular file leaves nothing at its place, and the place
    stays writable. *)
Lemma rm_force_file n p data :
  lookup n p = inr (File data) -> writable n p = true ->
  exists n',
    rm_force n p = inr n'
    /\ lookup n' p = inl ENOENT
    /\ writable n' p = true.
Proof.
  revert n. induction p as [|t p IH]; intros n H Hw; [done|].
  destruct (writable_dir _ _ Hw) as [es ->].
  destruct p as [|t' p].
  - simpl in *. destruct (es !! t) as [c|] eqn:E; [|done].
    inversion H; subst. eexists. split; [reflexivity|].
    simpl. by rewrite lookup_delete_eq.
  - rewrite writable_cons in Hw by done. rewrite rm_force_cons by done.
    simpl in H. destruct (es !! t) as [c|] eqn:E; [|done].
    destruct (IH c H Hw) as (c' & Hrm & Hlk & Hw'). rewrite Hrm.
    eexists. split; [reflexivity|]. split.
    + simpl. by rewrite lookup_insert_eq.
    + rewrite writable_cons by done. by rewrite lookup_insert_eq.
Qed.

(** On a writable place [rm_force] never fails and leaves nothing. *)
Lemma rm_force_writable n p :
  writable n p = true ->
  exists n',
    rm_force n p = inr n'
    /\ exists_at n' p = false
    /\ writable n' p = true
    /\ (exists_at n p = false -> n' = n).
Proof.
  intros Hw. destruct (writable_lookup _ _ Hw) as [[d Hd]|Hno].
  - destruct (rm_force_file _ _ _ Hd Hw) as (n' & Hrm & Hlk & Hw').
    exists n'. unfold exists_at. rewrite Hlk, Hd. by repeat split.
  - exists n. rewrite (rm_force_missing _ _ Hno). unfold exists_at. rewrite Hno.
    by repeat split.
Qed.

End FsFacts.

(* ===================================================================== *)
(** * Facts about the plugin *)
(* ===================================================================== *)

Module PluginFacts.
Import Str Data Monad Plugin StrFacts PathFacts FsFacts.

(** ** Running computations *)

Lemma bind_ok {A B} (m : M A) (k : A -> M B) (w w' : World) (a : A) :
  m w = (inr a, w') -> bind m k w = k a w'.
Proof. intros H. unfold bind. by rewrite H. Qed.

Lemma bind_throw {A B} (m : M A) (k : A -> M B) (w w' : World) (e : Exn) :
  m w = (inl e, w') -> bind m k w = (inl e, w').
Proof. intros H. unfold bind. by rewrite H. Qed.

Lemma the_resolvedConfig_ok (w : World) (r : nat) (rc : ResolvedConfig) :
  resolvedConfig w = Some r -> heap w !! r = Some rc ->
  the_resolvedConfig w = (inr rc, w).
Proof.
  intros Hr Hh. unfold the_resolvedConfig, bind, gets, defined. simpl.
  rewrite Hr. simpl. by rewrite Hh.
Qed.

Lemma the_pluginConfig_ok (w : World) (pc : PluginConfig) :
  pluginConfig w = Some pc -> the_pluginConfig w = (inr pc, w).
Proof. intros H. unfold the_pluginConfig, bind, gets, defined. simpl. by rewrite H. Qed.

Lemma set_fs_same (w : World) : set_fs (fs w) w = w.
Proof. by destruct w. Qed.

(** ** Paths of the file system *)

Lemma fs_path_render (w : World) (segs : list string) :
  Forall Path.clean segs -> fs_path w (Path.render segs) = segs.
Proof.
  intros H. unfold fs_path.
  change [Path.render segs] with ([] ++ [Path.render segs]).
  by rewrite (resolve_segments_render (cwd w) [] segs H).
Qed.

(** ** [writeJson] *)

(** On a writable place [writeJson] succeeds: the file holds the JSON
    text afterwards and only the file system has changed. *)
Lemma writeJson_ok (w : World) (segs : list string) (data : list (string * string)) :
  Forall Path.clean segs -> Fs.writable (fs w) segs = true ->
  exists n',
    writeJson (Path.render segs) data w = (inr tt, set_fs n' w)
    /\ Fs.lookup n' segs = inr (Fs.File (Json.stringify_object Json.tab data))
    /\ Fs.writable n' segs = true.
Proof.
  intros Hclean Hw.
  induction segs as [|s p _] using rev_ind; [by simpl in Hw|].
  pose proof Hclean as Hall.
  apply Forall_app in Hclean as [Hp Hs]. rewrite Forall_singleton in Hs.
  unfold writeJson. rewrite dirname_render by done.
  unfold bind at 1. unfold existsSync at 1. rewrite (fs_path_render w p Hp).
  destruct (Fs.exists_at (fs w) p) eqn:Hex; simpl negb; cbv iota.
  - destruct (writable_exists_parent _ _ _ Hw Hex) as [es Hdir].
    destruct (write_file_writable _ _ _ _ (Json.stringify_object Json.tab data) Hw Hdir)
      as (n' & Hwr & Hlk & Hw').
    exists n'. split; [|done].
    unfold bind, ret, writeFileSync, fs_call.
    rewrite (fs_path_render w _ Hall). by rewrite Hwr.
  - destruct (mkdir_p_writable _ _ _ Hw) as (n1 & Hmk & Hw1).
    destruct (mkdir_p_lookup _ _ _ Hmk) as [es Hdir].
    destruct (write_file_writable _ _ _ _ (Json.stringify_object Json.tab data) Hw1 Hdir)
      as (n' & Hwr & Hlk & Hw').
    exists n'. split; [|done].
    unfold bind, mkdirSync_recursive, writeFileSync, fs_call.
    rewrite (fs_path_render w p Hp), Hmk.
    rewrite (fs_path_render (set_fs n1 w) _ Hall). simpl fs. by rewrite Hwr.
Qed.

(** Elsewhere [writeJson] throws: the condition of [writeJson_ok] is
    the weakest one. *)
Lemma writeJson_throws (w : World) (segs : list string) (data : list (string * string)) :
  Forall Path.clean segs -> Fs.writable (fs w) segs = false ->
  exists e w', writeJson (Path.render segs) data w = (inl (FsError e), w').
Proof.
  intros Hclean Hw.
  induction segs as [|s p _] using rev_ind.
  - exists Fs.EISDIR, w. reflexivity.
  - pose proof Hclean as Hall.
    apply Forall_app in Hclean as [Hp Hs]. rewrite Forall_singleton in Hs.
    destruct (not_writable_fails _ _ _ (Json.stringify_object Json.tab data) Hw)
      as [Hthere Hmissing].
    unfold writeJson. rewrite dirname_render by done.
    unfold bind at 1. unfold existsSync at 1. rewrite (fs_path_render w p Hp).
    destruct (Fs.exists_at (fs w) p) eqn:Hex; simpl negb; cbv iota.
    + destruct (Hthere eq_refl) as [e He]. exists e, w.
      unfold bind, ret, writeFileSync, fs_call.
      rewrite (fs_path_render w _ Hall). by rewrite He.
    + destruct (Hmissing eq_refl) as [[e He]|(n1 & e & Hmk & He)].
      * exists e, w. unfold bind, mkdirSync_recursive, fs_call.
        by rewrite (fs_path_render w p Hp), He.
      * exists e, (set_fs n1 w).
        unfold bind, mkdirSync_recursive, writeFileSync, fs_call.
        rewrite (fs_path_render w p Hp), Hmk.
        rewrite (fs_path_render (set_fs n1 w) _ Hall). simpl fs. by rewrite He.
Qed.

(** ** The advertised host and the URL *)

(** The host the code arrives at is the one the specification words. *)
Lemma host_refines (h : option string) (sh : HostValue) :
  (let host := js_or (js_or (of_optional h) sh) (HostString "localhost") in
   if bool_decide (host = HostBool true) || bool_decide (host = HostString "0.0.0.0")
   then HostString "localhost" else host)
  = HostString (Spec.advertised_host h sh).
Proof.
  assert (Hs : forall s : string,
    (if bool_decide (HostString s = HostBool true)
        || bool_decide (HostString s = HostString "0.0.0.0")
     then HostString "localhost" else HostString s)
    = HostString (if bool_decide (s = "0.0.0.0") then "localhost" else s)).
  { intros s. rewrite (bool_decide_ext _ False) by naive_solver.
    rewrite (bool_decide_ext (HostString s = HostString "0.0.0.0") (s = "0.0.0.0"))
      by naive_solver.
    rewrite bool_decide_false by tauto. simpl. by case_bool_decide. }
  destruct h as [[|c s]|].
  - destruct sh as [|[|]|[|c' s']]; try reflexivity.
    cbv zeta. unfold Spec.advertised_host. simpl.
    change (js_or _ _) with (HostString (String c' s')). apply Hs.
  - cbv zeta. unfold Spec.advertised_host. simpl.
    change (js_or _ _) with (HostString (String c s)). apply Hs.
  - destruct sh as [|[|]|[|c' s']]; try reflexivity.
    cbv zeta. unfold Spec.advertised_host. simpl.
    change (js_or _ _) with (HostString (String c' s')). apply Hs.
Qed.

Lemma url_refines (https : bool) (host : string) (port : N) :
  (if (port =? 80)%N
   then (if https then "https" else "http") +:+ "://" +:+ host
   else (if https then "https" else "http") +:+ "://" +:+ host +:+ ":" +:+ pretty port)
  = Spec.dev_server_url https host port.
Proof.
  unfold Spec.dev_server_url, Spec.protocol_of.
  destruct (N.eqb_spec port 80); [by rewrite decide_True | by rewrite decide_False].
Qed.

End PluginFacts.

(* ===================================================================== *)
(** * One attached Coordinator *)
(* ===================================================================== *)

Module CoordinatorFacts.
Import Str Data Monad Plugin Spec Setting StrFacts PathFacts FsFacts PluginFacts.

Section Coordinator.
Variables (server r : nat) (rc : ResolvedConfig) (pc : PluginConfig).
Variables (segs : list string) (h0 : gmap nat ResolvedConfig).
Hypothesis segs_clean : Forall Path.clean segs.
Hypothesis h0_r : h0 !! r = Some rc.

#[local] Abbreviation inv := (coordinator_inv server r rc pc segs h0).

(** The object [r] keeps every field but the origin. *)
Lemma origin_written_lookup (lp : option N) :
  exists rc',
    origin_written r rc pc h0 lp !! r = Some rc'
    /\ server_https rc' = server_https rc
    /\ server_host rc' = server_host rc
    /\ forall url, set_origin url rc' = set_origin url rc.
Proof using h0_r.
  destruct lp as [port|]; simpl.
  - eexists. rewrite lookup_insert_eq. by repeat split.
  - exists rc. by repeat split.
Qed.

Lemma origin_written_alter (lp : option N) (port : N) :
  alter (set_origin (advertised_url rc pc port)) r (origin_written r rc pc h0 lp)
  = origin_written r rc pc h0 (Some port).
Proof using h0_r.
  apply map_eq. intros i. rewrite lookup_alter. simpl.
  destruct (decide (r = i)) as [<-|Hne].
  - rewrite lookup_insert_eq.
    destruct (origin_written_lookup lp) as (rc' & -> & _ & _ & Hset).
    simpl. by rewrite Hset.
  - rewrite lookup_insert_ne by done.
    destruct lp; simpl; [by rewrite lookup_insert_ne|done].
Qed.

(** The [listening] callback: the artifact is written and the origin
    is set, both to the advertised URL. *)
Lemma on_listening_ok (le : option Event) (lp : option N) (port : N) (w : World) :
  inv le lp w ->
  exists w',
    on_listening port (Path.render segs) w = (inr tt, w')
    /\ inv (Some (Listening port)) (Some port) w'.
Proof using segs_clean h0_r.
  intros (Hh & Hr & Hp & Hw & Hheap & _).
  destruct (origin_written_lookup lp) as (rc' & Hlk & Hhttps & Hhost & Hset).
  destruct (writeJson_ok w segs [("devServer", advertised_url rc pc port)] segs_clean Hw)
    as (n' & Hwj & Hfile & Hw').
  exists (set_heap (origin_written r rc pc h0 (Some port)) (set_fs n' w)).
  split.
  - unfold on_listening.
    rewrite (bind_ok _ _ w w rc') by (apply (the_resolvedConfig_ok w r rc'); congruence).
    rewrite (bind_ok _ _ w w pc) by by apply the_pluginConfig_ok.
    rewrite Hhttps, Hhost. cbv zeta.
    rewrite host_refines. cbn [template].
    rewrite url_refines. fold (advertised_url rc pc port).
    rewrite (bind_ok _ _ _ _ _ Hwj).
    unfold bind, gets, defined, modify. simpl. rewrite Hr. simpl.
    rewrite Hheap. by rewrite origin_written_alter.
  - repeat split; simpl; try done.
    unfold Fs.read_file. by rewrite Hfile.
Qed.

(** The [close] callback: the artifact is gone; when it was not there,
    nothing has changed. *)
Lemma on_close_ok (le : option Event) (lp : option N) (w : World) :
  inv le lp w ->
  exists w',
    on_close (Path.render segs) w = (inr tt, w')
    /\ inv (Some Close) lp w'
    /\ (Fs.exists_at (fs w) segs = false -> w' = w).
Proof using segs_clean.
  intros (Hh & Hr & Hp & Hw & Hheap & _).
  destruct (rm_force_writable _ _ Hw) as (n' & Hrm & Hgone & Hw' & Hsame).
  exists (set_fs n' w). split; [|split].
  - unfold on_close, rmSync_force, fs_call.
    rewrite (fs_path_render w segs segs_clean). by rewrite Hrm.
  - by repeat split.
  - intros Hno. rewrite (Hsame Hno). apply set_fs_same.
Qed.

Lemma emit_listening (port : N) (w w' : World) :
  handlers w = coordinator server (Path.render segs) ->
  on_listening port (Path.render segs) w = (inr tt, w') ->
  emit server (Listening port) w = (inr tt, w').
Proof.
  intros Hh Hon. unfold emit, bind at 1, gets. rewrite Hh.
  unfold coordinator. cbn [for_each run_handler].
  rewrite decide_True by done. unfold bind, ret. by rewrite Hon.
Qed.

Lemma emit_close (w w' : World) :
  handlers w = coordinator server (Path.render segs) ->
  on_close (Path.render segs) w = (inr tt, w') ->
  emit server Close w = (inr tt, w').
Proof.
  intros Hh Hon. unfold emit, bind at 1, gets. rewrite Hh.
  unfold coordinator. cbn [for_each run_handler].
  rewrite decide_True by done. unfold bind, ret. by rewrite Hon.
Qed.

(** One event keeps the invariant. *)
Lemma emit_ok (le : option Event) (lp : option N) (ev : Event) (w : World) :
  inv le lp w ->
  exists w',
    emit server ev w = (inr tt, w')
    /\ inv (Some ev) (bound_port_step lp ev) w'.
Proof using segs_clean h0_r.
  intros Hinv. destruct ev as [port|].
  - destruct (on_listening_ok le lp port w Hinv) as (w' & Hon & Hinv').
    exists w'. split; [|done]. apply emit_listening; [apply Hinv | done].
  - destruct (on_close_ok le lp w Hinv) as (w' & Hon & Hinv' & _).
    exists w'. split; [|done]. apply emit_close; [apply Hinv | done].
Qed.

(** Every sequence of events runs to its end and keeps the invariant. *)
Lemma emit_all_ok (evs : list Event) (le : option Event) (lp : option N) (w : World) :
  inv le lp w ->
  exists w',
    emit_all server evs w = (inr tt, w')
    /\ inv (from_option Some le (last evs)) (fold_left bound_port_step evs lp) w'.
Proof using segs_clean h0_r.
  revert le lp w. induction evs as [|ev evs IH]; intros le lp w Hinv.
  - exists w. split; [reflexivity|]. by destruct le.
  - destruct (emit_ok le lp ev w Hinv) as (w1 & Hev & Hinv1).
    destruct (IH _ _ _ Hinv1) as (w' & Hrest & Hinv').
    exists w'. split.
    + unfold emit_all. simpl. unfold bind. rewrite Hev. apply Hrest.
    + simpl fold_left. rewrite last_cons.
      destruct (last evs); simpl in *; done.
Qed.

End Coordinator.

(** ** Events *)

Lemma lifecycle_fold (evs : list Event) (st : Lifecycle) :
  fold_left lifecycle_step evs st
  = match last evs with
    | None => st
    | Some (Listening _) => Active
    | Some Close => Terminated
    end.
Proof.
  revert st. induction evs as [|ev evs IH]; intros st; [reflexivity|].
  simpl fold_left. rewrite IH, last_cons.
  destruct (last evs) as [[|]|]; [reflexivity..|]. by destruct ev.
Qed.

(** The state of the listener is decided by its last event. *)
Lemma lifecycle_active (evs : list Event) :
  lifecycle evs = Active <-> exists port, last evs = Some (Listening port).
Proof.
  unfold lifecycle. rewrite lifecycle_fold.
  destruct (last evs) as [[port|]|]; split; try done; eauto.
  - by intros [? ?].
  - by intros [? ?].
Qed.

Lemma bound_port_last (evs : list Event) (acc : option N) (port : N) :
  last evs = Some (Listening port) ->
  fold_left bound_port_step evs acc = Some port.
Proof.
  intros H. apply last_Some in H as [l ->].
  by rewrite fold_left_app.
Qed.

Lemma read_file_exists (n : Fs.node) (p : list string) (text : string) :
  Fs.read_file n p = Some text -> Fs.exists_at n p = true.
Proof.
  unfold Fs.read_file, Fs.exists_at. by destruct (Fs.lookup n p).
Qed.

(** ** Attaching *)

Lemma info_place_clean (w : World) (rc : ResolvedConfig) (file : string) :
  starts_with_slash (cwd w) = true ->
  Forall Path.clean (info_place w rc file)
  /\ infoFilePath w rc file = Path.render (info_place w rc file).
Proof.
  intros Hcwd. unfold info_place, infoFilePath.
  rewrite (resolve_render _ _ Hcwd).
  destruct (resolve_segments_rooted (cwd w) [root rc; build_outDir rc; file] Hcwd)
    as [_ Hclean].
  by rewrite fs_path_render.
Qed.

(** [configureServer] on a ready process registers the three callbacks
    and touches nothing else. *)
Lemma configureServer_ready (w : World) (server r : nat) (rc : ResolvedConfig)
    (pc : PluginConfig) (file : string) :
  resolvedConfig w = Some r -> heap w !! r = Some rc -> command rc = serve ->
  pluginConfig w = Some pc -> infoFile pc = Some file ->
  configureServer {| httpServer := Some server |} w
  = (inr tt, set_handlers (handlers w ++ coordinator server (infoFilePath w rc file)) w).
Proof.
  intros Hr Hh Hc Hp Hf. unfold configureServer.
  rewrite (bind_ok _ _ w w rc) by by apply (the_resolvedConfig_ok w r).
  rewrite Hc. cbn [httpServer]. unfold generateInfoFile.
  rewrite (bind_ok _ _ w w rc) by by apply (the_resolvedConfig_ok w r).
  rewrite (bind_ok _ _ w w pc) by by apply the_pluginConfig_ok.
  rewrite Hf. unfold bind, defined, ret, process_cwd, gets, modify. simpl.
  unfold infoFilePath, coordinator. by rewrite <- !app_assoc.
Qed.

Lemma attach_inv (w : World) (server r : nat) (rc : ResolvedConfig)
    (pc : PluginConfig) (file : string) :
  ready w r rc pc file ->
  Fs.writable (fs w) (info_place w rc file) = true ->
  exists w',
    configureServer {| httpServer := Some server |} w = (inr tt, w')
    /\ fs w' = fs w /\ heap w' = heap w
    /\ coordinator_inv server r rc pc (info_place w rc file) (heap w) None None w'.
Proof.
  intros (Hcwd & Hh & Hr & Hlk & Hc & Hp & Hf) Hw.
  destruct (info_place_clean w rc file Hcwd) as [_ Hpath].
  eexists. split; [by apply (configureServer_ready w server r rc pc file)|].
  repeat split; simpl; try done.
  by rewrite Hh, Hpath.
Qed.

End CoordinatorFacts.

(* ===================================================================== *)
(** * The hooks *)
(* ===================================================================== *)

Module HookFacts.
Import Str Data Monad Plugin Spec Setting StrFacts PathFacts FsFacts PluginFacts.

Lemma getDefaultOutDir_run (w : World) :
  getDefaultOutDir w
  = (if Fs.exists_at (fs w) (fs_path w (Path.join [cwd w; "www"]))
     then inr (Path.join [Path.join [cwd w; "www"]; "assets"])
     else inl (Error (output_directory_message
                        (Path.join [Path.join [cwd w; "www"]; "assets"]))),
     w).
Proof.
  unfold getDefaultOutDir, bind, process_cwd, gets, existsSync, throw, ret.
  by destruct (Fs.exists_at _ _).
Qed.

Lemma host_string_decide (a b : string) :
  bool_decide (HostString a = HostString b) = bool_decide (a = b).
Proof. apply bool_decide_ext. naive_solver. Qed.

(** The [config] hook either returns its object or throws the error of
    [getDefaultOutDir]; it never changes the world. *)
Lemma config_cases (w : World) (pc : PluginConfig) (u : UserConfig) :
  pluginConfig w = Some pc ->
  let https := default false (us_https <$> uc_server u) in
  let h := advertised_host (host pc) (default HostUndefined (us_host <$> uc_server u)) in
  let www := Path.join [cwd w; "www"] in
  let assets := Path.join [www; "assets"] in
  (exists c,
      config u w = (inr c, w)
      /\ c_root c = default "assets" (uc_root u)
      /\ c_build_outDir c = default assets (uc_build u ≫= ub_outDir)
      /\ c_build_rollupOptions_input c
         = (if entry_truthy (entry pc)
            then Some (map (fun e => Path.resolve (cwd w) [default "assets" (uc_root u); e])
                           (entry_array (entry pc)))
            else None)
      /\ c_server_cors c
         = default (CorsOptions [defaultAllowedOrigins;
                                 OriginString (protocol_of https +:+ "://" +:+ h)])
                   (uc_server u ≫= us_cors)
      /\ c_server_allowedHosts c
         = (if match uc_server u ≫= us_allowedHosts with
               | Some a => allowedHosts_truthy a
               | None => bool_decide (h = "localhost")
               end
            then None else Some (AllowedList [h]))
      /\ c_server_origin c = EmptyString
      /\ (uc_build u ≫= ub_outDir = None -> Fs.exists_at (fs w) (fs_path w www) = true))
  \/ (config u w = (inl (Error (output_directory_message assets)), w)
      /\ uc_build u ≫= ub_outDir = None
      /\ Fs.exists_at (fs w) (fs_path w www) = false).
Proof.
  intros Hp https h www assets. unfold config.
  rewrite (bind_ok _ _ w w pc) by by apply the_pluginConfig_ok.
  unfold bind at 1, process_cwd, gets. cbv zeta.
  rewrite host_refines. cbn [template]. rewrite host_string_decide.
  fold h. fold https.
  destruct (uc_build u ≫= ub_outDir) as [d|] eqn:Hd.
  - left. eexists. split; [reflexivity|]. by repeat split.
  - unfold bind. rewrite getDefaultOutDir_run. fold www assets.
    destruct (Fs.exists_at (fs w) (fs_path w www)) eqn:Hex.
    + left. eexists. split; [reflexivity|]. by repeat split.
    + right. by repeat split.
Qed.

Lemma config_world (u : UserConfig) (w : World) : (config u w).2 = w.
Proof.
  destruct (pluginConfig w) as [pc|] eqn:Hp.
  - destruct (config_cases w pc u Hp) as [(c & -> & _)|(-> & _)]; reflexivity.
  - unfold config. unfold bind at 1. unfold the_pluginConfig, bind, gets, defined, throw.
    by rewrite Hp.
Qed.

(** ** What leaves the configuration objects alone *)

Lemma for_each_heap {A} (l : list A) (f : A -> M unit) (w : World) :
  (forall a w, heap (f a w).2 = heap w) ->
  heap (for_each l f w).2 = heap w.
Proof.
  intros Hf. revert w. induction l as [|a l IH]; intros w; [reflexivity|].
  simpl. unfold bind. specialize (Hf a w).
  destruct (f a w) as [[e|[]] w1]; simpl in *; [done|]. by rewrite IH.
Qed.

Lemma fs_call_heap (op : Fs.node -> list string -> Fs.errno + Fs.node) (p : string)
    (w : World) :
  heap (fs_call op p w).2 = heap w.
Proof. unfold fs_call. by destruct (op _ _). Qed.

Lemma the_resolvedConfig_world (w : World) : (the_resolvedConfig w).2 = w.
Proof.
  unfold the_resolvedConfig, bind, gets, defined, throw, ret. simpl.
  destruct (resolvedConfig w) as [r|]; simpl; [|done].
  by destruct (heap w !! r).
Qed.

Lemma the_pluginConfig_world (w : World) : (the_pluginConfig w).2 = w.
Proof.
  unfold the_pluginConfig, bind, gets, defined, throw, ret. simpl.
  by destruct (pluginConfig w).
Qed.

Lemma generateInfoFile_heap (server : nat) (w : World) :
  heap (generateInfoFile server w).2 = heap w
  /\ fs (generateInfoFile server w).2 = fs w.
Proof.
  unfold generateInfoFile, bind.
  pose proof (the_resolvedConfig_world w) as H1.
  destruct (the_resolvedConfig w) as [[e|rc] w1]; simpl in H1; subst w1; [by split|].
  pose proof (the_pluginConfig_world w) as H2.
  destruct (the_pluginConfig w) as [[e|pc] w1]; simpl in H2; subst w1; [by split|].
  unfold defined, throw, ret, process_cwd, gets, modify.
  by destruct (infoFile pc).
Qed.

Lemma configureServer_heap (d : ViteDevServer) (w : World) :
  heap (configureServer d w).2 = heap w /\ fs (configureServer d w).2 = fs w.
Proof.
  unfold configureServer, bind.
  pose proof (the_resolvedConfig_world w) as H1.
  destruct (the_resolvedConfig w) as [[e|rc] w1]; simpl in H1; subst w1; [by split|].
  destruct (command rc); [|by split].
  destruct (httpServer d); [|by split]. apply generateInfoFile_heap.
Qed.

(** Every action but a [listening] event leaves the configuration objects,
    and so every [server.origin], as they were. *)
Lemma perform_heap (a : Action) (w : World) :
  (forall server port, a <> Emit server (Listening port)) ->
  heap (perform a w).2 = heap w.
Proof.
  intros Ha. destruct a as [c|u|r|d|server ev]; simpl.
  - reflexivity.
  - unfold bind. pose proof (config_world u w) as H.
    destruct (config u w) as [[e|c] w1]; simpl in *; by subst.
  - reflexivity.
  - apply configureServer_heap.
  - destruct ev as [port|]; [by destruct (Ha server port)|].
    unfold emit, bind, gets. apply for_each_heap.
    intros h w1. destruct h as [s p|s p|s]; simpl; try reflexivity.
    destruct (decide (s = server)); [|reflexivity].
    apply fs_call_heap.
Qed.

(** ** A process that only builds *)

Lemma perform_builds_only (a : Action) (w : World) :
  builds_only w ->
  fs (perform a w).2 = fs w
  /\ heap (perform a w).2 = heap w
  /\ handlers (perform a w).2 = [].
Proof.
  intros [Hh Hb]. destruct a as [c|u|r|d|server ev]; simpl.
  - done.
  - unfold bind. pose proof (config_world u w) as H.
    destruct (config u w) as [[e|c] w1]; simpl in *; by subst.
  - done.
  - unfold configureServer, bind.
    destruct (resolvedConfig w) as [r|] eqn:Hr.
    + destruct (heap w !! r) as [rc|] eqn:Hrc.
      * rewrite (the_resolvedConfig_ok w r rc Hr Hrc).
        by rewrite (Hb r rc Hrc).
      * unfold the_resolvedConfig, bind, gets, defined, throw. simpl.
        rewrite Hr. simpl. by rewrite Hrc.
    + unfold the_resolvedConfig, bind, gets, defined, throw. simpl.
      by rewrite Hr.
  - unfold emit, bind, gets. by rewrite Hh.
Qed.

Lemma perform_all_builds_only (l : list Action) (w : World) :
  builds_only w ->
  fs (perform_all l w) = fs w
  /\ heap (perform_all l w) = heap w
  /\ handlers (perform_all l w) = [].
Proof.
  revert w. induction l as [|a l IH]; intros w Hw.
  - by destruct Hw.
  - simpl. destruct (perform_builds_only a w Hw) as (Hfs & Hheap & Hh).
    assert (Hw' : builds_only (perform a w).2).
    { split; [done|]. rewrite Hheap. apply Hw. }
    destruct (IH _ Hw') as (-> & -> & ->). by rewrite Hfs, Hheap.
Qed.

End HookFacts.

(* ===================================================================== *)
(** * JSON text *)
(* ===================================================================== *)

Module JsonFacts.

Lemma escape_char_plain (c : ascii) :
  Json.plain c = true -> Json.escape_char c = String c EmptyString.
Proof.
  unfold Json.plain, Json.escape_char. cbv zeta.
  set (n := nat_of_ascii c).
  intros H. apply andb_true_iff in H as [H H92]. apply andb_true_iff in H as [H32 H34].
  apply Nat.leb_le in H32. apply negb_true_iff in H34, H92. rewrite H34, H92.
  repeat match goal with
         | |- context [(n =? ?k)%nat] =>
             rewrite (proj2 (Nat.eqb_neq n k)) by lia
         end.
  by rewrite (proj2 (Nat.ltb_ge n 32)) by lia.
Qed.

Lemma escape_plain (s : string) :
  Json.all_plain s = true -> Json.escape s = s.
Proof.
  induction s as [|c s IH]; [done|]. simpl. intros H.
  apply andb_true_iff in H as [Hc Hs].
  by rewrite escape_char_plain, IH.
Qed.

End JsonFacts.

(* ===================================================================== *)
(** * The claims of the specification *)
(* ===================================================================== *)

Module Claims.
Import Str Data Monad Plugin Spec Setting.
Import StrFacts PathFacts FsFacts PluginFacts CoordinatorFacts HookFacts JsonFacts.

(** What an attached Coordinator does with any sequence of events. *)
Lemma coordinator_runs (w0 : World) (server r : nat) (rc : ResolvedConfig)
    (pc : PluginConfig) (file : string) :
  ready w0 r rc pc file ->
  Fs.writable (fs w0) (info_place w0 rc file) = true ->
  exists w,
    configureServer {| httpServer := Some server |} w0 = (inr tt, w)
    /\ fs w = fs w0
    /\ handlers w = coordinator server (infoFilePath w0 rc file)
    /\ forall evs, exists w',
         emit_all server evs w = (inr tt, w')
         /\ coordinator_inv server r rc pc (info_place w0 rc file) (heap w0)
              (last evs) (last_bound_port evs) w'.
Proof.
  intros Hready Hw.
  destruct (attach_inv w0 server r rc pc file Hready Hw) as (w & Hattach & Hfs & Hheap & Hinv).
  destruct Hready as (Hcwd & _ & _ & Hlk & _).
  destruct (info_place_clean w0 rc file Hcwd) as [Hclean Hpath].
  exists w. split; [done|]. split; [done|]. split.
  { rewrite Hpath. apply Hinv. }
  intros evs.
  destruct (emit_all_ok server r rc pc _ (heap w0) Hclean Hlk evs None None w Hinv)
    as (w' & Hrun & Hinv').
  exists w'. split; [done|].
  replace (last evs) with (from_option Some None (last evs)); [done|].
  by destruct (last evs).
Qed.

(** C1.  On a single attached Coordinator, whatever the sequence of
    [listening] and [close] events: every event is handled without an
    exception; after it (or from the start, when no stale file lies at the
    place) the artifact exists exactly when the listener is Active, that
    is, when the last event was [listening]; and a [close] that finds no
    file changes nothing and does not fail. *)
Theorem artifact_exists_iff_active (w0 : World) (server r : nat) (rc : ResolvedConfig)
    (pc : PluginConfig) (file : string) :
  ready w0 r rc pc file ->
  Fs.writable (fs w0) (info_place w0 rc file) = true ->
  exists w,
    configureServer {| httpServer := Some server |} w0 = (inr tt, w)
    /\ forall evs : list Event, exists w',
         emit_all server evs w = (inr tt, w')
         /\ (evs <> [] \/ Fs.exists_at (fs w0) (info_place w0 rc file) = false ->
             (Fs.exists_at (fs w') (info_place w0 rc file) = true
              <-> lifecycle evs = Active))
         /\ (Fs.exists_at (fs w') (info_place w0 rc file) = false ->
             emit server Close w' = (inr tt, w')).
Proof.
  intros Hready Hw.
  destruct (coordinator_runs w0 server r rc pc file Hready Hw)
    as (w & Hattach & Hfs & Hh & Hruns).
  destruct Hready as (Hcwd & _ & _ & Hlk & _).
  destruct (info_place_clean w0 rc file Hcwd) as [Hclean Hpath].
  exists w. split; [done|]. intros evs.
  destruct (Hruns evs) as (w' & Hrun & Hinv).
  exists w'. split; [done|]. split.
  - intros Hstart. rewrite lifecycle_active.
    destruct Hinv as (_ & _ & _ & _ & _ & Hstate).
    destruct (last evs) as [[port|]|] eqn:Hlast; simpl in Hstate.
    + rewrite (read_file_exists _ _ _ Hstate). split; eauto.
    + rewrite Hstate. split; [done|]. by intros [? ?].
    + apply last_None in Hlast. subst evs.
      destruct Hstart as [?|Hno]; [done|].
      inversion Hrun; subst w'. rewrite Hfs, Hno.
      split; [done|]. by intros [? ?].
  - intros Hno.
    destruct (on_close_ok server r rc pc _ (heap w0) Hclean _ _ w' Hinv)
      as (w'' & Hclose & _ & Hsame).
    rewrite (Hsame Hno) in Hclose.
    apply (emit_close server (info_place w0 rc file)); [apply Hinv | done].
Qed.

Lemma emit_all_single (server : nat) (ev : Event) (w w' : World) :
  emit_all server [ev] w = (inr tt, w') -> emit server ev w = (inr tt, w').
Proof.
  unfold emit_all. simpl. unfold bind, ret.
  destruct (emit server ev w) as [[e|[]] w1]; intros H; by inversion H.
Qed.

(** One [listening] event on an attached Coordinator: the origin and the
    artifact both hold the advertised URL. *)
Lemma listening_once (w0 : World) (server r : nat) (rc : ResolvedConfig)
    (pc : PluginConfig) (file : string) (port : N) :
  ready w0 r rc pc file ->
  Fs.writable (fs w0) (info_place w0 rc file) = true ->
  exists w w',
    configureServer {| httpServer := Some server |} w0 = (inr tt, w)
    /\ handlers w = coordinator server (infoFilePath w0 rc file)
    /\ emit server (Listening port) w = (inr tt, w')
    /\ heap w' = <[r := set_origin (advertised_url rc pc port) rc]> (heap w0)
    /\ Fs.read_file (fs w') (info_place w0 rc file)
       = Some (artifact (advertised_url rc pc port)).
Proof.
  intros Hready Hw.
  destruct (coordinator_runs w0 server r rc pc file Hready Hw)
    as (w & Hattach & Hfs & Hh & Hruns).
  destruct (Hruns [Listening port]) as (w' & Hrun & Hinv).
  exists w, w'. split; [done|]. split; [done|].
  split; [by apply emit_all_single|].
  destruct Hinv as (_ & _ & _ & _ & Hheap & Hstate). by split.
Qed.

(** C2.  The URL produced on the [listening] event, which is stored as
    [server.origin] and in the artifact, is [<protocol>://<host>] when the
    bound port is 80 and [<protocol>://<host>:<port>] otherwise, for either
    protocol, any host and any port. *)
Theorem dev_server_url_format (w0 : World) (server r : nat) (rc : ResolvedConfig)
    (pc : PluginConfig) (file : string) (port : N) :
  ready w0 r rc pc file ->
  Fs.writable (fs w0) (info_place w0 rc file) = true ->
  let protocol := if server_https rc then "https" else "http" in
  let host := advertised_host (host pc) (server_host rc) in
  let url :=
    if decide (port = 80%N) then protocol +:+ "://" +:+ host
    else protocol +:+ "://" +:+ host +:+ ":" +:+ pretty port in
  exists w w',
    configureServer {| httpServer := Some server |} w0 = (inr tt, w)
    /\ emit server (Listening port) w = (inr tt, w')
    /\ server_origin <$> heap w' !! r = Some (Some url)
    /\ Fs.read_file (fs w') (info_place w0 rc file) = Some (artifact url).
Proof.
  intros Hready Hw protocol host url.
  destruct (listening_once w0 server r rc pc file port Hready Hw)
    as (w & w' & Hattach & _ & Hemit & Hheap & Hfile).
  exists w, w'. split; [done|]. split; [done|].
  assert (Hurl : advertised_url rc pc port = url) by reflexivity.
  rewrite Hurl in *. split; [|done].
  by rewrite Hheap, lookup_insert_eq.
Qed.

(** C3.  The advertised host is the plugin's host override if set (a
    non-empty string), else the server host if set, else [localhost], and
    the all-interfaces sentinel ([true] or [0.0.0.0]) becomes [localhost];
    the [listening] callback uses it in the URL and the [config] hook uses
    it in the CORS origin. *)
Theorem advertised_host_priority :
  (forall (w0 : World) (server r : nat) (rc : ResolvedConfig) (pc : PluginConfig)
          (file : string) (port : N),
      ready w0 r rc pc file ->
      Fs.writable (fs w0) (info_place w0 rc file) = true ->
      exists w w',
        configureServer {| httpServer := Some server |} w0 = (inr tt, w)
        /\ emit server (Listening port) w = (inr tt, w')
        /\ server_origin <$> heap w' !! r
           = Some (Some (dev_server_url (server_https rc)
                           (advertised_host (host pc) (server_host rc)) port)))
  /\ (forall (w w' : World) (pc : PluginConfig) (u : UserConfig) (c : HookConfig),
        pluginConfig w = Some pc ->
        uc_server u ≫= us_cors = None ->
        config u w = (inr c, w') ->
        c_server_cors c
        = CorsOptions
            [defaultAllowedOrigins;
             OriginString
               ((if default false (us_https <$> uc_server u) then "https" else "http")
                +:+ "://"
                +:+ advertised_host (host pc)
                      (default HostUndefined (us_host <$> uc_server u)))])
  /\ (forall (h : string) (sh : HostValue),
        h <> EmptyString -> h <> "0.0.0.0" -> advertised_host (Some h) sh = h)
  /\ (forall sh : HostValue, advertised_host (Some "0.0.0.0") sh = "localhost")
  /\ (forall (o : option string) (s : string),
        o = None \/ o = Some EmptyString ->
        s <> EmptyString -> s <> "0.0.0.0" ->
        advertised_host o (HostString s) = s)
  /\ (forall (o : option string) (sh : HostValue),
        o = None \/ o = Some EmptyString ->
        sh = HostBool true \/ sh = HostString "0.0.0.0" ->
        advertised_host o sh = "localhost")
  /\ (forall (o : option string) (sh : HostValue),
        o = None \/ o = Some EmptyString ->
        sh = HostUndefined \/ sh = HostBool false \/ sh = HostString EmptyString ->
        advertised_host o sh = "localhost").
Proof.
  split; [|split; [|split; [|split; [|split; [|split]]]]].
  - intros w0 server r rc pc file port Hready Hw.
    destruct (listening_once w0 server r rc pc file port Hready Hw)
      as (w & w' & Hattach & _ & Hemit & Hheap & _).
    exists w, w'. split; [done|]. split; [done|].
    by rewrite Hheap, lookup_insert_eq.
  - intros w w' pc u c Hp Hcors Hrun.
    destruct (config_cases w pc u Hp) as [(c' & Hc & _ & _ & _ & Hc_cors & _)|(Hc & _)];
      rewrite Hc in Hrun; [|done].
    inversion Hrun; subst. rewrite Hc_cors, Hcors. reflexivity.
  - intros h sh Hne Hall. unfold advertised_host.
    destruct h as [|c h]; [done|]. simpl.
    by rewrite bool_decide_false.
  - reflexivity.
  - intros o s [->| ->] Hne Hall; unfold advertised_host;
      (destruct s as [|c s]; [done|]); simpl; by rewrite bool_decide_false.
  - by intros o sh [->| ->] [->| ->].
  - by intros o sh [->| ->] [->|[->| ->]].
Qed.

(** C4, as the code has it.  On a single attached Coordinator: once a
    [listening] event has occurred, [server.origin] of the shared
    configuration is the URL of the most recent [listening] event; while
    the listener is Active the artifact is on disk and its text is the JSON
    record of that same URL, and a text found at its place at any time is
    that record; once the listener is Terminated the artifact is gone
    while the origin stays; before the first [listening] event nothing has
    been written to the configuration objects; and no action of the plugin
    other than a [listening] event writes to them. *)
Theorem origin_equals_artifact (w0 : World) (server r : nat) (rc : ResolvedConfig)
    (pc : PluginConfig) (file : string) :
  ready w0 r rc pc file ->
  Fs.writable (fs w0) (info_place w0 rc file) = true ->
  (exists w,
    configureServer {| httpServer := Some server |} w0 = (inr tt, w)
    /\ forall evs : list Event, exists w',
         emit_all server evs w = (inr tt, w')
         /\ (forall port, last_bound_port evs = Some port ->
               server_origin <$> heap w' !! r = Some (Some (advertised_url rc pc port))
               /\ (forall text,
                     Fs.read_file (fs w') (info_place w0 rc file) = Some text ->
                     text = artifact (advertised_url rc pc port))
               /\ (lifecycle evs = Active ->
                     Fs.read_file (fs w') (info_place w0 rc file)
                     = Some (artifact (advertised_url rc pc port)))
               /\ (lifecycle evs = Terminated ->
                     Fs.exists_at (fs w') (info_place w0 rc file) = false)
               /\ heap w' = <[r := set_origin (advertised_url rc pc port) rc]> (heap w0))
         /\ (last_bound_port evs = None -> heap w' = heap w0))
  /\ (forall (a : Action) (w1 : World),
        (forall s port, a <> Emit s (Listening port)) ->
        heap (perform a w1).2 = heap w1).
Proof.
  intros Hready Hw. split; [|apply perform_heap].
  destruct (coordinator_runs w0 server r rc pc file Hready Hw)
    as (w & Hattach & Hfs & Hh & Hruns).
  exists w. split; [done|]. intros evs.
  destruct (Hruns evs) as (w' & Hrun & Hinv).
  exists w'. split; [done|].
  destruct Hinv as (_ & _ & _ & _ & Hheap & Hstate).
  split.
  - intros port Hport. rewrite Hport in Hheap. simpl in Hheap.
    split; [by rewrite Hheap, lookup_insert_eq|].
    assert (Hlast : forall p, last evs = Some (Listening p) -> p = port).
    { intros p Hp. pose proof (bound_port_last evs None p Hp) as Hb.
      unfold last_bound_port in Hport. congruence. }
    split; [|split; [|split; [|done]]].
    + intros text Htext.
      destruct (last evs) as [[p|]|] eqn:Hl; simpl in Hstate.
      * rewrite (Hlast p eq_refl) in Hstate. congruence.
      * apply read_file_exists in Htext. congruence.
      * apply last_None in Hl. by subst evs.
    + intros Hact. apply lifecycle_active in Hact as [p Hp].
      rewrite Hp in Hstate. simpl in Hstate. by rewrite <- (Hlast p Hp).
    + intros Hterm. unfold lifecycle in Hterm. rewrite lifecycle_fold in Hterm.
      by destruct (last evs) as [[p|]|].
  - intros Hnone. by rewrite Hnone in Hheap.
Qed.

(** C7.  The artifact is written at [resolve(root, outDir, infoFile)]
    (the factory makes [infoFile] default to [.vite/nette.json]); its text
    is an opening brace, a line with a tab, the quoted key [devServer], a
    colon, a space and the quoted URL, and a closing brace on its own line
    (the URL stands between the quotes as it is when it has no character
    to escape); after the write every directory above the file exists,
    whether it was there before or not; and [mkdirSync] with [recursive]
    on a directory that exists changes nothing and does not fail. *)
Theorem artifact_written_as_json (w0 : World) (server r : nat) (rc : ResolvedConfig)
    (pc : PluginConfig) (file : string) (port : N) :
  ready w0 r rc pc file ->
  Fs.writable (fs w0) (info_place w0 rc file) = true ->
  let path := Path.resolve (cwd w0) [root rc; build_outDir rc; file] in
  let place := fs_path w0 path in
  let url := advertised_url rc pc port in
  (exists w w',
    configureServer {| httpServer := Some server |} w0 = (inr tt, w)
    /\ handlers w = [OnListening server path; OnClose server path; OnSigint server]
    /\ emit server (Listening port) w = (inr tt, w')
    /\ Fs.read_file (fs w') place
       = Some ("{" +:+ Json.newline +:+ Json.tab
               +:+ Json.quote "devServer" +:+ ": " +:+ Json.quote url
               +:+ Json.newline +:+ "}")
    /\ (forall k, k < length place ->
          exists es, Fs.lookup (fs w') (take k place) = inr (Fs.Dir es)))
  /\ Json.quote "devServer" = dquote +:+ "devServer" +:+ dquote
  /\ (Json.all_plain url = true -> Json.quote url = dquote +:+ url +:+ dquote)
  /\ (forall (c : PluginConfig) (w1 : World),
        pluginConfig (vitePluginNette c w1).2
        = Some {| infoFile := Some (default ".vite/nette.json" (infoFile c));
                  host := host c; entry := entry c |})
  /\ (forall (n : Fs.node) (p : list string) (es : gmap string Fs.node),
        Fs.lookup n p = inr (Fs.Dir es) -> Fs.mkdir_p n p = inr n).
Proof.
  intros Hready Hw path place url.
  split; [|split; [reflexivity|split; [|split; [reflexivity|]]]].
  - destruct (listening_once w0 server r rc pc file port Hready Hw)
      as (w & w' & Hattach & Hh & Hemit & _ & Hfile).
    exists w, w'. split; [done|]. split; [done|]. split; [done|].
    split; [exact Hfile|].
    intros k Hk. fold (infoFilePath w0 rc file) in path.
    fold (info_place w0 rc file) in place. subst place.
    unfold Fs.read_file in Hfile.
    destruct (Fs.lookup (fs w') (info_place w0 rc file)) as [e|x] eqn:Hlk; [done|].
    rewrite <- (take_drop k (info_place w0 rc file)) in Hlk.
    apply (lookup_prefix_dir _ _ _ _) in Hlk; [done|].
    intros Hnil. apply (f_equal length) in Hnil.
    rewrite length_drop in Hnil. simpl in Hnil.
    change (fs_path w0 path) with (info_place w0 rc file) in Hk. lia.
  - intros Hplain. unfold Json.quote. by rewrite escape_plain.
  - intros n p es. apply mkdir_p_existing.
Qed.

(** C9.  [configureServer] changes the world only when the resolved
    configuration's command is [serve] and [httpServer] is not null; in
    that case it registers the [listening], [close] and [SIGINT] callbacks;
    and in a process whose resolved configurations are all for [build],
    whatever hooks are called and whatever events are emitted, no callback
    is ever registered, no file is created or removed, and no
    configuration object is written. *)
Theorem coordinator_attaches_only_when_serving :
  (forall (w : World) (d : ViteDevServer),
      (exists r rc server,
          resolvedConfig w = Some r /\ heap w !! r = Some rc
          /\ command rc = serve /\ httpServer d = Some server)
      \/ (configureServer d w).2 = w)
  /\ (forall (w : World) (server r : nat) (rc : ResolvedConfig) (pc : PluginConfig)
             (file : string),
        resolvedConfig w = Some r -> heap w !! r = Some rc -> command rc = serve ->
        pluginConfig w = Some pc -> infoFile pc = Some file ->
        let path := Path.resolve (cwd w) [root rc; build_outDir rc; file] in
        configureServer {| httpServer := Some server |} w
        = (inr tt,
           set_handlers
             (handlers w ++ [OnListening server path; OnClose server path; OnSigint server])
             w))
  /\ (forall (w : World) (actions : list Action),
        builds_only w ->
        fs (perform_all actions w) = fs w
        /\ heap (perform_all actions w) = heap w
        /\ handlers (perform_all actions w) = []).
Proof.
  split; [|split].
  - intros w d. unfold configureServer, bind.
    destruct (resolvedConfig w) as [r|] eqn:Hr.
    + destruct (heap w !! r) as [rc|] eqn:Hrc.
      * rewrite (the_resolvedConfig_ok w r rc Hr Hrc).
        destruct (command rc) eqn:Hc; [|by right].
        destruct (httpServer d) as [server|] eqn:Hs; [|by right].
        left. by exists r, rc, server.
      * right. unfold the_resolvedConfig, bind, gets, defined, throw. simpl.
        rewrite Hr. simpl. by rewrite Hrc.
    + right. unfold the_resolvedConfig, bind, gets, defined, throw. simpl.
      by rewrite Hr.
  - intros w server r rc pc file Hr Hrc Hc Hp Hf path.
    apply (configureServer_ready w server r rc pc file); done.
  - intros w actions Hw. by apply perform_all_builds_only.
Qed.


(** C5, as the code has it.  With the plugin configured, the [config]
    hook throws exactly when no [build.outDir] is given and nothing, be it
    a directory or a regular file, exists at [www] under the working
    directory; the error is the one whose message names [<cwd>/www/assets]
    and advises to set [build.outDir]; with [build.outDir] given, the
    result does not depend on the file system and is never an error. *)
Theorem config_fails_iff_www_missing (w : World) (pc : PluginConfig) (u : UserConfig) :
  pluginConfig w = Some pc ->
  let www := Path.join [cwd w; "www"] in
  let assets := Path.join [www; "assets"] in
  ((exists e, (config u w).1 = inl e)
   <-> uc_build u ≫= ub_outDir = None /\ Fs.exists_at (fs w) (fs_path w www) = false)
  /\ (forall e, (config u w).1 = inl e ->
        e = Error ("The output directory " +:+ dquote +:+ assets +:+ dquote
                   +:+ " does not exist. Please set " +:+ dquote +:+ "build.outDir"
                   +:+ dquote +:+ " in your Vite config."))
  /\ (forall segs, Forall Path.clean segs -> cwd w = Path.render segs ->
        fs_path w www = segs ++ ["www"]
        /\ assets = Path.render (segs ++ ["www"; "assets"]))
  /\ (forall d, uc_build u ≫= ub_outDir = Some d ->
        (forall n, (config u (set_fs n w)).1 = (config u w).1)
        /\ exists c, (config u w).1 = inr c /\ c_build_outDir c = d).
Proof.
  intros Hp www assets.
  pose proof (config_cases w pc u Hp) as Hcases. cbv zeta in Hcases.
  fold www assets in Hcases.
  split; [|split; [|split]].
  - destruct Hcases as [(c & Hc & _ & _ & _ & _ & _ & _ & Hex)|(Hc & Hd & Hex)];
      rewrite Hc; simpl.
    + split; [by intros [e ?]|]. intros [Hd Hno]. rewrite (Hex Hd) in Hno. done.
    + split; [done|]. intros _. eauto.
  - intros e He.
    destruct Hcases as [(c & Hc & _)|(Hc & _)]; rewrite Hc in He; simpl in He; [done|].
    by inversion He.
  - intros segs Hclean Hcwd.
    assert (Hwww : Path.clean "www") by by repeat split.
    assert (Hassets : Path.clean "assets") by by repeat split.
    assert (Hall : Forall Path.clean (segs ++ ["www"])).
    { apply Forall_app. split; [done|]. by apply Forall_singleton. }
    subst assets www. rewrite Hcwd.
    rewrite (join_render segs "www") by done.
    rewrite (join_render (segs ++ ["www"]) "assets") by done.
    rewrite fs_path_render by done. by rewrite <- app_assoc.
  - intros d Hd. split.
    + intros n. unfold config.
      rewrite (bind_ok _ _ w w pc) by by apply the_pluginConfig_ok.
      rewrite (bind_ok _ _ (set_fs n w) (set_fs n w) pc) by by apply the_pluginConfig_ok.
      unfold bind, process_cwd, gets, ret. by rewrite Hd.
    + destruct Hcases as [(c & Hc & _ & Hout & _)|(_ & Hnone & _)]; [|congruence].
      exists c. rewrite Hc, Hout, Hd. done.
Qed.

(** C5 as stated fails: with a regular file named [www] in the working
    directory there is no [www] directory and no [build.outDir], yet the
    hook returns, with [<cwd>/www/assets] as output directory. *)
Lemma config_accepts_www_file :
  let w := Sample.started (Sample.options None None None)
             (Sample.boot Sample.tree_www_file Sample.mockConfig) in
  let u := Sample.userConfig None None in
  Fs.lookup (fs w) ["home"; "app"; "www"] = inr (Fs.File EmptyString)
  /\ uc_build u ≫= ub_outDir = None
  /\ (exists c, config u w = (inr c, w) /\ c_build_outDir c = "/home/app/www/assets")
  /\ ~ fails_iff_no_www_directory w u.
Proof.
  cbv zeta. split; [reflexivity|]. split; [reflexivity|]. split.
  - eexists. split; [vm_compute; reflexivity | reflexivity].
  - unfold fails_iff_no_www_directory. intros [_ H].
    destruct H as [e He]; [|by vm_compute in He].
    split; [reflexivity|]. intros [es Hes]. by vm_compute in Hes.
Qed.

(** C6, as the code has it.  When the incoming configuration supplies no
    [allowedHosts], the hook's [allowedHosts] is the one-element list of the
    advertised host (the plugin's override if set, else the incoming server
    host if set, else [localhost], the sentinel replaced by [localhost])
    when that host differs from [localhost], and is left undefined when it
    is [localhost]; so it holds an override that is neither empty, nor the
    sentinel, nor [localhost]. *)
Theorem allowedHosts_follows_advertised_host (w w' : World) (pc : PluginConfig)
    (u : UserConfig) (c : HookConfig) :
  pluginConfig w = Some pc ->
  uc_server u ≫= us_allowedHosts = None ->
  config u w = (inr c, w') ->
  let h := advertised_host (host pc) (default HostUndefined (us_host <$> uc_server u)) in
  (h <> "localhost" -> c_server_allowedHosts c = Some (AllowedList [h]))
  /\ (h = "localhost" -> c_server_allowedHosts c = None)
  /\ (forall o, host pc = Some o ->
        o <> EmptyString -> o <> "0.0.0.0" -> o <> "localhost" ->
        c_server_allowedHosts c = Some (AllowedList [o])).
Proof.
  intros Hp Hnone Hrun h.
  destruct (config_cases w pc u Hp) as [(c' & Hc & _ & _ & _ & _ & Ha & _)|(Hc & _)];
    rewrite Hc in Hrun; [|done].
  inversion Hrun; subst c' w'. clear Hrun. cbv zeta in Ha. fold h in Ha.
  rewrite Hnone in Ha.
  assert (H1 : h <> "localhost" -> c_server_allowedHosts c = Some (AllowedList [h])).
  { intros Hne. by rewrite Ha, bool_decide_false. }
  split; [done|]. split.
  - intros Heq. by rewrite Ha, bool_decide_true.
  - intros o Ho Hne Hall Hlocal.
    assert (Hh : h = o).
    { subst h. rewrite Ho. unfold advertised_host.
      destruct o as [|x o]; [done|]. simpl. by rewrite bool_decide_false. }
    rewrite <- Hh in *. by apply H1.
Qed.

(** C6 as stated fails: without a host override the list is not
    omitted when the incoming server host is a custom one, and an override
    that is the sentinel is left out although it differs from
    [localhost]. *)
Lemma allowedHosts_without_override :
  let w := Sample.started (Sample.options None None None)
             (Sample.boot Sample.tree Sample.mockConfig) in
  let pc := Sample.options (Some ".vite/nette.json") None None in
  let u := Sample.userConfig (Some (Sample.userServer (HostString "example.com") None)) None in
  let w2 := Sample.started (Sample.options None (Some "0.0.0.0") None)
              (Sample.boot Sample.tree Sample.mockConfig) in
  let pc2 := Sample.options (Some ".vite/nette.json") (Some "0.0.0.0") None in
  let u2 := Sample.userConfig None None in
  pluginConfig w = Some pc
  /\ pluginConfig w2 = Some pc2
  /\ (exists c, config u w = (inr c, w)
               /\ c_server_allowedHosts c = Some (AllowedList ["example.com"])
               /\ ~ allowedHosts_as_stated pc u c)
  /\ (exists c, config u2 w2 = (inr c, w2)
               /\ c_server_allowedHosts c = None
               /\ ~ allowedHosts_as_stated pc2 u2 c).
Proof.
  cbv zeta. split; [reflexivity|]. split; [reflexivity|]. split.
  - eexists. split; [vm_compute; reflexivity|]. split; [reflexivity|].
    unfold allowedHosts_as_stated. simpl. done.
  - eexists. split; [vm_compute; reflexivity|]. split; [reflexivity|].
    unfold allowedHosts_as_stated. simpl. by intros [l [? _]].
Qed.

(** The value the user gave for [allowedHosts] is not in the hook's
    result: the conditional reads it as its condition. *)
Example allowedHosts_user_value :
  let w := Sample.started (Sample.options None (Some "192.168.1.200") None)
             (Sample.boot Sample.tree Sample.mockConfig) in
  let u := Sample.userConfig
             (Some (Sample.userServer (HostBool true) (Some (AllowedList ["nette.test"]))))
             None in
  exists c, config u w = (inr c, w) /\ c_server_allowedHosts c = None.
Proof.
  cbv zeta. eexists. split; [vm_compute; reflexivity | reflexivity].
Qed.

(** C8, as the code has it.  With a rooted working directory: no list
    is produced when [entry] is missing or is the empty string; a non-empty
    string gives a one-element list and an array gives a list of the same
    length in the same order, each element being [resolve(root, e)]; for
    [e] that is not absolute this is [e] resolved against the resolved
    root; for absolute [e] it is the normal form of [e], which is [e]
    itself when [e] is already normalised. *)
Theorem entry_resolved_against_root (w w' : World) (pc : PluginConfig)
    (u : UserConfig) (c : HookConfig) :
  pluginConfig w = Some pc ->
  starts_with_slash (cwd w) = true ->
  config u w = (inr c, w') ->
  let root := default "assets" (uc_root u) in
  let input := c_build_rollupOptions_input c in
  (entry pc = None \/ entry pc = Some (EntryString EmptyString) -> input = None)
  /\ (forall s, entry pc = Some (EntryString s) -> s <> EmptyString ->
        input = Some [Path.resolve (cwd w) [root; s]])
  /\ (forall l, entry pc = Some (EntryArray l) ->
        exists out,
          input = Some out
          /\ length out = length l
          /\ forall i e, l !! i = Some e ->
               out !! i = Some (Path.resolve (cwd w) [root; e]))
  /\ (forall e, starts_with_slash e = false ->
        Path.resolve (cwd w) [root; e]
        = Path.resolve (cwd w) [Path.resolve (cwd w) [root]; e])
  /\ (forall e, starts_with_slash e = true ->
        Path.resolve (cwd w) [root; e]
        = Path.render (Path.normalize_segments false (split_slash e)))
  /\ (forall segs, Forall Path.clean segs ->
        Path.resolve (cwd w) [root; Path.render segs] = Path.render segs).
Proof.
  intros Hp Hcwd Hrun root input.
  destruct (config_cases w pc u Hp) as [(c' & Hc & _ & _ & Hin & _)|(Hc & _)];
    rewrite Hc in Hrun; [|done].
  inversion Hrun; subst c' w'. clear Hrun. fold root input in Hin.
  split; [|split; [|split; [|split; [|split]]]].
  - intros [He|He]; by rewrite Hin, He.
  - intros s He Hne. rewrite Hin, He. by destruct s.
  - intros l He. rewrite Hin, He. simpl. eexists. split; [reflexivity|].
    split; [apply length_map|].
    intros i e Hi.
    change (map ?f l) with (f <$> l). by rewrite list_lookup_fmap, Hi.
  - intros e He. by apply (resolve_relative (cwd w) e [root]).
  - intros e He. by apply (resolve_absolute (cwd w) e [root]).
  - intros segs Hclean. by apply (resolve_of_render (cwd w) [root] segs).
Qed.

(** C8 as stated fails: an absolute entry that is not normalised is
    changed, and a single entry that is the empty string gives no list. *)
Lemma entry_not_unchanged :
  let w := Sample.boot Sample.tree Sample.mockConfig in
  let u := Sample.userConfig None None in
  let pc1 := Sample.options (Some ".vite/nette.json") None
               (Some (EntryString "/src/../main.js")) in
  let w1 := Sample.started (Sample.options None None (Some (EntryString "/src/../main.js"))) w in
  let pc2 := Sample.options (Some ".vite/nette.json") None (Some (EntryString EmptyString)) in
  let w2 := Sample.started (Sample.options None None (Some (EntryString EmptyString))) w in
  pluginConfig w1 = Some pc1
  /\ pluginConfig w2 = Some pc2
  /\ (exists c,
        config u w1 = (inr c, w1)
        /\ c_build_rollupOptions_input c = Some ["/main.js"]
        /\ ~ entry_as_stated w1 pc1 u c)
  /\ (exists c,
        config u w2 = (inr c, w2)
        /\ c_build_rollupOptions_input c = None
        /\ ~ entry_as_stated w2 pc2 u c).
Proof.
  cbv zeta. split; [reflexivity|]. split; [reflexivity|]. split.
  - eexists. split; [vm_compute; reflexivity|]. split; [reflexivity|].
    unfold entry_as_stated. simpl. intros (out & Hout & _ & Hi).
    specialize (Hi 0 _ eq_refl). simpl in Hi.
    inversion Hout; subst out. by inversion Hi.
  - eexists. split; [vm_compute; reflexivity|]. split; [reflexivity|].
    unfold entry_as_stated. simpl. by intros (out & Hout & _).
Qed.

(** ** The theorems at the sample process *)

Lemma dev_ready : ready Sample.dev 0 Sample.mockConfig Sample.stored ".vite/nette.json".
Proof. repeat split; reflexivity. Defined.

Lemma dev_writable :
  Fs.writable (fs Sample.dev) (info_place Sample.dev Sample.mockConfig ".vite/nette.json")
  = true.
Proof. vm_compute. reflexivity. Defined.

Lemma artifact_exists_iff_active_witness :
  ready Sample.dev 0 Sample.mockConfig Sample.stored ".vite/nette.json"
  /\ Fs.writable (fs Sample.dev)
       (info_place Sample.dev Sample.mockConfig ".vite/nette.json") = true
  /\ exists w,
       configureServer {| httpServer := Some 7 |} Sample.dev = (inr tt, w)
       /\ forall evs : list Event, exists w',
            emit_all 7 evs w = (inr tt, w')
            /\ (evs <> []
                \/ Fs.exists_at (fs Sample.dev)
                     (info_place Sample.dev Sample.mockConfig ".vite/nette.json") = false ->
                (Fs.exists_at (fs w')
                   (info_place Sample.dev Sample.mockConfig ".vite/nette.json") = true
                 <-> lifecycle evs = Active))
            /\ (Fs.exists_at (fs w')
                  (info_place Sample.dev Sample.mockConfig ".vite/nette.json") = false ->
                emit 7 Close w' = (inr tt, w')).
Proof.
  split; [exact dev_ready|]. split; [exact dev_writable|].
  exact (artifact_exists_iff_active Sample.dev 7 0 Sample.mockConfig Sample.stored
           ".vite/nette.json" dev_ready dev_writable).
Defined.

Lemma dev_server_url_format_witness :
  ready Sample.dev 0 Sample.mockConfig Sample.stored ".vite/nette.json"
  /\ Fs.writable (fs Sample.dev)
       (info_place Sample.dev Sample.mockConfig ".vite/nette.json") = true
  /\ (exists w w',
        configureServer {| httpServer := Some 7 |} Sample.dev = (inr tt, w)
        /\ emit 7 (Listening 80) w = (inr tt, w')
        /\ server_origin <$> heap w' !! 0 = Some (Some "http://localhost")
        /\ Fs.read_file (fs w') (info_place Sample.dev Sample.mockConfig ".vite/nette.json")
           = Some (artifact "http://localhost"))
  /\ (exists w w',
        configureServer {| httpServer := Some 7 |} Sample.dev = (inr tt, w)
        /\ emit 7 (Listening 5173) w = (inr tt, w')
        /\ server_origin <$> heap w' !! 0 = Some (Some "http://localhost:5173")
        /\ Fs.read_file (fs w') (info_place Sample.dev Sample.mockConfig ".vite/nette.json")
           = Some (artifact "http://localhost:5173")).
Proof.
  split; [exact dev_ready|]. split; [exact dev_writable|]. split.
  - exact (dev_server_url_format Sample.dev 7 0 Sample.mockConfig Sample.stored
             ".vite/nette.json" 80 dev_ready dev_writable).
  - exact (dev_server_url_format Sample.dev 7 0 Sample.mockConfig Sample.stored
             ".vite/nette.json" 5173 dev_ready dev_writable).
Defined.

Lemma advertised_host_priority_witness :
  (exists w w',
      configureServer {| httpServer := Some 7 |} Sample.dev = (inr tt, w)
      /\ emit 7 (Listening 5173) w = (inr tt, w')
      /\ server_origin <$> heap w' !! 0 = Some (Some "http://localhost:5173"))
  /\ (exists c,
        config (Sample.userConfig (Some (Sample.userServer (HostBool true) None)) None)
          Sample.dev = (inr c, Sample.dev)
        /\ c_server_cors c
           = CorsOptions [defaultAllowedOrigins; OriginString "http://localhost"])
  /\ advertised_host (Some "192.168.1.200") (HostBool true) = "192.168.1.200"
  /\ advertised_host (Some "0.0.0.0") (HostString "example.com") = "localhost"
  /\ advertised_host None (HostString "192.168.1.100") = "192.168.1.100"
  /\ advertised_host None (HostBool true) = "localhost"
  /\ advertised_host (Some EmptyString) (HostString "0.0.0.0") = "localhost"
  /\ advertised_host None HostUndefined = "localhost".
Proof.
  destruct advertised_host_priority as (H0 & Hcors & H1 & H2 & H3 & H4 & H5).
  split.
  { exact (H0 Sample.dev 7 0 Sample.mockConfig Sample.stored ".vite/nette.json" 5173%N
             dev_ready dev_writable). }
  split.
  { assert (Hex : exists c,
      config (Sample.userConfig (Some (Sample.userServer (HostBool true) None)) None)
        Sample.dev = (inr c, Sample.dev)).
    { eexists. vm_compute. reflexivity. }
    destruct Hex as [c Hc]. exists c. split; [exact Hc|].
    exact (Hcors Sample.dev Sample.dev Sample.stored
             (Sample.userConfig (Some (Sample.userServer (HostBool true) None)) None)
             c eq_refl eq_refl Hc). }
  split; [by apply H1|]. split; [apply H2|]. split; [by apply H3; [left|..]|].
  split; [by apply H4; left|]. split; [by apply H4; right|]. by apply H5; left.
Defined.

Lemma origin_equals_artifact_witness :
  ready Sample.dev 0 Sample.mockConfig Sample.stored ".vite/nette.json"
  /\ Fs.writable (fs Sample.dev)
       (info_place Sample.dev Sample.mockConfig ".vite/nette.json") = true
  /\ (exists w,
       configureServer {| httpServer := Some 7 |} Sample.dev = (inr tt, w)
       /\ (exists w',
            emit_all 7 [Listening 5173; Close; Listening 80] w = (inr tt, w')
            /\ server_origin <$> heap w' !! 0 = Some (Some "http://localhost")
            /\ Fs.read_file (fs w')
                 (info_place Sample.dev Sample.mockConfig ".vite/nette.json")
               = Some (artifact "http://localhost"))
       /\ (exists w',
            emit_all 7 [Listening 5173; Close] w = (inr tt, w')
            /\ server_origin <$> heap w' !! 0 = Some (Some "http://localhost:5173")
            /\ Fs.exists_at (fs w')
                 (info_place Sample.dev Sample.mockConfig ".vite/nette.json") = false))
  /\ (forall w1, heap (perform (Emit 7 Close) w1).2 = heap w1).
Proof.
  split; [exact dev_ready|]. split; [exact dev_writable|].
  destruct (origin_equals_artifact Sample.dev 7 0 Sample.mockConfig Sample.stored
              ".vite/nette.json" dev_ready dev_writable) as [(w & Hattach & Hruns) Honly].
  split.
  - exists w. split; [exact Hattach|]. split.
    + destruct (Hruns [Listening 5173; Close; Listening 80]) as (w' & Hrun & Hport & _).
      exists w'. split; [exact Hrun|].
      destruct (Hport 80%N eq_refl) as (Horigin & _ & Hactive & _).
      split; [exact Horigin | exact (Hactive eq_refl)].
    + destruct (Hruns [Listening 5173; Close]) as (w' & Hrun & Hport & _).
      exists w'. split; [exact Hrun|].
      destruct (Hport 5173%N eq_refl) as (Horigin & _ & _ & Hgone & _).
      split; [exact Horigin | exact (Hgone eq_refl)].
  - intros w1. apply Honly. intros s port. discriminate.
Defined.

(** C4 as stated fails: after a [listening] event on port 5173 and a
    [close] event the origin is still [http://localhost:5173], but the
    [close] callback has removed the artifact, so there is no [devServer]
    value for the origin to be equal to. *)
Lemma origin_outlives_artifact :
  let place := info_place Sample.dev Sample.mockConfig ".vite/nette.json" in
  let w := (configureServer {| httpServer := Some 7 |} Sample.dev).2 in
  let w' := (emit_all 7 [Listening 5173; Close] w).2 in
  (configureServer {| httpServer := Some 7 |} Sample.dev).1 = inr tt
  /\ (emit_all 7 [Listening 5173; Close] w).1 = inr tt
  /\ server_origin <$> heap w' !! 0 = Some (Some "http://localhost:5173")
  /\ Fs.exists_at (fs w') place = false
  /\ Fs.read_file (fs w') place = None
  /\ ~ origin_equals_artifact_at_all_times w 7 0 place.
Proof.
  cbv zeta. split; [vm_compute; reflexivity|]. split; [vm_compute; reflexivity|].
  split; [vm_compute; reflexivity|]. split; [vm_compute; reflexivity|].
  split; [vm_compute; reflexivity|].
  intros Hall. destruct (Hall [Listening 5173; Close]) as (url & _ & Hread).
  - exists 5173%N. by left.
  - assert (Hnone : Fs.read_file
              (fs (emit_all 7 [Listening 5173; Close]
                     (configureServer {| httpServer := Some 7 |} Sample.dev).2).2)
              (info_place Sample.dev Sample.mockConfig ".vite/nette.json") = None)
      by (vm_compute; reflexivity).
    rewrite Hnone in Hread. discriminate.
Qed.

Lemma dev_nested_ready :
  ready Sample.dev_nested 0 Sample.mockConfig Sample.stored_nested
    "deep/nested/path/info.json".
Proof. repeat split; reflexivity. Defined.

Lemma dev_nested_writable :
  Fs.writable (fs Sample.dev_nested)
    (info_place Sample.dev_nested Sample.mockConfig "deep/nested/path/info.json") = true.
Proof. vm_compute. reflexivity. Defined.

Lemma artifact_written_as_json_witness :
  ready Sample.dev_nested 0 Sample.mockConfig Sample.stored_nested
    "deep/nested/path/info.json"
  /\ Fs.writable (fs Sample.dev_nested)
       (info_place Sample.dev_nested Sample.mockConfig "deep/nested/path/info.json") = true
  /\ Fs.exists_at (fs Sample.dev_nested) ["home"; "app"; "www"; "assets"; "deep"] = false
  /\ exists w w',
       configureServer {| httpServer := Some 7 |} Sample.dev_nested = (inr tt, w)
       /\ handlers w
          = [OnListening 7 "/home/app/www/assets/deep/nested/path/info.json";
             OnClose 7 "/home/app/www/assets/deep/nested/path/info.json";
             OnSigint 7]
       /\ emit 7 (Listening 5173) w = (inr tt, w')
       /\ Fs.read_file (fs w')
            ["home"; "app"; "www"; "assets"; "deep"; "nested"; "path"; "info.json"]
          = Some ("{" +:+ Json.newline +:+ Json.tab
                  +:+ Json.quote "devServer" +:+ ": " +:+ Json.quote "http://localhost:5173"
                  +:+ Json.newline +:+ "}")
       /\ (forall k, k < 8 ->
             exists es,
               Fs.lookup (fs w')
                 (take k ["home"; "app"; "www"; "assets"; "deep"; "nested"; "path"; "info.json"])
               = inr (Fs.Dir es)).
Proof.
  split; [exact dev_nested_ready|]. split; [exact dev_nested_writable|].
  split; [reflexivity|].
  exact (proj1 (artifact_written_as_json Sample.dev_nested 7 0 Sample.mockConfig
                  Sample.stored_nested "deep/nested/path/info.json" 5173
                  dev_nested_ready dev_nested_writable)).
Defined.

Lemma build_boot_builds_only : builds_only (Sample.boot Sample.tree Sample.buildConfig).
Proof.
  split; [reflexivity|]. intros r rc H.
  change (heap (Sample.boot Sample.tree Sample.buildConfig))
    with ({[ 0 := Sample.buildConfig ]} : gmap nat ResolvedConfig) in H.
  apply lookup_singleton_Some in H as [_ <-]. reflexivity.
Defined.

Lemma coordinator_attaches_only_when_serving_witness :
  builds_only (Sample.boot Sample.tree Sample.buildConfig)
  /\ (let w := perform_all
                 [CallFactory (Sample.options None None None);
                  CallConfigResolved 0;
                  CallConfigureServer {| httpServer := Some 7 |};
                  Emit 7 (Listening 5173);
                  Emit 7 Close]
                 (Sample.boot Sample.tree Sample.buildConfig) in
      fs w = Sample.tree
      /\ heap w = {[ 0 := Sample.buildConfig ]}
      /\ handlers w = [])
  /\ configureServer {| httpServer := Some 7 |} Sample.dev
     = (inr tt,
        set_handlers
          (handlers Sample.dev
           ++ [OnListening 7 (Path.resolve (cwd Sample.dev)
                                [root Sample.mockConfig; build_outDir Sample.mockConfig;
                                 ".vite/nette.json"]);
               OnClose 7 (Path.resolve (cwd Sample.dev)
                            [root Sample.mockConfig; build_outDir Sample.mockConfig;
                             ".vite/nette.json"]);
               OnSigint 7])
          Sample.dev).
Proof.
  destruct coordinator_attaches_only_when_serving as (_ & Hserve & Hbuild).
  split; [exact build_boot_builds_only|]. split.
  - exact (Hbuild _ _ build_boot_builds_only).
  - exact (Hserve Sample.dev 7 0 Sample.mockConfig Sample.stored ".vite/nette.json"
             eq_refl eq_refl eq_refl eq_refl eq_refl).
Defined.

Lemma config_fails_iff_www_missing_witness :
  let w := Sample.started (Sample.options None None None)
             (Sample.boot Sample.tree_bare Sample.mockConfig) in
  let u := Sample.userConfig None None in
  pluginConfig w = Some Sample.stored
  /\ uc_build u ≫= ub_outDir = None
  /\ Fs.exists_at (fs w) (fs_path w (Path.join [cwd w; "www"])) = false
  /\ (config u w).1 = inl (Error (output_directory_message "/home/app/www/assets")).
Proof.
  cbv zeta.
  split; [reflexivity|]. split; [reflexivity|]. split; [reflexivity|].
  destruct (config_fails_iff_www_missing
              (Sample.started (Sample.options None None None)
                 (Sample.boot Sample.tree_bare Sample.mockConfig))
              Sample.stored (Sample.userConfig None None) eq_refl)
    as (Hiff & Hmsg & _ & _).
  destruct (proj2 Hiff (conj eq_refl eq_refl)) as [e He].
  rewrite He. f_equal. exact (Hmsg e He).
Defined.

Lemma allowedHosts_follows_advertised_host_witness :
  let w := Sample.started (Sample.options None (Some "192.168.1.200") None)
             (Sample.boot Sample.tree Sample.mockConfig) in
  let pc := Sample.options (Some ".vite/nette.json") (Some "192.168.1.200") None in
  let u := Sample.userConfig (Some (Sample.userServer (HostBool true) None)) None in
  pluginConfig w = Some pc
  /\ uc_server u ≫= us_allowedHosts = None
  /\ exists c,
       config u w = (inr c, w)
       /\ c_server_allowedHosts c = Some (AllowedList ["192.168.1.200"]).
Proof.
  cbv zeta. split; [reflexivity|]. split; [reflexivity|].
  eexists. split; [vm_compute; reflexivity|].
  refine (proj2 (proj2
    (allowedHosts_follows_advertised_host
       (Sample.started (Sample.options None (Some "192.168.1.200") None)
          (Sample.boot Sample.tree Sample.mockConfig))
       _ (Sample.options (Some ".vite/nette.json") (Some "192.168.1.200") None)
       (Sample.userConfig (Some (Sample.userServer (HostBool true) None)) None)
       _ eq_refl eq_refl _)) "192.168.1.200" eq_refl _ _ _);
    [vm_compute; reflexivity | done | done | done].
Defined.

Lemma entry_resolved_against_root_witness :
  let w := Sample.started
             (Sample.options None None (Some (EntryArray ["src/main.js"; "/abs/app.js"])))
             (Sample.boot Sample.tree Sample.mockConfig) in
  let pc := Sample.options (Some ".vite/nette.json") None
              (Some (EntryArray ["src/main.js"; "/abs/app.js"])) in
  let u := Sample.userConfig None None in
  pluginConfig w = Some pc
  /\ starts_with_slash (cwd w) = true
  /\ exists c,
       config u w = (inr c, w)
       /\ exists out,
            c_build_rollupOptions_input c = Some out
            /\ length out = 2
            /\ out !! 0 = Some "/home/app/assets/src/main.js"
            /\ out !! 1 = Some "/abs/app.js".
Proof.
  intros w pc u. split; [reflexivity|]. split; [reflexivity|].
  assert (Hex : exists c, config u w = (inr c, w)).
  { eexists. vm_compute. reflexivity. }
  destruct Hex as [c Hc]. exists c. split; [exact Hc|].
  destruct (entry_resolved_against_root w w pc u c eq_refl eq_refl Hc)
    as (_ & _ & Harr & _).
  destruct (Harr _ eq_refl) as (out & Hout & Hlen & Hi).
  exists out. split; [exact Hout|]. split; [exact Hlen|].
  split; [exact (Hi 0 _ eq_refl) | exact (Hi 1 _ eq_refl)].
Defined.

(** ** The scenarios of the repository's tests and of the specification *)

Example test_default_url :
  Sample.outcome (Sample.assets ++ [".vite"; "nette.json"])
    (Sample.session (Sample.options None None None)
       (Sample.mock false (HostString "localhost")) [Listening 5173])
  = (Some (artifact "http://localhost:5173"), Some "http://localhost:5173").
Proof. vm_compute. reflexivity. Qed.

Example test_remove_on_close :
  let w := Sample.session (Sample.options None None None)
             (Sample.mock false (HostString "localhost")) [Listening 5173; Close] in
  Fs.exists_at (fs w) (Sample.assets ++ [".vite"; "nette.json"]) = false
  /\ Fs.exists_at (fs w) (Sample.assets ++ [".vite"]) = true.
Proof. vm_compute. split; reflexivity. Qed.

Example test_https :
  Sample.outcome (Sample.assets ++ [".vite"; "nette.json"])
    (Sample.session (Sample.options None None None)
       (Sample.mock true (HostString "localhost")) [Listening 3000])
  = (Some (artifact "https://localhost:3000"), Some "https://localhost:3000").
Proof. vm_compute. reflexivity. Qed.

Example test_custom_host :
  Sample.outcome (Sample.assets ++ [".vite"; "nette.json"])
    (Sample.session (Sample.options None None None)
       (Sample.mock false (HostString "192.168.1.100")) [Listening 5173])
  = (Some (artifact "http://192.168.1.100:5173"), Some "http://192.168.1.100:5173").
Proof. vm_compute. reflexivity. Qed.

Example test_custom_host_from_options :
  Sample.outcome (Sample.assets ++ [".vite"; "nette.json"])
    (Sample.session (Sample.options None (Some "192.168.1.200") None)
       (Sample.mock false (HostBool true)) [Listening 5173])
  = (Some (artifact "http://192.168.1.200:5173"), Some "http://192.168.1.200:5173").
Proof. vm_compute. reflexivity. Qed.

Example test_host_true :
  Sample.outcome (Sample.assets ++ [".vite"; "nette.json"])
    (Sample.session (Sample.options None None None)
       (Sample.mock false (HostBool true)) [Listening 5173])
  = (Some (artifact "http://localhost:5173"), Some "http://localhost:5173").
Proof. vm_compute. reflexivity. Qed.

Example test_host_all_interfaces :
  Sample.outcome (Sample.assets ++ [".vite"; "nette.json"])
    (Sample.session (Sample.options None None None)
       (Sample.mock false (HostString "0.0.0.0")) [Listening 5173])
  = (Some (artifact "http://localhost:5173"), Some "http://localhost:5173").
Proof. vm_compute. reflexivity. Qed.

Example test_port_80 :
  Sample.outcome (Sample.assets ++ [".vite"; "nette.json"])
    (Sample.session (Sample.options None None None)
       (Sample.mock false (HostString "localhost")) [Listening 80])
  = (Some (artifact "http://localhost"), Some "http://localhost").
Proof. vm_compute. reflexivity. Qed.

Example test_custom_info_file :
  Sample.outcome (Sample.assets ++ ["custom"; "path"; "info.json"])
    (Sample.session (Sample.options (Some "custom/path/info.json") None None)
       (Sample.mock false (HostString "localhost")) [Listening 5173])
  = (Some (artifact "http://localhost:5173"), Some "http://localhost:5173").
Proof. vm_compute. reflexivity. Qed.

Example test_nested_directories :
  let w := Sample.session (Sample.options (Some "deep/nested/path/info.json") None None)
             (Sample.mock false (HostString "localhost")) [Listening 5173] in
  Fs.exists_at (fs w) (Sample.assets ++ ["deep"; "nested"; "path"; "info.json"]) = true
  /\ Fs.exists_at (fs w) (Sample.assets ++ ["deep"; "nested"; "path"]) = true.
Proof. vm_compute. split; reflexivity. Qed.

Example spec_https_example :
  Sample.outcome (Sample.assets ++ [".vite"; "nette.json"])
    (Sample.session (Sample.options None None None)
       (Sample.mock true (HostString "example.com")) [Listening 3000])
  = (Some (artifact "https://example.com:3000"), Some "https://example.com:3000")
  /\ exists c,
       (config
          (Sample.userConfig
             (Some {| us_https := true; us_host := HostString "example.com";
                      us_cors := None; us_allowedHosts := None |})
             None)
          Sample.dev).1 = inr c
       /\ c_server_cors c
          = CorsOptions [defaultAllowedOrigins; OriginString "https://example.com"].
Proof.
  split; [vm_compute; reflexivity|].
  eexists. split; [vm_compute; reflexivity | reflexivity].
Qed.

Example artifact_text :
  artifact "http://localhost:5173"
  = "{" +:+ Json.newline +:+ Json.tab +:+ dquote +:+ "devServer" +:+ dquote +:+ ": "
    +:+ dquote +:+ "http://localhost:5173" +:+ dquote +:+ Json.newline +:+ "}".
Proof. vm_compute. reflexivity. Qed.

(** ** The earlier revision *)

(** The earlier [listening] callback keeps port 80 in the URL and does
    not replace the sentinel; it leaves the timer of the banner behind. *)
Example legacy_listening :
  let w := perform_all [CallConfigureServer {| httpServer := Some 7 |}] Sample.dev in
  let p := (Legacy.on_listening 80 "/home/app/www/assets/.vite/nette.json"
              (Legacy.process_of w)).2 in
  server_origin <$> heap (Legacy.world p) !! 0 = Some (Some "http://localhost:80")
  /\ Legacy.timers p = [Legacy.BannerTimer 200]
  /\ server_origin <$>
       heap (Legacy.world
               (Legacy.on_listening 5173 "/home/app/www/assets/.vite/nette.json"
                  (Legacy.process_of
                     (set_heap {[ 0 := set_origin EmptyString
                                          {| command := serve; root := "/home/app";
                                             build_outDir := "/home/app/www/assets";
                                             server_https := false;
                                             server_host := HostString "0.0.0.0";
                                             server_origin := None |} ]} w))).2) !! 0
     = Some (Some "http://0.0.0.0:5173").
Proof. vm_compute. repeat split; reflexivity. Qed.

End Claims.

(* ===================================================================== *)
(** * What the file-system calls leave alone *)
(* ===================================================================== *)

Module FsFrame.
Import Fs FsFacts.

Implicit Types (n c : node) (es : gmap string node) (p q : list string) (s t : string).

Lemma read_file_nil n : read_file n [] = match n with File d => Some d | Dir _ => None end.
Proof. by destruct n. Qed.

Lemma read_file_cons es t q :
  read_file (Dir es) (t :: q)
  = match es !! t with None => None | Some c => read_file c q end.
Proof. unfold read_file. simpl. by destruct (es !! t). Qed.

Lemma exists_at_cons es t q :
  exists_at (Dir es) (t :: q)
  = match es !! t with None => false | Some c => exists_at c q end.
Proof. unfold exists_at. simpl. by destruct (es !! t). Qed.

Lemma read_file_empty_dir q : read_file empty_dir q = None.
Proof. destruct q; [done|]. unfold empty_dir. by rewrite read_file_cons, lookup_empty. Qed.

Lemma read_file_below_file d q : q <> [] -> read_file (File d) q = None.
Proof. by destruct q. Qed.

Lemma exists_at_below_file d q : q <> [] -> exists_at (File d) q = false.
Proof. by destruct q. Qed.

(** ** [mkdir_p] *)

(** Making directories changes the text of no file. *)
Lemma mkdir_p_read n p n' q :
  mkdir_p n p = inr n' -> read_file n' q = read_file n q.
Proof.
  revert n n' q. induction p as [|t p IH]; intros n n' q H; simpl in H.
  - destruct n; [done|]. by inversion H.
  - destruct n as [|es]; [done|].
    destruct (mkdir_p (default empty_dir (es !! t)) p) as [e|c'] eqn:E; [done|].
    inversion H; subst. destruct q as [|t' q]; [done|].
    rewrite !read_file_cons. destruct (decide (t' = t)) as [->|Hne].
    + rewrite lookup_insert_eq. rewrite (IH _ _ q E).
      destruct (es !! t); [done|]. apply read_file_empty_dir.
    + by rewrite lookup_insert_ne.
Qed.

(** What was there before [mkdir_p] is there after it. *)
Lemma mkdir_p_exists n p n' q :
  mkdir_p n p = inr n' -> exists_at n q = true -> exists_at n' q = true.
Proof.
  revert n n' q. induction p as [|t p IH]; intros n n' q H Hq; simpl in H.
  - destruct n; [done|]. by inversion H; subst.
  - destruct n as [|es]; [done|].
    destruct (mkdir_p (default empty_dir (es !! t)) p) as [e|c'] eqn:E; [done|].
    inversion H; subst. destruct q as [|t' q]; [done|].
    rewrite exists_at_cons in *. destruct (decide (t' = t)) as [->|Hne].
    + rewrite lookup_insert_eq. destruct (es !! t) as [c|]; [|done].
      by apply (IH _ _ q E).
    + by rewrite lookup_insert_ne.
Qed.

(** ** [write_file] *)

Lemma write_file_shape es t p data n' :
  write_file (Dir es) (t :: p) data = inr n' ->
  (p = [] /\ n' = Dir (<[t := File data]> es)
   /\ (es !! t = None \/ exists d, es !! t = Some (File d)))
  \/ (p <> [] /\ exists c c', es !! t = Some c /\ write_file c p data = inr c'
                              /\ n' = Dir (<[t := c']> es)).
Proof.
  intros H. destruct p as [|t2 p].
  - simpl in H. left. destruct (es !! t) as [[d|]|]; try done; inversion H; eauto.
  - rewrite write_file_cons in H by done. right. split; [done|].
    destruct (es !! t) as [c|]; [|done].
    destruct (write_file c (t2 :: p) data) as [e|c'] eqn:E'; [done|].
    inversion H. eauto.
Qed.

(** Writing a file changes the text of no other file. *)
Lemma write_file_read n p data n' q :
  write_file n p data = inr n' -> q <> p -> read_file n' q = read_file n q.
Proof.
  revert n n' q. induction p as [|t p IH]; intros n n' q H Hne; [done|].
  destruct n as [|es]; [by destruct p|].
  destruct (write_file_shape _ _ _ _ _ H)
    as [(-> & -> & E)|(Hp & c & c' & E & E' & ->)].
  - destruct q as [|t' q]; [done|]. rewrite !read_file_cons.
    destruct (decide (t' = t)) as [->|Ht]; [|by rewrite lookup_insert_ne].
    rewrite lookup_insert_eq. rewrite read_file_below_file by congruence.
    destruct E as [->|[d ->]]; [done|]. rewrite read_file_below_file; [done|congruence].
  - destruct q as [|t' q]; [done|]. rewrite !read_file_cons.
    destruct (decide (t' = t)) as [->|Ht]; [|by rewrite lookup_insert_ne].
    rewrite lookup_insert_eq, E. apply (IH _ _ _ E'). congruence.
Qed.

(** What was there before a file is written is there after it. *)
Lemma write_file_exists n p data n' q :
  write_file n p data = inr n' -> exists_at n q = true -> exists_at n' q = true.
Proof.
  revert n n' q. induction p as [|t p IH]; intros n n' q H Hq; [done|].
  destruct n as [|es]; [by destruct p|].
  destruct (write_file_shape _ _ _ _ _ H)
    as [(-> & -> & E)|(Hp & c & c' & E & E' & ->)].
  - destruct q as [|t' q]; [done|]. rewrite exists_at_cons in *.
    destruct (decide (t' = t)) as [->|Ht]; [|by rewrite lookup_insert_ne].
    rewrite lookup_insert_eq. destruct E as [E|[d E]]; rewrite E in Hq; [done|].
    by destruct q.
  - destruct q as [|t' q]; [done|]. rewrite exists_at_cons in *.
    destruct (decide (t' = t)) as [->|Ht]; [|by rewrite lookup_insert_ne].
    rewrite lookup_insert_eq. rewrite E in Hq. by apply (IH _ _ _ E').
Qed.

(** Writing the text a file holds already changes nothing. *)
Lemma write_file_same n p data :
  p <> [] -> lookup n p = inr (File data) -> write_file n p data = inr n.
Proof.
  revert n. induction p as [|t p IH]; intros n Hp H; [done|].
  destruct n as [|es]; [done|]. simpl in H.
  destruct (es !! t) as [c|] eqn:E; [|done].
  destruct p as [|t2 p].
  - simpl in *. inversion H; subst. rewrite E. by rewrite insert_id.
  - rewrite write_file_cons by done. rewrite E, (IH c) by done. by rewrite insert_id.
Qed.

(** ** [rm_force] *)

Lemma rm_force_shape es t p n' :
  rm_force (Dir es) (t :: p) = inr n' ->
  n' = Dir es
  \/ (p = [] /\ n' = Dir (delete t es) /\ exists d, es !! t = Some (File d))
  \/ (p <> [] /\ exists c c', es !! t = Some c /\ rm_force c p = inr c'
                              /\ n' = Dir (<[t := c']> es)).
Proof.
  intros H. simpl in H. destruct (es !! t) as [c|] eqn:E; [|left; by inversion H].
  destruct p as [|t2 p].
  - destruct c as [d|]; [|done]. inversion H. right. left. eauto.
  - destruct (rm_force c (t2 :: p)) as [e|c'] eqn:E'; [done|].
    inversion H. right. right. split; [done|]. eauto.
Qed.

(** Removing a file changes the text of no other file. *)
Lemma rm_force_read n p n' q :
  rm_force n p = inr n' -> q <> p -> read_file n' q = read_file n q.
Proof.
  revert n n' q. induction p as [|t p IH]; intros n n' q H Hne; [done|].
  destruct n as [|es]; [done|].
  destruct (rm_force_shape _ _ _ _ H)
    as [->|[(-> & -> & d & E)|(Hp & c & c' & E & E' & ->)]]; [done| |].
  - destruct q as [|t' q]; [done|]. rewrite !read_file_cons.
    destruct (decide (t' = t)) as [->|Ht].
    + rewrite lookup_delete_eq, E. rewrite read_file_below_file; [done|congruence].
    + by rewrite lookup_delete_ne.
  - destruct q as [|t' q]; [done|]. rewrite !read_file_cons.
    destruct (decide (t' = t)) as [->|Ht].
    + rewrite lookup_insert_eq, E. apply (IH _ _ _ E'). congruence.
    + by rewrite lookup_insert_ne.
Qed.

(** Removing a file removes nothing else. *)
Lemma rm_force_exists n p n' q :
  rm_force n p = inr n' -> q <> p -> exists_at n' q = exists_at n q.
Proof.
  revert n n' q. induction p as [|t p IH]; intros n n' q H Hne; [done|].
  destruct n as [|es]; [done|].
  destruct (rm_force_shape _ _ _ _ H)
    as [->|[(-> & -> & d & E)|(Hp & c & c' & E & E' & ->)]]; [done| |].
  - destruct q as [|t' q]; [done|]. rewrite !exists_at_cons.
    destruct (decide (t' = t)) as [->|Ht].
    + rewrite lookup_delete_eq, E. rewrite exists_at_below_file; [done|congruence].
    + by rewrite lookup_delete_ne.
  - destruct q as [|t' q]; [done|]. rewrite !exists_at_cons.
    destruct (decide (t' = t)) as [->|Ht].
    + rewrite lookup_insert_eq, E. apply (IH _ _ _ E'). congruence.
    + by rewrite lookup_insert_ne.
Qed.

(** A file made where nothing was, then removed: the tree is the one
    before. *)
Lemma write_rm_round n p data n' :
  lookup n p = inl ENOENT -> write_file n p data = inr n' -> rm_force n' p = inr n.
Proof.
  revert n n'. induction p as [|t p IH]; intros n n' Hno H; [done|].
  destruct n as [|es]; [done|]. simpl in Hno.
  destruct p as [|t2 p].
  - simpl in H. destruct (es !! t) as [c|] eqn:E; [done|].
    inversion H; subst. simpl. rewrite lookup_insert_eq.
    rewrite delete_insert_eq. by rewrite delete_id.
  - rewrite write_file_cons in H by done.
    destruct (es !! t) as [c|] eqn:E; [|done].
    destruct (write_file c (t2 :: p) data) as [e|c'] eqn:E'; [done|].
    inversion H; subst. rewrite rm_force_cons by done.
    rewrite lookup_insert_eq, (IH _ _ Hno E').
    by rewrite insert_insert_eq, insert_id.
Qed.

(** Writing a file again replaces what the first writing left. *)
Lemma write_file_twice n p d1 d2 n' :
  write_file n p d1 = inr n' -> write_file n' p d2 = write_file n p d2.
Proof.
  revert n n'. induction p as [|t p IH]; intros n n' H; [done|].
  destruct n as [|es]; [by destruct p|].
  destruct (write_file_shape _ _ _ _ _ H)
    as [(-> & -> & E)|(Hp & c & c' & E & E' & ->)].
  - simpl. rewrite lookup_insert_eq, insert_insert_eq.
    by destruct E as [->|[d ->]].
  - rewrite !write_file_cons by done. rewrite lookup_insert_eq, E.
    rewrite (IH _ _ E'). destruct (write_file c p d2); [done|].
    by rewrite insert_insert_eq.
Qed.

(** Making the directory of a place leaves the place empty. *)
Lemma mkdir_p_absent n p s n1 :
  writable n (p ++ [s]) = true -> lookup n (p ++ [s]) = inl ENOENT ->
  mkdir_p n p = inr n1 ->
  writable n1 (p ++ [s]) = true /\ lookup n1 (p ++ [s]) = inl ENOENT.
Proof.
  intros Hw Hno Hmk.
  destruct (mkdir_p_writable _ _ _ Hw) as (n2 & Hmk2 & Hw2).
  rewrite Hmk in Hmk2. inversion Hmk2; subst n2. split; [done|].
  destruct (writable_lookup _ _ Hw2) as [[d Hd]|]; [|done].
  pose proof (mkdir_p_read _ _ _ (p ++ [s]) Hmk) as Hread.
  unfold read_file in Hread. by rewrite Hd, Hno in Hread.
Qed.

(** A file that has been written is there. *)
Lemma write_file_lookup n p data n' :
  write_file n p data = inr n' -> lookup n' p = inr (File data).
Proof.
  revert n n'. induction p as [|t p IH]; intros n n' H; [done|].
  destruct n as [|es]; [by destruct p|].
  destruct (write_file_shape _ _ _ _ _ H)
    as [(-> & -> & E)|(Hp & c & c' & E & E' & ->)]; simpl; rewrite lookup_insert_eq.
  - done.
  - by eapply IH.
Qed.

End FsFrame.

(* ===================================================================== *)
(** * The callbacks, with what they write *)
(* ===================================================================== *)

Module CallbackFacts.
Import Str Data Monad Plugin Spec Setting.
Import StrFacts PathFacts FsFacts FsFrame PluginFacts CoordinatorFacts.

Lemma parent_snoc (p : list string) (s : string) : parent (p ++ [s]) = p.
Proof. unfold parent. apply removelast_last. Qed.

Lemma parent_split (segs : list string) :
  segs <> [] -> exists s, segs = parent segs ++ [s].
Proof.
  intros H. destruct (exists_last H) as (p & s & ->).
  exists s. by rewrite parent_snoc.
Qed.

(** ** What stays as it was *)

Lemma kept_refl (segs : list string) (n : Fs.node) : kept_apart_from segs n n.
Proof. by intros q _. Qed.

Lemma kept_trans (segs : list string) (n1 n2 n3 : Fs.node) :
  kept_apart_from segs n1 n2 -> kept_apart_from segs n2 n3 -> kept_apart_from segs n1 n3.
Proof.
  intros H12 H23 q Hq. destruct (H12 q Hq) as [R1 E1], (H23 q Hq) as [R2 E2].
  split; [congruence | auto].
Qed.

Lemma kept_mkdir (segs p : list string) (n n' : Fs.node) :
  Fs.mkdir_p n p = inr n' -> kept_apart_from segs n n'.
Proof.
  intros H q _. split; [by eapply mkdir_p_read | by eapply mkdir_p_exists].
Qed.

Lemma kept_write (segs : list string) (data : string) (n n' : Fs.node) :
  Fs.write_file n segs data = inr n' -> kept_apart_from segs n n'.
Proof.
  intros H q Hq. split; [by eapply write_file_read | by eapply write_file_exists].
Qed.

Lemma kept_rm (segs : list string) (n n' : Fs.node) :
  Fs.rm_force n segs = inr n' -> kept_apart_from segs n n'.
Proof.
  intros H q Hq. split; [by eapply rm_force_read|].
  by rewrite (rm_force_exists _ _ _ _ H Hq).
Qed.

(** ** [writeJson], step by step *)

(** On a writable place: the directory is made (which changes nothing
    when it is there), then the file is written. *)
Lemma writeJson_run (w : World) (segs : list string) (data : list (string * string)) :
  Forall Path.clean segs -> Fs.writable (fs w) segs = true ->
  exists n1 n',
    Fs.mkdir_p (fs w) (parent segs) = inr n1
    /\ Fs.write_file n1 segs (Json.stringify_object Json.tab data) = inr n'
    /\ writeJson (Path.render segs) data w = (inr tt, set_fs n' w)
    /\ Fs.lookup n' segs = inr (Fs.File (Json.stringify_object Json.tab data))
    /\ Fs.writable n' segs = true.
Proof.
  intros Hclean Hw.
  induction segs as [|s p _] using rev_ind; [by simpl in Hw|].
  pose proof Hclean as Hall.
  apply Forall_app in Hclean as [Hp Hs]. rewrite Forall_singleton in Hs.
  rewrite parent_snoc.
  unfold writeJson. rewrite dirname_render by done.
  unfold bind at 1. unfold existsSync at 1. rewrite (fs_path_render w p Hp).
  destruct (Fs.exists_at (fs w) p) eqn:Hex; simpl negb; cbv iota.
  - destruct (writable_exists_parent _ _ _ Hw Hex) as [es Hdir].
    destruct (write_file_writable _ _ _ _ (Json.stringify_object Json.tab data) Hw Hdir)
      as (n' & Hwr & Hlk & Hw').
    exists (fs w), n'. split; [by eapply mkdir_p_existing|]. split; [done|].
    split; [|done].
    unfold bind, ret, writeFileSync, fs_call.
    rewrite (fs_path_render w _ Hall). by rewrite Hwr.
  - destruct (mkdir_p_writable _ _ _ Hw) as (n1 & Hmk & Hw1).
    destruct (mkdir_p_lookup _ _ _ Hmk) as [es Hdir].
    destruct (write_file_writable _ _ _ _ (Json.stringify_object Json.tab data) Hw1 Hdir)
      as (n' & Hwr & Hlk & Hw').
    exists n1, n'. split; [done|]. split; [done|]. split; [|done].
    unfold bind, mkdirSync_recursive, writeFileSync, fs_call.
    rewrite (fs_path_render w p Hp), Hmk.
    rewrite (fs_path_render (set_fs n1 w) _ Hall). simpl fs. by rewrite Hwr.
Qed.

(** Elsewhere: an error of the file system, after which at most
    directories have been made. *)
Lemma writeJson_fails (w : World) (segs : list string) (data : list (string * string)) :
  Forall Path.clean segs -> Fs.writable (fs w) segs = false ->
  exists e n1,
    writeJson (Path.render segs) data w = (inl (FsError e), set_fs n1 w)
    /\ (n1 = fs w \/ Fs.mkdir_p (fs w) (parent segs) = inr n1).
Proof.
  intros Hclean Hw.
  induction segs as [|s p _] using rev_ind.
  - exists Fs.EISDIR, (fs w). rewrite set_fs_same. split; [reflexivity | by left].
  - pose proof Hclean as Hall.
    apply Forall_app in Hclean as [Hp Hs]. rewrite Forall_singleton in Hs.
    rewrite parent_snoc.
    destruct (not_writable_fails _ _ _ (Json.stringify_object Json.tab data) Hw)
      as [Hthere Hmissing].
    unfold writeJson. rewrite dirname_render by done.
    unfold bind at 1. unfold existsSync at 1. rewrite (fs_path_render w p Hp).
    destruct (Fs.exists_at (fs w) p) eqn:Hex; simpl negb; cbv iota.
    + destruct (Hthere eq_refl) as [e He]. exists e, (fs w).
      rewrite set_fs_same. split; [|by left].
      unfold bind, ret, writeFileSync, fs_call.
      rewrite (fs_path_render w _ Hall). by rewrite He.
    + destruct (Hmissing eq_refl) as [[e He]|(n1 & e & Hmk & He)].
      * exists e, (fs w). rewrite set_fs_same. split; [|by left].
        unfold bind, mkdirSync_recursive, fs_call.
        by rewrite (fs_path_render w p Hp), He.
      * exists e, n1. split; [|by right].
        unfold bind, mkdirSync_recursive, writeFileSync, fs_call.
        rewrite (fs_path_render w p Hp), Hmk.
        rewrite (fs_path_render (set_fs n1 w) _ Hall). simpl fs. by rewrite He.
Qed.

Section Callbacks.
Variables (r : nat) (rc : ResolvedConfig) (pc : PluginConfig).
Variables (segs : list string) (h0 : gmap nat ResolvedConfig).
Hypothesis segs_clean : Forall Path.clean segs.
Hypothesis h0_r : h0 !! r = Some rc.

#[local] Abbreviation cinv := (callbacks_inv r rc pc segs h0).

Lemma coordinator_callbacks (server : nat) (le : option Event) (lp : option N)
    (w : World) :
  coordinator_inv server r rc pc segs h0 le lp w -> cinv lp w.
Proof. by intros (_ & Hr & Hp & Hw & Hheap & _). Qed.

(** The [listening] callback, whatever is registered. *)
Lemma on_listening_run (lp : option N) (port : N) (w : World) :
  cinv lp w ->
  exists n1 n',
    Fs.mkdir_p (fs w) (parent segs) = inr n1
    /\ Fs.write_file n1 segs (artifact (advertised_url rc pc port)) = inr n'
    /\ on_listening port (Path.render segs) w
       = (inr tt, set_heap (origin_written r rc pc h0 (Some port)) (set_fs n' w))
    /\ Fs.read_file n' segs = Some (artifact (advertised_url rc pc port))
    /\ cinv (Some port) (set_heap (origin_written r rc pc h0 (Some port)) (set_fs n' w)).
Proof using segs_clean h0_r.
  intros (Hr & Hp & Hw & Hheap).
  destruct (origin_written_lookup r rc pc h0 h0_r lp) as (rc' & Hlk & Hhttps & Hhost & Hset).
  destruct (writeJson_run w segs [("devServer", advertised_url rc pc port)] segs_clean Hw)
    as (n1 & n' & Hmk & Hwr & Hwj & Hfile & Hw').
  exists n1, n'. split; [done|]. split; [done|]. split; [|split].
  - unfold on_listening.
    rewrite (bind_ok _ _ w w rc') by (apply (the_resolvedConfig_ok w r rc'); congruence).
    rewrite (bind_ok _ _ w w pc) by by apply the_pluginConfig_ok.
    rewrite Hhttps, Hhost. cbv zeta.
    rewrite host_refines. cbn [template].
    rewrite url_refines. fold (advertised_url rc pc port).
    rewrite (bind_ok _ _ _ _ _ Hwj).
    unfold bind, gets, defined, modify. simpl. rewrite Hr. simpl.
    rewrite Hheap. by rewrite (origin_written_alter r rc pc h0 h0_r).
  - unfold Fs.read_file. by rewrite Hfile.
  - by repeat split.
Qed.

(** Where the place is not writable the callback throws before the
    origin is set. *)
Lemma on_listening_fails (lp : option N) (port : N) (w : World) :
  resolvedConfig w = Some r -> pluginConfig w = Some pc ->
  heap w = origin_written r rc pc h0 lp ->
  Fs.writable (fs w) segs = false ->
  exists e n1,
    on_listening port (Path.render segs) w = (inl (FsError e), set_fs n1 w)
    /\ (n1 = fs w \/ Fs.mkdir_p (fs w) (parent segs) = inr n1).
Proof using segs_clean h0_r.
  intros Hr Hp Hheap Hw.
  destruct (origin_written_lookup r rc pc h0 h0_r lp) as (rc' & Hlk & Hhttps & Hhost & Hset).
  unfold on_listening.
  rewrite (bind_ok _ _ w w rc') by (apply (the_resolvedConfig_ok w r rc'); congruence).
  rewrite (bind_ok _ _ w w pc) by by apply the_pluginConfig_ok.
  cbv zeta.
  match goal with
  | |- context [writeJson _ ?d] =>
      destruct (writeJson_fails w segs d segs_clean Hw) as (e & n1 & Hwj & Hn1)
  end.
  exists e, n1. split; [|done]. by rewrite (bind_throw _ _ _ _ _ Hwj).
Qed.

(** The [close] callback, whatever is registered. *)
Lemma on_close_run (lp : option N) (w : World) :
  cinv lp w ->
  exists n',
    Fs.rm_force (fs w) segs = inr n'
    /\ on_close (Path.render segs) w = (inr tt, set_fs n' w)
    /\ Fs.exists_at n' segs = false
    /\ cinv lp (set_fs n' w).
Proof using segs_clean.
  intros (Hr & Hp & Hw & Hheap).
  destruct (rm_force_writable _ _ Hw) as (n' & Hrm & Hgone & Hw' & Hsame).
  exists n'. split; [done|]. split; [|split; [done|by repeat split]].
  unfold on_close, rmSync_force, fs_call.
  rewrite (fs_path_render w segs segs_clean). by rewrite Hrm.
Qed.

(** A [listening] callback that finds the artifact and the origin of
    its own port changes nothing. *)
Lemma on_listening_again (port : N) (w : World) :
  cinv (Some port) w ->
  Fs.read_file (fs w) segs = Some (artifact (advertised_url rc pc port)) ->
  on_listening port (Path.render segs) w = (inr tt, w).
Proof using segs_clean h0_r.
  intros Hinv Hfile.
  destruct (on_listening_run (Some port) port w Hinv)
    as (n1 & n' & Hmk & Hwr & Hon & _ & _).
  assert (Hlk : Fs.lookup (fs w) segs = inr (Fs.File (artifact (advertised_url rc pc port)))).
  { unfold Fs.read_file in Hfile. destruct (Fs.lookup (fs w) segs) as [|[d|]]; congruence. }
  assert (Hne : segs <> []).
  { destruct Hinv as (_ & _ & Hw & _). by destruct segs. }
  destruct (parent_split segs Hne) as [s Hs].
  assert (Hdir : exists es, Fs.lookup (fs w) (parent segs) = inr (Fs.Dir es)).
  { rewrite Hs in Hlk. by eapply (lookup_prefix_dir _ _ [s]). }
  destruct Hdir as [es Hdir].
  rewrite (mkdir_p_existing _ _ _ Hdir) in Hmk. inversion Hmk; subst n1.
  rewrite (write_file_same _ _ _ Hne Hlk) in Hwr. inversion Hwr; subst n'.
  rewrite Hon. f_equal. destruct Hinv as (_ & _ & _ & <-). by destruct w.
Qed.

(** A [close] callback that finds no artifact changes nothing. *)
Lemma on_close_again (lp : option N) (w : World) :
  cinv lp w -> Fs.exists_at (fs w) segs = false ->
  on_close (Path.render segs) w = (inr tt, w).
Proof using segs_clean.
  intros Hinv Hno. pose proof Hinv as (_ & _ & Hw & _).
  destruct (on_close_run lp w Hinv) as (n' & Hrm & Hon & _).
  destruct (rm_force_writable _ _ Hw) as (n2 & Hrm2 & _ & _ & Hsame).
  rewrite Hrm in Hrm2. inversion Hrm2; subst n2.
  rewrite Hon, (Hsame Hno). by rewrite set_fs_same.
Qed.

End Callbacks.

End CallbackFacts.

(* ===================================================================== *)
(** * Sequences of events, with what they write *)
(* ===================================================================== *)

Module SequenceFacts.
Import Str Data Monad Plugin Spec Setting.
Import StrFacts PathFacts FsFacts FsFrame PluginFacts CoordinatorFacts CallbackFacts.

Lemma last_bound_port_snoc (pre : list Event) (ev : Event) :
  last_bound_port (pre ++ [ev]) = bound_port_step (last_bound_port pre) ev.
Proof. unfold last_bound_port. by rewrite fold_left_app. Qed.

Lemma last_bound_port_none (pre : list Event) :
  last_bound_port pre = None -> last pre = None \/ last pre = Some Close.
Proof.
  induction pre as [|ev pre _] using rev_ind; [by left|].
  rewrite last_bound_port_snoc, last_snoc. destruct ev; [done | by right].
Qed.

Lemma last_bound_port_some (pre : list Event) (port : N) :
  last_bound_port pre = Some port -> last pre <> None.
Proof. destruct pre; [done|]. intros _. by rewrite last_cons; destruct (last pre). Qed.

Lemma for_each_app {A} (l1 l2 : list A) (f : A -> M unit) (w : World) :
  for_each (l1 ++ l2) f w = bind (for_each l1 f) (fun _ => for_each l2 f) w.
Proof.
  revert w. induction l1 as [|a l1 IH]; intros w; [reflexivity|].
  simpl. unfold bind in *. destruct (f a w) as [[e|[]] w1]; [done|]. apply IH.
Qed.

Lemma emit_all_app (server : nat) (l1 l2 : list Event) (w : World) :
  emit_all server (l1 ++ l2) w
  = bind (emit_all server l1) (fun _ => emit_all server l2) w.
Proof. apply for_each_app. Qed.

Section Sequences.
Variables (server r : nat) (rc : ResolvedConfig) (pc : PluginConfig).
Variables (segs : list string) (h0 : gmap nat ResolvedConfig).
Hypothesis segs_clean : Forall Path.clean segs.
Hypothesis h0_r : h0 !! r = Some rc.

#[local] Abbreviation inv := (coordinator_inv server r rc pc segs h0).
#[local] Abbreviation cinv := (callbacks_inv r rc pc segs h0).
#[local] Abbreviation text := (fun port : N => artifact (advertised_url rc pc port)).

(** One event on an attached Coordinator, with the calls it makes on
    the file system. *)
Lemma emit_step (le : option Event) (lp : option N) (ev : Event) (w : World) :
  inv le lp w ->
  exists w',
    emit server ev w = (inr tt, w')
    /\ inv (Some ev) (bound_port_step lp ev) w'
    /\ match ev with
       | Listening port =>
           exists n1, Fs.mkdir_p (fs w) (parent segs) = inr n1
                      /\ Fs.write_file n1 segs (text port) = inr (fs w')
       | Close => Fs.rm_force (fs w) segs = inr (fs w')
       end.
Proof using segs_clean h0_r.
  intros Hinv. pose proof (coordinator_callbacks r rc pc segs h0 server le lp w Hinv) as Hc.
  destruct Hinv as (Hh & _). destruct ev as [port|].
  - destruct (on_listening_run r rc pc segs h0 segs_clean h0_r lp port w Hc)
      as (n1 & n' & Hmk & Hwr & Hon & Hfile & (Hr & Hp & Hw & Hheap)).
    eexists. split; [by apply (emit_listening server segs port w _ Hh Hon)|].
    split; [by repeat split|]. exists n1. by split.
  - destruct (on_close_run r rc pc segs h0 segs_clean lp w Hc)
      as (n' & Hrm & Hon & Hgone & (Hr & Hp & Hw & Hheap)).
    eexists. split; [by apply (emit_close server segs w _ Hh Hon)|].
    split; [by repeat split|]. done.
Qed.

Lemma emit_kept (le : option Event) (lp : option N) (ev : Event) (w : World) :
  inv le lp w ->
  exists w',
    emit server ev w = (inr tt, w')
    /\ inv (Some ev) (bound_port_step lp ev) w'
    /\ kept_apart_from segs (fs w) (fs w').
Proof using segs_clean h0_r.
  intros Hinv. destruct (emit_step le lp ev w Hinv) as (w' & Hev & Hinv' & Hfs).
  exists w'. split; [done|]. split; [done|]. destruct ev as [port|].
  - destruct Hfs as (n1 & Hmk & Hwr).
    eapply kept_trans; [by eapply kept_mkdir | by eapply kept_write].
  - by eapply kept_rm.
Qed.

(** Whatever the events, everything but the artifact is kept. *)
Lemma emit_all_kept (evs : list Event) (le : option Event) (lp : option N) (w : World) :
  inv le lp w ->
  exists w',
    emit_all server evs w = (inr tt, w')
    /\ inv (from_option Some le (last evs)) (fold_left bound_port_step evs lp) w'
    /\ kept_apart_from segs (fs w) (fs w').
Proof using segs_clean h0_r.
  revert le lp w. induction evs as [|ev evs IH]; intros le lp w Hinv.
  - exists w. split; [reflexivity|]. split; [by destruct le | apply kept_refl].
  - destruct (emit_kept le lp ev w Hinv) as (w1 & Hev & Hinv1 & Hk1).
    destruct (IH _ _ _ Hinv1) as (w' & Hrest & Hinv' & Hk').
    exists w'. split; [|split].
    + unfold emit_all. simpl. unfold bind. rewrite Hev. apply Hrest.
    + simpl fold_left. rewrite last_cons.
      destruct (last evs); simpl in *; done.
    + by eapply kept_trans.
Qed.

(** ** The file system, exactly *)

Lemma tree_after_listening (n0 : Fs.node) (pre : list Event) (port : N) :
  tree_after n0 segs text (pre ++ [Listening port])
  = match Fs.mkdir_p n0 (parent segs) with
    | inl e => inl e
    | inr n1 => Fs.write_file n1 segs (text port)
    end.
Proof. unfold tree_after. by rewrite last_bound_port_snoc, last_snoc. Qed.

Lemma tree_after_close (n0 : Fs.node) (pre : list Event) :
  tree_after n0 segs text (pre ++ [Close])
  = match last_bound_port pre with
    | None => inr n0
    | Some _ =>
        match Fs.mkdir_p n0 (parent segs) with
        | inl e => inl e
        | inr n1 => inr n1
        end
    end.
Proof. unfold tree_after. by rewrite last_bound_port_snoc, last_snoc. Qed.

Lemma tree_after_cases (n0 : Fs.node) (pre : list Event) (n : Fs.node) :
  tree_after n0 segs text pre = inr n ->
  (last_bound_port pre = None /\ n = n0)
  \/ exists n1,
       Fs.mkdir_p n0 (parent segs) = inr n1
       /\ last_bound_port pre <> None
       /\ ((exists port, last pre = Some (Listening port)
                         /\ Fs.write_file n1 segs (text port) = inr n)
           \/ (last pre = Some Close /\ n = n1)).
Proof.
  unfold tree_after. destruct (last_bound_port pre) as [port|] eqn:Hlp.
  - destruct (Fs.mkdir_p n0 (parent segs)) as [e|n1]; [done|]. intros H.
    right. exists n1. split; [done|]. split; [done|].
    pose proof (last_bound_port_some pre port Hlp) as Hlast.
    destruct (last pre) as [[port'|]|]; [left; eauto | right; by inversion H | done].
  - intros H. left. by inversion H.
Qed.

Section Tree.
Variable n0 : Fs.node.
Hypothesis n0_writable : Fs.writable n0 segs = true.
Hypothesis n0_empty : Fs.exists_at n0 segs = false.

Lemma n0_absent : Fs.lookup n0 segs = inl Fs.ENOENT.
Proof using n0_writable n0_empty.
  destruct (writable_lookup _ _ n0_writable) as [[d Hd]|]; [|done].
  unfold Fs.exists_at in n0_empty. by rewrite Hd in n0_empty.
Qed.

Lemma segs_split : exists s, segs = parent segs ++ [s].
Proof using n0_writable.
  apply parent_split. intros Heq. pose proof n0_writable as H.
  by rewrite Heq in H.
Qed.

Lemma made_absent (n1 : Fs.node) :
  Fs.mkdir_p n0 (parent segs) = inr n1 ->
  Fs.lookup n1 segs = inl Fs.ENOENT
  /\ Fs.mkdir_p n1 (parent segs) = inr n1.
Proof using n0_writable n0_empty.
  intros Hmk. destruct segs_split as [s Hs]. split.
  - pose proof n0_absent as Hno. pose proof n0_writable as Hw.
    rewrite Hs in Hno, Hw |- *.
    by destruct (mkdir_p_absent _ _ _ _ Hw Hno Hmk).
  - destruct (mkdir_p_lookup _ _ _ Hmk) as [es Hdir]. by eapply mkdir_p_existing.
Qed.

Lemma written_parent (n1 n : Fs.node) (data : string) :
  Fs.write_file n1 segs data = inr n -> Fs.mkdir_p n (parent segs) = inr n.
Proof using n0_writable.
  intros Hwr. destruct segs_split as [s Hs].
  pose proof (write_file_lookup _ _ _ _ Hwr) as Hlk. rewrite Hs in Hlk.
  destruct (lookup_prefix_dir _ _ [s] _ ltac:(done) Hlk) as [es Hdir].
  by eapply mkdir_p_existing.
Qed.

(** One event moves the file system as [tree_after] says. *)
Lemma emit_tree (pre : list Event) (le : option Event) (lp : option N) (ev : Event)
    (w : World) :
  inv le lp w ->
  tree_after n0 segs text pre = inr (fs w) ->
  exists w',
    emit server ev w = (inr tt, w')
    /\ inv (Some ev) (bound_port_step lp ev) w'
    /\ tree_after n0 segs text (pre ++ [ev]) = inr (fs w').
Proof using segs_clean h0_r n0_writable n0_empty.
  intros Hinv Ht.
  destruct (emit_step le lp ev w Hinv) as (w' & Hev & Hinv' & Hfs).
  exists w'. split; [done|]. split; [done|].
  destruct (tree_after_cases _ _ _ Ht)
    as [[Hlp Hn]|(n1 & Hmk & Hsome & [(port0 & Hlast & Hwr0)|[Hlast Hn]])].
  - destruct ev as [port|].
    + rewrite tree_after_listening. destruct Hfs as (m1 & Hm & Hwr).
      rewrite Hn in Hm. by rewrite Hm.
    + rewrite tree_after_close, Hlp. rewrite Hn in Hfs.
      by rewrite (rm_force_missing _ _ n0_absent) in Hfs.
  - destruct ev as [port|].
    + rewrite tree_after_listening, Hmk. destruct Hfs as (m1 & Hm & Hwr).
      rewrite (written_parent _ _ _ Hwr0) in Hm. inversion Hm; subst m1.
      rewrite <- Hwr. symmetry. by apply (write_file_twice _ _ _ _ _ Hwr0).
    + rewrite tree_after_close.
      destruct (last_bound_port pre); [|done]. rewrite Hmk.
      destruct (made_absent n1 Hmk) as [Hno _].
      by rewrite (write_rm_round _ _ _ _ Hno Hwr0) in Hfs.
  - destruct (made_absent n1 Hmk) as [Hno Hsame]. destruct ev as [port|].
    + rewrite tree_after_listening, Hmk. destruct Hfs as (m1 & Hm & Hwr).
      rewrite Hn, Hsame in Hm. by inversion Hm; subst m1.
    + rewrite tree_after_close.
      destruct (last_bound_port pre); [|done]. rewrite Hmk.
      rewrite Hn in Hfs. by rewrite (rm_force_missing _ _ Hno) in Hfs.
Qed.

Lemma emit_all_tree (evs pre : list Event) (le : option Event) (lp : option N)
    (w : World) :
  inv le lp w ->
  tree_after n0 segs text pre = inr (fs w) ->
  exists w',
    emit_all server evs w = (inr tt, w')
    /\ tree_after n0 segs text (pre ++ evs) = inr (fs w').
Proof using segs_clean h0_r n0_writable n0_empty.
  revert pre le lp w. induction evs as [|ev evs IH]; intros pre le lp w Hinv Ht.
  - exists w. split; [reflexivity|]. by rewrite app_nil_r.
  - destruct (emit_tree pre le lp ev w Hinv Ht) as (w1 & Hev & Hinv1 & Ht1).
    destruct (IH _ _ _ _ Hinv1 Ht1) as (w' & Hrest & Ht').
    exists w'. split.
    + unfold emit_all. simpl. unfold bind. rewrite Hev. apply Hrest.
    + by rewrite (cons_middle ev), app_assoc.
Qed.

End Tree.

(** ** Several attachments *)

Lemma callbacks_handlers (hs : list Handler) (lp : option N) (w : World) :
  cinv lp w -> cinv lp (set_handlers hs w).
Proof. by intros (? & ? & ? & ?). Qed.

Lemma run_coordinator (ev : Event) (w w' : World) :
  match ev with
  | Listening port => on_listening port (Path.render segs) w
  | Close => on_close (Path.render segs) w
  end = (inr tt, w') ->
  for_each (coordinator server (Path.render segs)) (run_handler server ev) w = (inr tt, w').
Proof.
  intros H. unfold coordinator. destruct ev; cbn [for_each run_handler];
    rewrite decide_True by done; unfold bind, ret; by rewrite H.
Qed.

Lemma run_attachments_idle (k : nat) (ev : Event) (w : World) :
  match ev with
  | Listening port => on_listening port (Path.render segs) w
  | Close => on_close (Path.render segs) w
  end = (inr tt, w) ->
  for_each (attachments k server (Path.render segs)) (run_handler server ev) w = (inr tt, w).
Proof.
  intros H. induction k as [|k IH]; [reflexivity|].
  change (attachments (S k) server (Path.render segs))
    with (coordinator server (Path.render segs) ++ attachments k server (Path.render segs)).
  rewrite for_each_app.
  unfold bind. rewrite (run_coordinator ev w w H). apply IH.
Qed.

(** One event with several attachments for the same listener does
    what it does with one. *)
Lemma emit_attached (lp : option N) (ev : Event) (w : World) :
  cinv lp w ->
  exists w',
    (forall k,
        emit server ev (set_handlers (attachments (S k) server (Path.render segs)) w)
        = (inr tt, set_handlers (attachments (S k) server (Path.render segs)) w'))
    /\ cinv (bound_port_step lp ev) w'.
Proof using segs_clean h0_r.
  intros Hc. destruct ev as [port|].
  - destruct (on_listening_run r rc pc segs h0 segs_clean h0_r lp port w Hc)
      as (n1 & n' & Hmk & Hwr & Hon & Hfile & Hc').
    eexists. split; [|exact Hc']. intros k.
    set (hs := attachments (S k) server (Path.render segs)).
    destruct (on_listening_run r rc pc segs h0 segs_clean h0_r lp port
                (set_handlers hs w) (callbacks_handlers hs lp w Hc))
      as (m1 & m' & Hmk' & Hwr' & Hon' & _ & _).
    simpl fs in Hmk'. rewrite Hmk in Hmk'. inversion Hmk'; subst m1.
    rewrite Hwr in Hwr'. inversion Hwr'; subst m'.
    unfold emit, bind at 1, gets. simpl handlers.
    change hs with (coordinator server (Path.render segs)
                    ++ attachments k server (Path.render segs)) at 1.
    rewrite for_each_app. unfold bind.
    rewrite (run_coordinator (Listening port) _ _ Hon').
    apply (run_attachments_idle k (Listening port)).
    apply (on_listening_again r rc pc segs h0 segs_clean h0_r port).
    + apply (callbacks_handlers hs (Some port) _ Hc').
    + exact Hfile.
  - destruct (on_close_run r rc pc segs h0 segs_clean lp w Hc)
      as (n' & Hrm & Hon & Hgone & Hc').
    eexists. split; [|exact Hc']. intros k.
    set (hs := attachments (S k) server (Path.render segs)).
    destruct (on_close_run r rc pc segs h0 segs_clean lp
                (set_handlers hs w) (callbacks_handlers hs lp w Hc))
      as (m' & Hrm' & Hon' & _ & _).
    simpl fs in Hrm'. rewrite Hrm in Hrm'. inversion Hrm'; subst m'.
    unfold emit, bind at 1, gets. simpl handlers.
    change hs with (coordinator server (Path.render segs)
                    ++ attachments k server (Path.render segs)) at 1.
    rewrite for_each_app. unfold bind.
    rewrite (run_coordinator Close _ _ Hon').
    apply (run_attachments_idle k Close).
    apply (on_close_again r rc pc segs h0 segs_clean lp).
    + apply (callbacks_handlers hs lp _ Hc').
    + exact Hgone.
Qed.

Lemma emit_all_attached (evs : list Event) (lp : option N) (w : World) :
  cinv lp w ->
  exists w',
    (forall k,
        emit_all server evs (set_handlers (attachments (S k) server (Path.render segs)) w)
        = (inr tt, set_handlers (attachments (S k) server (Path.render segs)) w'))
    /\ cinv (fold_left bound_port_step evs lp) w'.
Proof using segs_clean h0_r.
  revert lp w. induction evs as [|ev evs IH]; intros lp w Hc.
  - exists w. by split.
  - destruct (emit_attached lp ev w Hc) as (w1 & Hev & Hc1).
    destruct (IH _ _ Hc1) as (w' & Hrest & Hc').
    exists w'. split; [|done]. intros k.
    unfold emit_all. simpl. unfold bind. rewrite (Hev k). apply Hrest.
Qed.

End Sequences.

(** ** Calling [configureServer] again *)

Lemma set_handlers_same (w : World) : set_handlers (handlers w) w = w.
Proof. by destruct w. Qed.

(** Every call for the same listener appends the three callbacks. *)
Lemma perform_attach (k : nat) (w : World) (server r : nat) (rc : ResolvedConfig)
    (pc : PluginConfig) (file : string) :
  resolvedConfig w = Some r -> heap w !! r = Some rc -> command rc = serve ->
  pluginConfig w = Some pc -> infoFile pc = Some file ->
  perform_all (replicate k (CallConfigureServer {| httpServer := Some server |})) w
  = set_handlers (handlers w ++ attachments k server (infoFilePath w rc file)) w.
Proof.
  revert w. induction k as [|k IH]; intros w Hr Hh Hc Hp Hf.
  - simpl. unfold attachments. simpl. by rewrite app_nil_r, set_handlers_same.
  - simpl replicate. simpl perform_all. simpl perform.
    rewrite (configureServer_ready w server r rc pc file Hr Hh Hc Hp Hf). simpl snd.
    rewrite IH by done. unfold set_handlers. simpl.
    change (attachments (S k) server (infoFilePath w rc file))
      with (coordinator server (infoFilePath w rc file)
            ++ attachments k server (infoFilePath w rc file)).
    by rewrite app_assoc.
Qed.

Lemma attachments_length (k server : nat) (infoFilePath : string) :
  length (attachments k server infoFilePath) = 3 * k.
Proof.
  induction k as [|k IH]; [reflexivity|].
  change (attachments (S k) server infoFilePath)
    with (coordinator server infoFilePath ++ attachments k server infoFilePath).
  rewrite length_app, IH. simpl. lia.
Qed.

(** ** Two listeners *)

Section Shared.
Variables (s1 s2 r : nat) (rc : ResolvedConfig) (pc : PluginConfig).
Variables (segs : list string) (h0 : gmap nat ResolvedConfig).
Hypothesis segs_clean : Forall Path.clean segs.
Hypothesis h0_r : h0 !! r = Some rc.
Hypothesis distinct : s1 <> s2.

#[local] Abbreviation cinv := (callbacks_inv r rc pc segs h0).
#[local] Abbreviation one := (coordinator s1 (Path.render segs)).
#[local] Abbreviation both :=
  (coordinator s1 (Path.render segs) ++ coordinator s2 (Path.render segs)).

(** A callback does the same whatever is registered. *)
Lemma callback_any_handlers (lp : option N) (ev : Event) (w : World) :
  cinv lp w ->
  exists w',
    (forall hs,
        match ev with
        | Listening port => on_listening port (Path.render segs)
        | Close => on_close (Path.render segs)
        end (set_handlers hs w) = (inr tt, set_handlers hs w'))
    /\ cinv (bound_port_step lp ev) w'.
Proof using segs_clean h0_r.
  intros Hc. destruct ev as [port|].
  - destruct (on_listening_run r rc pc segs h0 segs_clean h0_r lp port w Hc)
      as (n1 & n' & Hmk & Hwr & Hon & Hfile & Hc').
    eexists. split; [|exact Hc']. intros hs.
    destruct (on_listening_run r rc pc segs h0 segs_clean h0_r lp port
                (set_handlers hs w) (callbacks_handlers r rc pc segs h0 hs lp w Hc))
      as (m1 & m' & Hmk' & Hwr' & Hon' & _ & _).
    simpl fs in Hmk'. rewrite Hmk in Hmk'. inversion Hmk'; subst m1.
    rewrite Hwr in Hwr'. inversion Hwr'; subst m'. exact Hon'.
  - destruct (on_close_run r rc pc segs h0 segs_clean lp w Hc)
      as (n' & Hrm & Hon & Hgone & Hc').
    eexists. split; [|exact Hc']. intros hs.
    destruct (on_close_run r rc pc segs h0 segs_clean lp
                (set_handlers hs w) (callbacks_handlers r rc pc segs h0 hs lp w Hc))
      as (m' & Hrm' & Hon' & _ & _).
    simpl fs in Hrm'. rewrite Hrm in Hrm'. inversion Hrm'; subst m'. exact Hon'.
Qed.

(** An event on either listener does what it does on a single
    Coordinator. *)
Lemma emit_shared (first : bool) (lp : option N) (ev : Event) (w : World) :
  cinv lp w ->
  exists w',
    emit (if first then s1 else s2) ev (set_handlers both w)
    = (inr tt, set_handlers both w')
    /\ emit s1 ev (set_handlers one w) = (inr tt, set_handlers one w')
    /\ cinv (bound_port_step lp ev) w'.
Proof using segs_clean h0_r distinct.
  intros Hc. destruct (callback_any_handlers lp ev w Hc) as (w' & Hcb & Hc').
  exists w'. split; [|split; [|done]].
  - unfold emit, bind at 1, gets. simpl handlers. unfold coordinator.
    cbn [app for_each run_handler].
    assert (distinct' : s2 <> s1) by (by intros ->).
    destruct first, ev as [port|];
      rewrite ?(decide_True (P := s1 = s1)), ?(decide_True (P := s2 = s2)),
        ?(decide_False (P := s1 = s2)), ?(decide_False (P := s2 = s1)) by done;
      unfold bind, ret; by rewrite (Hcb _).
  - unfold emit, bind at 1, gets. simpl handlers. unfold coordinator.
    cbn [for_each run_handler].
    destruct ev as [port|]; rewrite decide_True by done;
      unfold bind, ret; by rewrite (Hcb _).
Qed.

(** The events on two listeners, merged, are the events of one. *)
Lemma perform_all_shared (evs : list (bool * Event)) (lp : option N) (w : World) :
  cinv lp w ->
  exists w',
    perform_all (map (on_listener s1 s2) evs) (set_handlers both w)
    = set_handlers both w'
    /\ emit_all s1 (map snd evs) (set_handlers one w) = (inr tt, set_handlers one w').
Proof using segs_clean h0_r distinct.
  revert lp w. induction evs as [|[first ev] evs IH]; intros lp w Hc.
  - by exists w.
  - destruct (emit_shared first lp ev w Hc) as (w1 & Hboth & Hone & Hc1).
    destruct (IH _ _ Hc1) as (w' & Hrest & Hrest1).
    exists w'. split.
    + change (perform_all (map (on_listener s1 s2) ((first, ev) :: evs))
                (set_handlers both w))
        with (perform_all (map (on_listener s1 s2) evs)
                (emit (if first then s1 else s2) ev (set_handlers both w)).2).
      rewrite Hboth. exact Hrest.
    + simpl map. unfold emit_all. simpl for_each. unfold bind.
      rewrite Hone. exact Hrest1.
Qed.

End Shared.

End SequenceFacts.

(* ===================================================================== *)
(** * Reading JSON text back *)
(* ===================================================================== *)

Module JsonRead.
Import Str Json StrFacts.

(** What [escape_char] writes for a character is read back as that
    character. *)
Lemma unescape_escape_char (c : ascii) (rest : string) :
  unescape_char (escape_char c +:+ rest) = Some (c, rest).
Proof. destruct c as [[] [] [] [] [] [] [] []]; vm_compute; reflexivity. Qed.

Lemma unescape_char_dquote (rest : string) : unescape_char (dquote +:+ rest) = None.
Proof. reflexivity. Qed.

(** Before a closing quote, the escaped text determines the string. *)
Lemma escape_inj (s1 s2 rest : string) :
  escape s1 +:+ (dquote +:+ rest) = escape s2 +:+ (dquote +:+ rest) -> s1 = s2.
Proof.
  revert s2. induction s1 as [|c1 s1 IH]; intros [|c2 s2] H.
  - done.
  - apply (f_equal unescape_char) in H. simpl escape in H.
    rewrite append_nil, append_assoc, unescape_escape_char in H.
    by rewrite unescape_char_dquote in H.
  - apply (f_equal unescape_char) in H. simpl escape in H.
    rewrite append_nil, append_assoc, unescape_escape_char in H.
    by rewrite unescape_char_dquote in H.
  - apply (f_equal unescape_char) in H. simpl escape in H.
    rewrite !append_assoc, !unescape_escape_char in H.
    inversion H as [[Hc Hs]]. f_equal. by apply IH.
Qed.

Lemma append_inv_head (p s1 s2 : string) : p +:+ s1 = p +:+ s2 -> s1 = s2.
Proof.
  induction p as [|c p IH]; [by rewrite !append_nil|].
  rewrite !append_cons. intros H. inversion H. by apply IH.
Qed.

(** The text of the artifact around the escaped URL. *)
Lemma artifact_shape (url : string) :
  Spec.artifact url
  = ("{" +:+ newline +:+ tab +:+ dquote +:+ "devServer" +:+ dquote +:+ ": " +:+ dquote)
    +:+ (escape url +:+ (dquote +:+ newline +:+ "}")).
Proof.
  unfold Spec.artifact, stringify_object, quote. simpl map. simpl String.concat.
  rewrite !append_assoc. reflexivity.
Qed.

End JsonRead.

(* ===================================================================== *)
(** * The earlier revision and the interrupt signal *)
(* ===================================================================== *)

Module LegacyFacts.
Import Str Data Monad Plugin Spec Setting.
Import StrFacts PathFacts FsFacts PluginFacts CoordinatorFacts HookFacts.
Import SequenceFacts.

(** ** Hosts *)

Lemma sentinel_all_interfaces (v : HostValue) :
  bool_decide (v = HostBool true) || bool_decide (v = HostString "0.0.0.0")
  = all_interfaces v.
Proof.
  destruct v as [|[]|s]; try reflexivity.
  rewrite (bool_decide_ext _ False) by naive_solver.
  rewrite bool_decide_false by tauto. simpl. apply host_string_decide.
Qed.

Lemma js_or_falsy (a b : HostValue) : truthy a = false -> js_or a b = b.
Proof. unfold js_or. by intros ->. Qed.

(** ** Computations that only read *)

Lemma bind_reads {A B} (m : M A) (k : A -> M B) :
  (forall w, (m w).2 = w) -> (forall a w, (k a w).2 = w) ->
  forall w, (bind m k w).2 = w.
Proof.
  intros Hm Hk w. unfold bind. specialize (Hm w).
  destruct (m w) as [[e|a] w1]; simpl in Hm; subst w1; [done | apply Hk].
Qed.

Lemma bind_value {A B} (m : M A) (k : A -> M B) (P : B -> Prop) :
  (forall a w b w', k a w = (inr b, w') -> P b) ->
  forall w b w', bind m k w = (inr b, w') -> P b.
Proof.
  intros Hk w b w'. unfold bind. destruct (m w) as [[e|a] w1]; [done|]. apply Hk.
Qed.

(** ** Reading [composer.lock] *)

Lemma readFileSync_world (p : string) (w : World) : (Legacy.readFileSync p w).2 = w.
Proof. unfold Legacy.readFileSync. by destruct (Fs.lookup _ _) as [|[|]]. Qed.

Lemma readFileSync_read (p : string) (w : World) (text : string) :
  Fs.read_file (fs w) (fs_path w p) = Some text ->
  Legacy.readFileSync p w = (inr text, w).
Proof.
  unfold Fs.read_file, Legacy.readFileSync.
  destruct (Fs.lookup _ _) as [|[|]]; congruence.
Qed.

Lemma readFileSync_unreadable (p : string) (w : World) :
  Fs.read_file (fs w) (fs_path w p) = None ->
  exists e, Legacy.readFileSync p w = (inl (FsError e), w).
Proof.
  unfold Fs.read_file, Legacy.readFileSync.
  destruct (Fs.lookup _ _) as [|[|]]; try done; eauto.
Qed.

Lemma property_world (v : Legacy.json) (key : string) (w : World) :
  (Legacy.property v key w).2 = w.
Proof. by destruct v. Qed.

Lemma property_own (v : Legacy.json) (key : string) (w : World) :
  v <> Legacy.JNull ->
  Legacy.property v key w = (inr (Legacy.own_property v key), w).
Proof. by destruct v. Qed.

Lemma find_package_world (l : list Legacy.json) (w : World) :
  (Legacy.find_package l w).2 = w.
Proof.
  induction l as [|p l IH]; [reflexivity|]. simpl. unfold bind.
  pose proof (property_world p "name" w) as Hw.
  destruct (Legacy.property p "name" w) as [[e|name] w1]; simpl in Hw; subst w1; [done|].
  by destruct (Legacy.is_nette_application name).
Qed.

(** Without a [null] in the way, [find] is the first match. *)
Lemma find_package_first (l : list Legacy.json) (w : World) :
  Forall (fun p => p <> Legacy.JNull) l ->
  Legacy.find_package l w
  = (inr (List.find (fun p => Legacy.is_nette_application (Legacy.own_property p "name")) l),
     w).
Proof.
  induction 1 as [|p l Hp _ IH]; [reflexivity|]. simpl. unfold bind.
  rewrite (property_own p "name" w Hp).
  by destruct (Legacy.is_nette_application _).
Qed.

(** A [null] before the first match ends the search with a [TypeError]. *)
Lemma find_package_null (l1 l2 : list Legacy.json) (w : World) :
  Forall (fun p => p <> Legacy.JNull
                   /\ Legacy.is_nette_application (Legacy.own_property p "name") = false) l1 ->
  Legacy.find_package (l1 ++ Legacy.JNull :: l2) w = (inl TypeError, w).
Proof.
  induction 1 as [|p l [Hp Hn] _ IH]; [reflexivity|]. simpl. unfold bind.
  rewrite (property_own p "name" w Hp). by rewrite Hn.
Qed.

Section Environment.
Variable JSON_parse : string -> option Legacy.json.
Variable dirname : string.

Lemma parse_world (text : string) (w : World) : (Legacy.parse JSON_parse text w).2 = w.
Proof. unfold Legacy.parse. by destruct (JSON_parse text). Qed.

(** [netteVersion] only reads, catches whatever is thrown, and never
    answers [null]. *)
Lemma netteVersion_catches (w : World) :
  exists v, Legacy.netteVersion JSON_parse w = (inr v, w) /\ v <> Legacy.JNull.
Proof.
  unfold Legacy.netteVersion, Legacy.try_catch.
  match goal with
  | |- context [match ?body w with _ => _ end] =>
      assert (Hreads : (body w).2 = w);
      [|assert (Hvalue : forall v w', body w = (inr v, w') -> v <> Legacy.JNull);
        [|destruct (body w) as [[e|v] w1]; simpl in Hreads; subst w1;
          [by eexists | exists v; split; [done | by eapply Hvalue]]]]
  end.
  - apply bind_reads; [apply readFileSync_world|]. intros text w1.
    apply bind_reads; [apply parse_world|]. intros composer w2.
    apply bind_reads; [apply property_world|]. intros packages w3.
    apply bind_reads.
    { intros w4. destruct packages as [p|]; [|done].
      destruct (Legacy.nullish _); [done|].
      destruct p; try done. apply find_package_world. }
    intros found w4. apply bind_reads; [|done].
    intros w5. destruct found as [f|]; [|done].
    destruct (Legacy.nullish _); [done | apply property_world].
  - clear Hreads. revert w.
    apply (bind_value _ _ (fun v => v <> Legacy.JNull)). intros text.
    apply (bind_value _ _ (fun v => v <> Legacy.JNull)). intros composer.
    apply (bind_value _ _ (fun v => v <> Legacy.JNull)). intros packages.
    apply (bind_value _ _ (fun v => v <> Legacy.JNull)). intros found.
    apply (bind_value _ _ (fun v => v <> Legacy.JNull)). intros version w v w'.
    unfold ret. intros [= <- <-]. by destruct version as [[]|].
Qed.

(** [nettepluginVersion] only reads and catches whatever is thrown. *)
Lemma nettepluginVersion_reads (w : World) :
  exists v, Legacy.nettepluginVersion JSON_parse dirname w = (inr v, w).
Proof.
  unfold Legacy.nettepluginVersion, Legacy.try_catch.
  match goal with
  | |- context [match ?body w with _ => _ end] =>
      assert (Hreads : (body w).2 = w);
      [|destruct (body w) as [[e|v] w1]; simpl in Hreads; subst w1; by eexists]
  end.
  apply bind_reads; [apply readFileSync_world|]. intros text w1.
  apply bind_reads; [apply parse_world|]. intros package w2.
  destruct (Legacy.nullish _); [done | apply property_world].
Qed.

End Environment.

(** ** Values inside a template literal *)

Lemma to_string_cons (x : Legacy.json) (rest : list Legacy.json) :
  Legacy.to_string (Legacy.JArray (x :: rest))
  = match match x with
          | Legacy.JNull => inr EmptyString
          | _ => Legacy.to_string x
          end with
    | inl e => inl e
    | inr first =>
        match rest with
        | [] => inr first
        | _ :: _ =>
            match Legacy.to_string (Legacy.JArray rest) with
            | inl e => inl e
            | inr others => inr (first +:+ "," +:+ others)
            end
        end
    end.
Proof. reflexivity. Qed.

Lemma to_string_array_throws (l : list Legacy.json) :
  Forall (fun x => forall e, Legacy.to_string x = inl e -> e = TypeError) l ->
  forall e, Legacy.to_string (Legacy.JArray l) = inl e -> e = TypeError.
Proof.
  induction 1 as [|x rest Hx _ IH]; intros e; [discriminate|].
  rewrite to_string_cons.
  set (t := match x with Legacy.JNull => inr EmptyString | _ => Legacy.to_string x end).
  assert (Ht : forall e, t = inl e -> e = TypeError).
  { subst t. destruct x; try apply Hx. discriminate. }
  destruct t as [e'|first]; [intros [= <-]; by apply Ht|].
  destruct rest as [|y rest]; [discriminate|].
  destruct (Legacy.to_string (Legacy.JArray (y :: rest))) as [e'|others];
    [intros [= <-]; by apply IH | discriminate].
Qed.

(** The conversion to text throws nothing but a [TypeError]. *)
Lemma to_string_throws : forall (v : Legacy.json) (e : Exn),
  Legacy.to_string v = inl e -> e = TypeError.
Proof.
  fix IH 1. intros v e. destruct v as [|b|n|s|elements|props]; try discriminate.
  - apply to_string_array_throws.
    induction elements as [|x rest IHrest]; constructor; [apply IH | exact IHrest].
  - simpl. destruct (props !! "toString"); [by intros [= <-] | discriminate].
Qed.

(** ** Computations in a process *)

Lemma set_world_same (p : Legacy.Process) : Legacy.set_world (Legacy.world p) p = p.
Proof. by destruct p. Qed.

Lemma lbind_lift {A B} (m : M A) (k : A -> Legacy.L B) (p : Legacy.Process) :
  Legacy.lbind (Legacy.lift m) k p
  = match m (Legacy.world p) with
    | (inl e, w') => (inl e, Legacy.set_world w' p)
    | (inr a, w') => k a (Legacy.set_world w' p)
    end.
Proof. unfold Legacy.lbind, Legacy.lift. by destruct (m (Legacy.world p)) as [[e|a] w']. Qed.

(** ** Whole sessions *)

Lemma all_interfaces_or (v : HostValue) :
  all_interfaces (js_or v (HostString "localhost")) = all_interfaces v.
Proof. destruct v as [|[]|[|c s]]; reflexivity. Qed.

Lemma the_resolvedConfig_heap (w : World) (rc : ResolvedConfig) :
  (the_resolvedConfig w).1 = inr rc -> exists r, heap w !! r = Some rc.
Proof.
  unfold the_resolvedConfig, bind, gets, defined, throw, ret. simpl.
  destruct (resolvedConfig w) as [r|]; simpl; [|done].
  destruct (heap w !! r) as [rc'|] eqn:E; simpl; [|done].
  intros [= <-]. eauto.
Qed.

Lemma fs_call_world (op : Fs.node -> list string -> Fs.errno + Fs.node) (p : string)
    (w : World) :
  exists n, (fs_call op p w).2 = set_fs n w.
Proof.
  unfold fs_call. destruct (op _ _) as [e|n]; simpl; [|by eexists].
  exists (fs w). by rewrite set_fs_same.
Qed.

Lemma writeJson_world (p : string) (data : list (string * string)) (w : World) :
  exists n, (writeJson p data w).2 = set_fs n w.
Proof.
  unfold writeJson, bind, existsSync, mkdirSync_recursive, writeFileSync, ret.
  destruct (negb _).
  - destruct (fs_call_world Fs.mkdir_p (Path.dirname p) w) as [n1 H1].
    destruct (fs_call Fs.mkdir_p (Path.dirname p) w) as [[e|[]] w1]; simpl in H1; subst w1;
      [by eexists|].
    match goal with
    | |- context [fs_call ?op p (set_fs n1 w)] =>
        destruct (fs_call_world op p (set_fs n1 w)) as [n2 H2];
        destruct (fs_call op p (set_fs n1 w)) as [[e|[]] w2]; simpl in H2; subst w2
    end; by eexists.
  - match goal with
    | |- context [fs_call ?op p w] =>
        destruct (fs_call_world op p w) as [n2 H2];
        destruct (fs_call op p w) as [[e|[]] w2]; simpl in H2; subst w2
    end; by eexists.
Qed.

(** The [listening] callback changes the file system and the origin of
    configuration objects, nothing else. *)
Lemma on_listening_world (port : N) (p : string) (w : World) :
  exists n h,
    (on_listening port p w).2 = set_heap h (set_fs n w)
    /\ forall i rci, h !! i = Some rci ->
          exists rc0, heap w !! i = Some rc0 /\ server_host rci = server_host rc0.
Proof.
  assert (Hsame : exists n h,
             w = set_heap h (set_fs n w)
             /\ forall i rci, h !! i = Some rci ->
                   exists rc0, heap w !! i = Some rc0 /\ server_host rci = server_host rc0).
  { exists (fs w), (heap w). split; [by destruct w | eauto]. }
  unfold on_listening.
  pose proof (the_resolvedConfig_world w) as H1. unfold bind at 1.
  destruct (the_resolvedConfig w) as [[e|rc] w1]; simpl in H1; subst w1; [done|].
  pose proof (the_pluginConfig_world w) as H2. unfold bind at 1.
  destruct (the_pluginConfig w) as [[e|pc] w1]; simpl in H2; subst w1; [done|].
  cbv zeta. unfold bind at 1.
  match goal with
  | |- context [writeJson p ?d w] =>
      destruct (writeJson_world p d w) as [n Hn];
      destruct (writeJson p d w) as [[e|[]] w1]; simpl in Hn; subst w1
  end.
  { exists n, (heap w). split; [by destruct w | eauto]. }
  unfold bind, gets, defined, throw, ret, modify. simpl.
  destruct (resolvedConfig w) as [r|]; simpl.
  - eexists n, _. split; [reflexivity|]. intros i rci. rewrite lookup_alter.
    destruct (decide (r = i)) as [<-|Hne]; [|eauto].
    destruct (heap w !! r) as [rc0|] eqn:E; simpl; [|done].
    intros [= <-]. eauto.
  - exists n, (heap w). split; [by destruct w | eauto].
Qed.

Lemma on_listening_keeps (port : N) (p : string) (w : World) :
  pluginConfig (on_listening port p w).2 = pluginConfig w
  /\ handlers (on_listening port p w).2 = handlers w
  /\ (no_sentinel w -> no_sentinel (on_listening port p w).2).
Proof.
  destruct (on_listening_world port p w) as (n & h & -> & Hh).
  split; [done|]. split; [done|]. intros Hs i rci Hi. simpl in Hi.
  destruct (Hh i rci Hi) as (rc0 & Hrc0 & ->). by apply (Hs i).
Qed.

Lemma on_close_keeps (p : string) (w : World) :
  pluginConfig (on_close p w).2 = pluginConfig w
  /\ handlers (on_close p w).2 = handlers w
  /\ (no_sentinel w -> no_sentinel (on_close p w).2).
Proof.
  unfold on_close, rmSync_force.
  destruct (fs_call_world Fs.rm_force p w) as [n ->]. by repeat split.
Qed.

(** In a session without host option and sentinel, the earlier
    [listening] callback throws what the later one throws and leaves the
    world the later one leaves. *)
Lemma listening_callbacks_agree (port : N) (path : string) (p : Legacy.Process)
    (pc : PluginConfig) :
  pluginConfig (Legacy.world p) = Some pc -> host pc = None ->
  no_sentinel (Legacy.world p) -> port <> 80%N ->
  (Legacy.on_listening port path p).1 = (Plugin.on_listening port path (Legacy.world p)).1
  /\ Legacy.world (Legacy.on_listening port path p).2
     = (Plugin.on_listening port path (Legacy.world p)).2.
Proof.
  intros Hp Hh Hs Hport. unfold Legacy.on_listening. rewrite lbind_lift.
  match goal with
  | |- context [match ?m (Legacy.world p) with _ => _ end] =>
      assert (Hsame : m (Legacy.world p) = Plugin.on_listening port path (Legacy.world p))
  end.
  { set (w := Legacy.world p) in *. unfold Plugin.on_listening.
    pose proof (the_resolvedConfig_world w) as Hw.
    destruct (the_resolvedConfig w) as [[e|rc] w1] eqn:E; simpl in Hw; subst w1.
    - by rewrite !(bind_throw _ _ _ _ _ E).
    - rewrite !(bind_ok _ _ _ _ _ E).
      rewrite (bind_ok _ _ w w pc) by by apply the_pluginConfig_ok.
      destruct (the_resolvedConfig_heap w rc) as [r Hr]; [by rewrite E|].
      cbv zeta. rewrite Hh. simpl of_optional. rewrite (js_or_falsy HostUndefined) by done.
      rewrite sentinel_all_interfaces, all_interfaces_or, (Hs r rc Hr).
      by rewrite (proj2 (N.eqb_neq _ _) Hport). }
  rewrite Hsame.
  by destruct (Plugin.on_listening port path (Legacy.world p)) as [[e|[]] w'].
Qed.

(** The registered callbacks of the two revisions throw the same and
    leave the same world. *)
Lemma run_handlers_agree (hs : list Handler) (server : nat) (ev : Event)
    (p : Legacy.Process) (pc : PluginConfig) :
  plain_action (Emit server ev) ->
  pluginConfig (Legacy.world p) = Some pc -> host pc = None ->
  no_sentinel (Legacy.world p) ->
  let after := for_each hs (run_handler server ev) (Legacy.world p) in
  (Legacy.lfor_each hs (Legacy.run_handler server ev) p).1 = after.1
  /\ Legacy.world (Legacy.lfor_each hs (Legacy.run_handler server ev) p).2 = after.2
  /\ pluginConfig after.2 = Some pc
  /\ handlers after.2 = handlers (Legacy.world p)
  /\ no_sentinel after.2.
Proof.
  intros Hplain. revert p. induction hs as [|h hs IH]; intros p Hp Hh Hs; [done|].
  assert (Hstep : (Legacy.run_handler server ev h p).1
                  = (run_handler server ev h (Legacy.world p)).1
                  /\ Legacy.world (Legacy.run_handler server ev h p).2
                     = (run_handler server ev h (Legacy.world p)).2
                  /\ pluginConfig (run_handler server ev h (Legacy.world p)).2 = Some pc
                  /\ handlers (run_handler server ev h (Legacy.world p)).2
                     = handlers (Legacy.world p)
                  /\ no_sentinel (run_handler server ev h (Legacy.world p)).2).
  { destruct h as [s path|s path|s], ev as [port|]; simpl; try done.
    - destruct (decide (s = server)); [|done].
      destruct (on_listening_keeps port path (Legacy.world p)) as (Hp' & Hh' & Hs').
      destruct (listening_callbacks_agree port path p pc Hp Hh Hs Hplain) as [H1 H2].
      split; [done|]. split; [done|]. by rewrite Hp'; auto.
    - destruct (decide (s = server)); [|done].
      destruct (on_close_keeps path (Legacy.world p)) as (Hp' & Hh' & Hs').
      split; [done|]. split; [done|]. by rewrite Hp'; auto. }
  destruct Hstep as (Hres & Hworld & Hp1 & Hh1 & Hs1).
  cbv zeta. simpl for_each. simpl Legacy.lfor_each. unfold Legacy.lbind, bind.
  destruct (Legacy.run_handler server ev h p) as [[e|[]] p1];
    destruct (run_handler server ev h (Legacy.world p)) as [[e'|[]] w1];
    simpl in Hres, Hworld, Hp1, Hh1, Hs1; try done.
  subst w1.
  destruct (IH p1 Hp1 Hh Hs1) as (IH1 & IH2 & IH3 & IH4 & IH5).
  split; [done|]. split; [done|]. split; [done|]. split; [congruence | done].
Qed.

(** The [config] hooks of the two revisions in a session. *)
Lemma config_answers_agree (u : UserConfig) (w : World) :
  plain_action (CallConfig u) ->
  (forall pc, pluginConfig w = Some pc -> host pc = None) ->
  bind (Legacy.config u) (fun c => ret (Some c)) w
  = (Legacy.earlier (answer (CallConfig u) w).1, w).
Proof.
  intros Hplain Hhost. simpl answer. unfold Legacy.config, Plugin.config. cbv [bind].
  pose proof (the_pluginConfig_world w) as H2.
  destruct (the_pluginConfig w) as [[e|pc] w1] eqn:E; simpl in H2; subst w1; [done|].
  assert (Hpc : pluginConfig w = Some pc).
  { revert E. unfold the_pluginConfig, bind, gets, defined, throw, ret. simpl.
    destruct (pluginConfig w); simpl; congruence. }
  unfold process_cwd, gets. cbv zeta.
  rewrite (Hhost pc Hpc). simpl of_optional. rewrite (js_or_falsy HostUndefined) by done.
  rewrite sentinel_all_interfaces, all_interfaces_or. simpl in Hplain. rewrite Hplain.
  destruct (uc_build u ≫= ub_outDir) as [d|]; [reflexivity|].
  rewrite getDefaultOutDir_run. by destruct (Fs.exists_at _ _).
Qed.

Lemma configureServer_keeps (d : ViteDevServer) (w : World) :
  exists hs,
    (configureServer d w).2 = set_handlers hs w
    /\ (pluginConfig w = None -> hs = handlers w).
Proof.
  unfold configureServer, bind.
  pose proof (the_resolvedConfig_world w) as H1.
  destruct (the_resolvedConfig w) as [[e|rc] w1]; simpl in H1; subst w1.
  { exists (handlers w). by rewrite set_handlers_same. }
  destruct (command rc); [|exists (handlers w); by rewrite set_handlers_same].
  destruct (httpServer d); [|exists (handlers w); by rewrite set_handlers_same].
  unfold generateInfoFile, bind.
  pose proof (the_resolvedConfig_world w) as H1.
  destruct (the_resolvedConfig w) as [[e|rc'] w1]; simpl in H1; subst w1.
  { exists (handlers w). by rewrite set_handlers_same. }
  unfold the_pluginConfig, bind, gets, defined, throw, ret. simpl.
  destruct (pluginConfig w) as [pc|]; simpl.
  - destruct (infoFile pc); simpl.
    + eexists. split; [reflexivity | done].
    + exists (handlers w). by rewrite set_handlers_same.
  - exists (handlers w). by rewrite set_handlers_same.
Qed.

(** One action of the later revision keeps a session plain. *)
Lemma perform_keeps (a : Action) (w : World) :
  plain_action a -> plain_world w -> plain_world (Plugin.perform a w).2.
Proof.
  intros Hplain (Hs & Hhost & Hnone). destruct a as [c|u|r|d|server ev].
  - simpl in Hplain. split; [done|]. split; [|done].
    simpl. intros pc [= <-]. exact Hplain.
  - unfold Plugin.perform, bind. pose proof (config_world u w) as Hw.
    destruct (config u w) as [[e|c] w1]; simpl in *; by subst w1.
  - by repeat split.
  - simpl perform.
    destruct (configureServer_keeps d w) as (hs & -> & Hhs).
    split; [done|]. split; [done|]. simpl. intros Hp. rewrite (Hhs Hp). by apply Hnone.
  - assert (HP : Plugin.perform (Emit server ev) w
                 = for_each (handlers w) (run_handler server ev) w) by reflexivity.
    rewrite HP. clear HP.
    destruct (pluginConfig w) as [pc|] eqn:Hp.
    + destruct (run_handlers_agree (handlers w) server ev (Legacy.process_of w) pc Hplain Hp
                  (Hhost pc eq_refl) Hs) as (_ & _ & Hp' & Hh' & Hs').
      simpl in Hp', Hh', Hs'. split; [done|]. split; [|by rewrite Hp'].
      intros pc'. rewrite Hp'. intros [= <-]. by apply Hhost.
    + rewrite (Hnone eq_refl). simpl. split; [done|]. split.
      * intros pc. by rewrite Hp.
      * intros _. by apply Hnone.
Qed.

Section Sessions.
Variable JSON_parse : string -> option Legacy.json.
Variable dirname : string.
Variables blue bold dim : string -> string.

(** The banner reads and prints: whether it returns or throws, the
    world is the one it found. *)
Lemma banner_world (p : Legacy.Process) :
  Legacy.world (Legacy.banner JSON_parse dirname blue bold dim p).2 = Legacy.world p.
Proof.
  unfold Legacy.banner. rewrite lbind_lift.
  destruct (netteVersion_catches JSON_parse (Legacy.world p)) as (v & -> & _).
  rewrite set_world_same. unfold Legacy.lbind at 1, Legacy.of_result.
  destruct (Legacy.to_string v) as [e|nette]; [done|].
  rewrite lbind_lift.
  destruct (nettepluginVersion_reads JSON_parse dirname (Legacy.world p)) as (pv & ->).
  rewrite set_world_same. unfold Legacy.lbind, Legacy.of_result.
  by destruct (Legacy.template_of pv).
Qed.

Lemma timeout_world (p : Legacy.Process) :
  Legacy.world (Legacy.timeout JSON_parse dirname blue bold dim p).2 = Legacy.world p.
Proof.
  unfold Legacy.timeout. destruct (Legacy.timers p) as [|[delay] rest]; [done|].
  simpl Legacy.run_timer. by rewrite banner_world.
Qed.

(** One hook call or event in the two revisions. *)
Lemma perform_agree (a : Action) (p : Legacy.Process) :
  plain_action a -> plain_world (Legacy.world p) ->
  (Legacy.perform JSON_parse dirname blue bold dim (Legacy.Do a) p).1
  = Legacy.earlier (answer a (Legacy.world p)).1
  /\ Legacy.world (Legacy.perform JSON_parse dirname blue bold dim (Legacy.Do a) p).2
     = (Plugin.perform a (Legacy.world p)).2.
Proof.
  intros Hplain (Hs & Hhost & Hnone). destruct a as [c|u|r|d|server ev].
  - simpl in Hplain. simpl. by rewrite Hplain.
  - unfold Legacy.perform, Legacy.lift.
    rewrite (config_answers_agree u (Legacy.world p) Hplain Hhost). simpl.
    split; [done|]. unfold bind. pose proof (config_world u (Legacy.world p)) as Hw.
    by destruct (config u (Legacy.world p)) as [[e|c] w1].
  - done.
  - unfold Legacy.perform, Legacy.configureServer, Legacy.lbind, Legacy.lift,
      Legacy.lret, Legacy.middlewares_use.
    change (Legacy.generateInfoFile) with generateInfoFile.
    fold (configureServer d).
    simpl answer. simpl perform. unfold bind.
    by destruct (configureServer d (Legacy.world p)) as [[e|[]] w1].
  - assert (HP : Plugin.perform (Emit server ev) (Legacy.world p)
                 = for_each (handlers (Legacy.world p)) (run_handler server ev)
                     (Legacy.world p)) by reflexivity.
    assert (HA : (answer (Emit server ev) (Legacy.world p)).1
                 = match (Plugin.perform (Emit server ev) (Legacy.world p)).1 with
                   | inl e => inl e
                   | inr _ => inr None
                   end).
    { simpl answer. unfold bind at 1.
      change (perform (Emit server ev) (Legacy.world p))
        with (emit server ev (Legacy.world p)).
      by destruct (emit server ev (Legacy.world p)) as [[e|[]] w1]. }
    assert (HL : Legacy.perform JSON_parse dirname blue bold dim
                   (Legacy.Do (Emit server ev)) p
                 = match Legacy.lfor_each (handlers (Legacy.world p))
                           (Legacy.run_handler server ev) p with
                   | (inl e, p') => (inl e, p')
                   | (inr _, p') => (inr None, p')
                   end).
    { unfold Legacy.perform, Legacy.emit, Legacy.lbind, Legacy.lift, Legacy.lret, gets.
      simpl. by rewrite set_world_same. }
    rewrite HA, HP, HL. clear HA HP HL.
    destruct (pluginConfig (Legacy.world p)) as [pc|] eqn:Hp.
    + destruct (run_handlers_agree (handlers (Legacy.world p)) server ev p pc Hplain Hp
                  (Hhost pc eq_refl) Hs) as (Hres & Hworld & _).
      cbv zeta in Hres, Hworld.
      destruct (Legacy.lfor_each _ _ p) as [[e|[]] p1]; simpl in Hres, Hworld;
        rewrite <- Hres; by simpl.
    + rewrite (Hnone eq_refl). by simpl.
Qed.

End Sessions.

End LegacyFacts.


Module SignalFacts.
Import Data Monad Plugin Setting.

Lemma sigint_coordinator (server : nat) (infoFilePath : string) (w : World) :
  handlers w = coordinator server infoFilePath ->
  Signal.sigint w = Signal.on_sigint server w.
Proof. intros H. unfold Signal.sigint. by rewrite H. Qed.

End SignalFacts.

(* ===================================================================== *)
(** * Further properties of the code *)
(* ===================================================================== *)

Module Further.
Import Str Data Monad Plugin Spec Setting.
Import StrFacts PathFacts FsFacts FsFrame PluginFacts CoordinatorFacts HookFacts.
Import CallbackFacts SequenceFacts JsonRead LegacyFacts SignalFacts.

(** ** [writeJson] *)

(** X1.  [writeJson] on a normalised absolute path returns exactly when
    no regular file stands where a directory is needed and the target is
    not a directory.  When it returns, the file holds the tab-indented
    JSON text and nothing else has changed but directories made on the
    way; when it throws, it throws an error of the file system and the
    text of no file has changed. *)
Theorem writeJson_succeeds_iff_writable (w : World) (segs : list string)
    (data : list (string * string)) :
  Forall Path.clean segs ->
  ((exists w', writeJson (Path.render segs) data w = (inr tt, w'))
   <-> Fs.writable (fs w) segs = true)
  /\ (forall w', writeJson (Path.render segs) data w = (inr tt, w') ->
        Fs.read_file (fs w') segs = Some (Json.stringify_object Json.tab data)
        /\ kept_apart_from segs (fs w) (fs w')
        /\ w' = set_fs (fs w') w)
  /\ (forall e w', writeJson (Path.render segs) data w = (inl e, w') ->
        (exists c, e = FsError c)
        /\ (forall q, Fs.read_file (fs w') q = Fs.read_file (fs w) q)
        /\ w' = set_fs (fs w') w).
Proof.
  intros Hc. destruct (Fs.writable (fs w) segs) eqn:Hw.
  - destruct (writeJson_run w segs data Hc Hw) as (n1 & n' & Hmk & Hwr & Hwj & Hlk & Hw').
    split; [split; eauto|]. split.
    + intros w' H. rewrite Hwj in H. inversion H; subst w'. simpl.
      split; [unfold Fs.read_file; by rewrite Hlk|]. split; [|done].
      eapply kept_trans; [by eapply kept_mkdir | by eapply kept_write].
    + intros e w' H. by rewrite Hwj in H.
  - destruct (writeJson_fails w segs data Hc Hw) as (e & n1 & Hwj & Hn1).
    split; [split; [|done]; intros [w' H]; by rewrite Hwj in H|]. split.
    + intros w' H. by rewrite Hwj in H.
    + intros e' w' H. rewrite Hwj in H. inversion H; subst e' w'. simpl.
      split; [eauto|]. split; [|done]. intros q.
      destruct Hn1 as [->|Hmk]; [done | by eapply mkdir_p_read].
Qed.

(** ** One attached Coordinator *)

(** X2.  An attached Coordinator touches one place only: whatever the
    [listening] and [close] events, every other regular file keeps its
    text, no other regular file appears, and nothing that was there
    disappears. *)
Theorem coordinator_touches_only_the_artifact (w0 : World) (server r : nat)
    (rc : ResolvedConfig) (pc : PluginConfig) (file : string) :
  ready w0 r rc pc file ->
  Fs.writable (fs w0) (info_place w0 rc file) = true ->
  exists w,
    configureServer {| httpServer := Some server |} w0 = (inr tt, w)
    /\ forall evs : list Event, exists w',
         emit_all server evs w = (inr tt, w')
         /\ forall q, q <> info_place w0 rc file ->
              Fs.read_file (fs w') q = Fs.read_file (fs w0) q
              /\ (Fs.exists_at (fs w0) q = true -> Fs.exists_at (fs w') q = true).
Proof.
  intros Hready Hw.
  destruct (attach_inv w0 server r rc pc file Hready Hw) as (w & Hattach & Hfs & Hheap & Hinv).
  destruct Hready as (Hcwd & _ & _ & Hlk & _).
  destruct (info_place_clean w0 rc file Hcwd) as [Hclean Hpath].
  exists w. split; [done|]. intros evs.
  destruct (emit_all_kept server r rc pc _ (heap w0) Hclean Hlk evs None None w Hinv)
    as (w' & Hrun & _ & Hkept).
  exists w'. split; [done|]. rewrite <- Hfs. apply Hkept.
Qed.

(** X3.  The file system an attached Coordinator leaves, exactly: where
    no artifact was there at the start, the tree after any events is the
    one of [tree_after], that is the tree at the start before the first
    [listening] event; from then on that tree with the directory of the
    artifact made, plus the artifact of the latest port while the last
    event is [listening].  Where the directory was there at the start,
    the tree is the one at the start again whenever the listener is not
    Active. *)
Theorem coordinator_file_system (w0 : World) (server r : nat)
    (rc : ResolvedConfig) (pc : PluginConfig) (file : string) :
  ready w0 r rc pc file ->
  Fs.writable (fs w0) (info_place w0 rc file) = true ->
  Fs.exists_at (fs w0) (info_place w0 rc file) = false ->
  exists w,
    configureServer {| httpServer := Some server |} w0 = (inr tt, w)
    /\ forall evs : list Event, exists w',
         emit_all server evs w = (inr tt, w')
         /\ tree_after (fs w0) (info_place w0 rc file)
              (fun port => artifact (advertised_url rc pc port)) evs
            = inr (fs w')
         /\ (Fs.exists_at (fs w0) (parent (info_place w0 rc file)) = true ->
             lifecycle evs <> Active -> fs w' = fs w0).
Proof.
  intros Hready Hw Hno.
  destruct (attach_inv w0 server r rc pc file Hready Hw) as (w & Hattach & Hfs & Hheap & Hinv).
  destruct Hready as (Hcwd & _ & _ & Hlk & _).
  destruct (info_place_clean w0 rc file Hcwd) as [Hclean Hpath].
  exists w. split; [done|]. intros evs.
  assert (Hstart : tree_after (fs w0) (info_place w0 rc file)
                     (fun port => artifact (advertised_url rc pc port)) [] = inr (fs w)).
  { by rewrite Hfs. }
  destruct (emit_all_tree server r rc pc _ (heap w0) Hclean Hlk (fs w0) Hw Hno
              evs [] None None w Hinv Hstart) as (w' & Hrun & Htree).
  simpl app in Htree. exists w'. split; [done|]. split; [done|].
  intros Hdir Hidle. unfold tree_after in Htree.
  destruct (last_bound_port evs); [|by inversion Htree].
  destruct (segs_split (info_place w0 rc file) (fs w0) Hw) as [s Hs].
  assert (Hmk : Fs.mkdir_p (fs w0) (parent (info_place w0 rc file)) = inr (fs w0)).
  { rewrite Hs in Hw. destruct (writable_exists_parent _ _ _ Hw Hdir) as [es Hes].
    by eapply mkdir_p_existing. }
  rewrite Hmk in Htree.
  destruct (last evs) as [[port|]|] eqn:Hlast; [|by inversion Htree..].
  destruct Hidle. apply lifecycle_active. eauto.
Qed.

(** X4.  Calling [configureServer] again for the same listener appends
    the three callbacks again, so [k + 1] calls leave [3 (k + 1)] of them;
    every sequence of events then runs to its end and leaves the world it
    leaves after a single call, the list of callbacks apart. *)
Theorem repeated_attachment_is_harmless (w0 : World) (server r : nat)
    (rc : ResolvedConfig) (pc : PluginConfig) (file : string) (k : nat) :
  ready w0 r rc pc file ->
  Fs.writable (fs w0) (info_place w0 rc file) = true ->
  let call := CallConfigureServer {| httpServer := Some server |} in
  let once := perform_all [call] w0 in
  let often := perform_all (replicate (S k) call) w0 in
  handlers often = attachments (S k) server (infoFilePath w0 rc file)
  /\ length (handlers often) = 3 * S k
  /\ forall evs : list Event, exists w1,
       emit_all server evs once = (inr tt, w1)
       /\ emit_all server evs often = (inr tt, set_handlers (handlers often) w1).
Proof.
  intros Hready Hw call once often.
  pose proof Hready as (Hcwd & Hh & Hr & Hlk & Hc & Hp & Hf).
  destruct (info_place_clean w0 rc file Hcwd) as [Hclean Hpath].
  assert (Hk : forall j, perform_all (replicate (S j) call) w0
               = set_handlers (attachments (S j) server (Path.render (info_place w0 rc file))) w0).
  { intros j. unfold call.
    rewrite (perform_attach (S j) w0 server r rc pc file Hr Hlk Hc Hp Hf).
    by rewrite Hh, Hpath. }
  assert (Honce : once = set_handlers (attachments 1 server
                                         (Path.render (info_place w0 rc file))) w0)
    by apply (Hk 0).
  unfold often. rewrite Hk, Honce. simpl handlers. split; [by rewrite Hpath|]. split.
  { apply attachments_length. }
  intros evs.
  assert (Hc0 : callbacks_inv r rc pc (info_place w0 rc file) (heap w0) None w0)
    by by repeat split.
  destruct (emit_all_attached server r rc pc _ (heap w0) Hclean Hlk evs None w0 Hc0)
    as (w' & Hrun & _).
  exists (set_handlers (attachments 1 server (Path.render (info_place w0 rc file))) w').
  split; [apply (Hrun 0) | apply (Hrun k)].
Qed.

(** X5.  Where the artifact cannot be written, the [listening] event
    throws the error of the file system out of the emitter, and the origin
    is not set: the assignment comes after the write.  No file has
    changed. *)
Theorem failed_listening_leaves_origin (w0 : World) (server r : nat)
    (rc : ResolvedConfig) (pc : PluginConfig) (file : string) (port : N) :
  ready w0 r rc pc file ->
  Fs.writable (fs w0) (info_place w0 rc file) = false ->
  exists w e w',
    configureServer {| httpServer := Some server |} w0 = (inr tt, w)
    /\ emit server (Listening port) w = (inl (FsError e), w')
    /\ heap w' = heap w0
    /\ forall q, Fs.read_file (fs w') q = Fs.read_file (fs w0) q.
Proof.
  intros (Hcwd & Hh & Hr & Hlk & Hc & Hp & Hf) Hw.
  destruct (info_place_clean w0 rc file Hcwd) as [Hclean Hpath].
  eexists.
  rewrite (configureServer_ready w0 server r rc pc file Hr Hlk Hc Hp Hf).
  rewrite Hh, Hpath. simpl app.
  set (w := set_handlers _ w0).
  destruct (on_listening_fails r rc pc _ (heap w0) Hclean Hlk None port w Hr Hp eq_refl Hw)
    as (e & n1 & Hon & Hn1).
  exists e, (set_fs n1 w). split; [done|]. split; [|split; [done|]].
  - unfold emit, bind at 1, gets. simpl handlers. unfold coordinator.
    cbn [for_each run_handler]. rewrite decide_True by done.
    by rewrite (bind_throw _ _ _ _ _ Hon).
  - intros q. simpl. destruct Hn1 as [->|Hmk]; [done | by eapply mkdir_p_read].
Qed.

(** X6.  The path of the artifact is [path.resolve(root, outDir,
    infoFile)], so an absolute [infoFile] is used as it is: the root, the
    output directory and the working directory do not matter.  With a
    relative [infoFile] and an absolute output directory, the root and
    the working directory do not matter. *)
Theorem absolute_paths_win (w : World) (rc : ResolvedConfig) (file : string) :
  (starts_with_slash file = true ->
   infoFilePath w rc file
   = Path.render (Path.normalize_segments false (split_slash file))
   /\ forall w' rc', infoFilePath w' rc' file = infoFilePath w rc file)
  /\ (starts_with_slash file = false ->
      starts_with_slash (build_outDir rc) = true ->
      forall w' rc', build_outDir rc' = build_outDir rc ->
                     infoFilePath w' rc' file = infoFilePath w rc file).
Proof.
  split.
  - intros Hfile. unfold infoFilePath.
    assert (H : forall cwd a b, Path.resolve cwd [a; b; file]
                = Path.render (Path.normalize_segments false (split_slash file))).
    { intros cwd a b. by apply (resolve_absolute cwd file [a; b]). }
    split; [apply H|]. intros w' rc'. by rewrite !H.
  - intros Hfile Hout w' rc' Heq. unfold infoFilePath.
    rewrite Heq. unfold Path.resolve, Path.resolve_segments. simpl rev. simpl app.
    simpl Path.resolve_loop. rewrite Hfile.
    rewrite (starts_with_slash_nonempty _ Hout), Hout.
    by destruct (is_empty file).
Qed.

(** X7.  The callbacks keep the path computed when they were attached
    and read the module variables when they run: after [configureServer],
    a later call of the factory and a later [configResolved] change the
    host, the protocol and the object whose origin is set, but not the
    place of the artifact. *)
Theorem callbacks_read_variables_when_run (w0 : World) (server r : nat)
    (rc : ResolvedConfig) (pc : PluginConfig) (file : string)
    (c2 : PluginConfig) (r2 : nat) (rc2 : ResolvedConfig) :
  ready w0 r rc pc file ->
  Fs.writable (fs w0) (info_place w0 rc file) = true ->
  heap w0 !! r2 = Some rc2 ->
  let pc2 := {| infoFile := Some (default ".vite/nette.json" (infoFile c2));
                host := host c2; entry := entry c2 |} in
  let w := perform_all [CallConfigureServer {| httpServer := Some server |};
                        CallFactory c2; CallConfigResolved r2] w0 in
  forall port : N, exists w',
    emit server (Listening port) w = (inr tt, w')
    /\ Fs.read_file (fs w') (info_place w0 rc file)
       = Some (artifact (advertised_url rc2 pc2 port))
    /\ heap w' = <[r2 := set_origin (advertised_url rc2 pc2 port) rc2]> (heap w0)
    /\ forall q, q <> info_place w0 rc file ->
         Fs.read_file (fs w') q = Fs.read_file (fs w0) q.
Proof.
  intros (Hcwd & Hh & Hr & Hlk & Hc & Hp & Hf) Hw Hr2 pc2 w port.
  destruct (info_place_clean w0 rc file Hcwd) as [Hclean Hpath].
  assert (Hinv : coordinator_inv server r2 rc2 pc2 (info_place w0 rc file) (heap w0)
                   None None w).
  { unfold w. simpl perform_all. simpl perform.
    rewrite (configureServer_ready w0 server r rc pc file Hr Hlk Hc Hp Hf).
    repeat split; simpl; try done. by rewrite Hh, Hpath. }
  destruct (emit_kept server r2 rc2 pc2 _ (heap w0) Hclean Hr2 None None (Listening port) w Hinv)
    as (w' & Hev & (_ & _ & _ & _ & Hheap & Hfile) & Hkept).
  exists w'. split; [done|]. split; [done|]. split; [done|].
  intros q Hq. destruct (Hkept q Hq) as [Hread _]. rewrite Hread.
  unfold w. simpl perform_all. simpl perform.
  by rewrite (configureServer_ready w0 server r rc pc file Hr Hlk Hc Hp Hf).
Qed.

(** ** The [config] hook *)

(** X8.  The [config] hook only reads: whether it returns or throws, the
    world is the one before; and when the user gives an output directory,
    its result does not depend on the file system. *)
Theorem config_hook_only_reads (u : UserConfig) (w : World) :
  (config u w).2 = w
  /\ forall d n, uc_build u ≫= ub_outDir = Some d ->
       (config u (set_fs n w)).1 = (config u w).1.
Proof.
  split; [apply config_world|]. intros d n Hd.
  destruct (pluginConfig w) as [pc|] eqn:Hp.
  - unfold config.
    rewrite (bind_ok _ _ w w pc) by by apply the_pluginConfig_ok.
    rewrite (bind_ok _ _ (set_fs n w) (set_fs n w) pc) by by apply the_pluginConfig_ok.
    unfold bind, process_cwd, gets, ret. simpl. by rewrite Hd.
  - cbv [config the_pluginConfig bind gets defined throw]. simpl. by rewrite Hp.
Qed.

(** X19.  A value the user gives for [allowedHosts] is never passed on:
    [a ?? host === 'localhost' ? undefined : [host]] reads
    [(a ?? host === 'localhost') ? undefined : [host]], and every value
    of [allowedHosts] is truthy, so with any user value the hook returns
    no [allowedHosts], whatever the host.  The [cors] value two lines
    above is passed on as it is. *)
Theorem user_allowedHosts_is_dropped (w w' : World) (pc : PluginConfig)
    (u : UserConfig) (c : HookConfig) (a : AllowedHosts) :
  pluginConfig w = Some pc ->
  uc_server u ≫= us_allowedHosts = Some a ->
  config u w = (inr c, w') ->
  c_server_allowedHosts c = None
  /\ forall o, uc_server u ≫= us_cors = Some o -> c_server_cors c = o.
Proof.
  intros Hp Ha Hc.
  destruct (config_cases w pc u Hp) as [(c0 & Hc0 & _ & _ & _ & Hcors & Hallowed & _)|(He & _)].
  - rewrite Hc0 in Hc. inversion Hc; subst c0 w'. split.
    + rewrite Hallowed, Ha. by destruct a.
    + intros o Ho. by rewrite Hcors, Ho.
  - by rewrite He in Hc.
Qed.

(** ** The text of the artifact *)

(** X9.  The artifact determines the URL: two URLs give the same text
    only when they are the same, whatever characters they hold. *)
Theorem artifact_determines_url (url1 url2 : string) :
  artifact url1 = artifact url2 <-> url1 = url2.
Proof.
  split; [|by intros ->]. rewrite !artifact_shape. intros H.
  apply append_inv_head in H. by apply escape_inj in H.
Qed.

(** ** The interrupt signal *)

(** X10.  With a Coordinator attached and no connection open, SIGINT in
    any state of the listener removes the artifact, leaves every other
    file and every configuration object as they are, and ends the process
    with status 0.  Before [configureServer] the plugin has no callback
    for the signal. *)
Theorem interrupt_removes_artifact_and_exits (w0 : World) (server r : nat)
    (rc : ResolvedConfig) (pc : PluginConfig) (file : string) :
  ready w0 r rc pc file ->
  Fs.writable (fs w0) (info_place w0 rc file) = true ->
  Signal.sigint w0 = Signal.Killed w0
  /\ exists w,
       configureServer {| httpServer := Some server |} w0 = (inr tt, w)
       /\ forall evs : list Event, exists w' w'',
            emit_all server evs w = (inr tt, w')
            /\ Signal.sigint w' = Signal.Exited 0 w''
            /\ Fs.exists_at (fs w'') (info_place w0 rc file) = false
            /\ heap w'' = heap w'
            /\ forall q, q <> info_place w0 rc file ->
                 Fs.read_file (fs w'') q = Fs.read_file (fs w') q.
Proof.
  intros Hready Hw. split.
  { destruct Hready as (_ & Hh & _). unfold Signal.sigint. by rewrite Hh. }
  destruct (attach_inv w0 server r rc pc file Hready Hw) as (w & Hattach & Hfs & Hheap & Hinv).
  destruct Hready as (Hcwd & _ & _ & Hlk & _).
  destruct (info_place_clean w0 rc file Hcwd) as [Hclean Hpath].
  exists w. split; [done|]. intros evs.
  destruct (emit_all_kept server r rc pc _ (heap w0) Hclean Hlk evs None None w Hinv)
    as (w' & Hrun & Hinv' & _).
  destruct (emit_kept server r rc pc _ (heap w0) Hclean Hlk _ _ Close w' Hinv')
    as (w'' & Hclose & (_ & _ & _ & _ & Hheap'' & Hgone) & Hkept).
  exists w', w''. split; [done|].
  rewrite (sigint_coordinator server (Path.render (info_place w0 rc file)) w')
    by apply Hinv'.
  unfold Signal.on_sigint. rewrite Hclose. split; [done|]. split; [done|]. split.
  - destruct Hinv' as (_ & _ & _ & _ & -> & _). exact Hheap''.
  - intros q Hq. by destruct (Hkept q Hq).
Qed.

(** ** Two listeners *)

(** X11.  Coordinators attached for two listeners of one process share
    the path, hence the artifact: the events of both, in the order they
    come, act as the events of a single listener.  The artifact exists
    exactly when the last event on either listener was [listening], so
    the [close] of one listener removes the artifact the other one
    wrote. *)
Theorem listeners_share_the_artifact (w0 : World) (s1 s2 r : nat)
    (rc : ResolvedConfig) (pc : PluginConfig) (file : string) :
  ready w0 r rc pc file ->
  Fs.writable (fs w0) (info_place w0 rc file) = true ->
  Fs.exists_at (fs w0) (info_place w0 rc file) = false ->
  s1 <> s2 ->
  let attach := fun s => CallConfigureServer {| httpServer := Some s |} in
  forall evs : list (bool * Event),
    let w' := perform_all (attach s1 :: attach s2 :: map (on_listener s1 s2) evs) w0 in
    (exists w1,
        emit_all s1 (map snd evs) (perform_all [attach s1] w0) = (inr tt, w1)
        /\ w' = set_handlers (handlers w') w1)
    /\ (Fs.exists_at (fs w') (info_place w0 rc file) = true
        <-> lifecycle (map snd evs) = Active).
Proof.
  intros Hready Hw Hno Hne attach evs w'.
  pose proof Hready as (Hcwd & Hh & Hr & Hlk & Hc & Hp & Hf).
  destruct (info_place_clean w0 rc file Hcwd) as [Hclean Hpath].
  set (segs := info_place w0 rc file) in *.
  assert (Hone : perform_all [attach s1] w0
                 = set_handlers (coordinator s1 (Path.render segs)) w0).
  { simpl. rewrite (configureServer_ready w0 s1 r rc pc file Hr Hlk Hc Hp Hf).
    by rewrite Hh, Hpath. }
  assert (Hboth : perform_all [attach s1; attach s2] w0
                  = set_handlers (coordinator s1 (Path.render segs)
                                  ++ coordinator s2 (Path.render segs)) w0).
  { change (perform_all [attach s1; attach s2] w0)
      with (perform (attach s2) (perform_all [attach s1] w0)).2.
    rewrite Hone. simpl perform.
    rewrite (configureServer_ready (set_handlers _ w0) s2 r rc pc file Hr Hlk Hc Hp Hf).
    simpl. change (infoFilePath _ rc file) with (infoFilePath w0 rc file).
    by rewrite Hpath. }
  assert (Hw' : w' = perform_all (map (on_listener s1 s2) evs)
                       (perform_all [attach s1; attach s2] w0)) by reflexivity.
  rewrite Hboth in Hw'.
  assert (Hc0 : callbacks_inv r rc pc segs (heap w0) None w0) by by repeat split.
  destruct (perform_all_shared s1 s2 r rc pc segs (heap w0) Hclean Hlk Hne evs None w0 Hc0)
    as (wf & Hrun & Hrun1).
  rewrite Hrun in Hw'. split.
  { exists (set_handlers (coordinator s1 (Path.render segs)) wf).
    rewrite Hone. split; [exact Hrun1 | by rewrite Hw']. }
  assert (Hinv0 : coordinator_inv s1 r rc pc segs (heap w0) None None
                    (set_handlers (coordinator s1 (Path.render segs)) w0))
    by by repeat split.
  destruct (emit_all_ok s1 r rc pc segs (heap w0) Hclean Hlk (map snd evs) None None _ Hinv0)
    as (w2 & Hrun2 & Hinv2).
  rewrite Hrun1 in Hrun2. inversion Hrun2 as [Hw2]. clear Hrun2.
  destruct Hinv2 as (_ & _ & _ & _ & _ & Hstate). rewrite <- Hw2 in Hstate.
  rewrite Hw'. simpl fs in *. rewrite lifecycle_active.
  destruct (last (map snd evs)) as [[port|]|] eqn:Hlast; simpl in Hstate.
  - rewrite (read_file_exists _ _ _ Hstate). split; eauto.
  - rewrite Hstate. split; [done|]. by intros [? ?].
  - apply last_None in Hlast. rewrite Hlast in Hrun1.
    pose proof (f_equal (fun x => fs x.2) Hrun1) as Hsame. simpl in Hsame.
    rewrite <- Hsame, Hno. split; [done|]. by intros [? ?].
Qed.

(** ** The earlier revision *)

(** X12.  The [listening] callback of the earlier revision
    ([src/src/index.ts]) against the one of the later revision, whenever
    no host option is set, the server host is not the all-interfaces
    sentinel and the port is not 80: it throws what the later one throws
    and leaves the world the later one leaves; where the later one
    returns, it has also set the timer of the banner, with a delay of 200,
    behind the timers already set.  That timer is the one difference: the
    middlewares in use and the console are as they were. *)
Theorem legacy_listening_agrees (port : N) (infoFilePath : string) (p : Legacy.Process)
    (pc : PluginConfig) :
  pluginConfig (Legacy.world p) = Some pc ->
  truthy (of_optional (host pc)) = false ->
  (forall rc, (the_resolvedConfig (Legacy.world p)).1 = inr rc ->
              all_interfaces (js_or (server_host rc) (HostString "localhost")) = false) ->
  port <> 80%N ->
  Legacy.on_listening port infoFilePath p
  = match Plugin.on_listening port infoFilePath (Legacy.world p) with
    | (inr _, w') =>
        (inr tt, {| Legacy.world := w';
                    Legacy.timers := Legacy.timers p ++ [Legacy.BannerTimer 200];
                    Legacy.middlewares := Legacy.middlewares p;
                    Legacy.console := Legacy.console p |})
    | (inl e, w') =>
        (inl e, {| Legacy.world := w';
                   Legacy.timers := Legacy.timers p;
                   Legacy.middlewares := Legacy.middlewares p;
                   Legacy.console := Legacy.console p |})
    end.
Proof.
  intros Hp Hh Hs Hport. unfold Legacy.on_listening. rewrite lbind_lift.
  match goal with
  | |- context [match ?m (Legacy.world p) with _ => _ end] =>
      assert (Hsame : m (Legacy.world p)
                      = Plugin.on_listening port infoFilePath (Legacy.world p))
  end.
  { set (w := Legacy.world p) in *. unfold Plugin.on_listening.
    pose proof (the_resolvedConfig_world w) as Hw.
    destruct (the_resolvedConfig w) as [[e|rc] w1] eqn:E; simpl in Hw; subst w1.
    - by rewrite !(bind_throw _ _ _ _ _ E).
    - rewrite !(bind_ok _ _ _ _ _ E).
      rewrite (bind_ok _ _ w w pc) by by apply the_pluginConfig_ok.
      cbv zeta. rewrite (js_or_falsy _ _ Hh).
      rewrite sentinel_all_interfaces, (Hs rc eq_refl).
      by rewrite (proj2 (N.eqb_neq _ _) Hport). }
  rewrite Hsame.
  by destruct (Plugin.on_listening port infoFilePath (Legacy.world p)) as [[e|[]] w'].
Qed.

(** X13.  The [listening] callback of the earlier revision advertises
    the server host as it stands, with the port always: on a writable
    place it returns, the artifact and the origin hold
    [<protocol>://<host or localhost>:<port>], where a host [true] reads
    [true] and [0.0.0.0] stays, no other file is touched, and the timer of
    the banner is set behind the timers there were, the middlewares in use
    and the console being as they were. *)
Theorem legacy_listening_url (p : Legacy.Process) (r : nat) (rc : ResolvedConfig)
    (segs : list string) (port : N) :
  let w := Legacy.world p in
  resolvedConfig w = Some r -> heap w !! r = Some rc ->
  Forall Path.clean segs -> Fs.writable (fs w) segs = true ->
  let url := (if server_https rc then "https" else "http") +:+ "://"
             +:+ template (js_or (server_host rc) (HostString "localhost"))
             +:+ ":" +:+ pretty port in
  exists w',
    Legacy.on_listening port (Path.render segs) p
    = (inr tt, {| Legacy.world := w';
                  Legacy.timers := Legacy.timers p ++ [Legacy.BannerTimer 200];
                  Legacy.middlewares := Legacy.middlewares p;
                  Legacy.console := Legacy.console p |})
    /\ Fs.read_file (fs w') segs = Some (artifact url)
    /\ heap w' = <[r := set_origin url rc]> (heap w)
    /\ kept_apart_from segs (fs w) (fs w').
Proof.
  intros w Hr Hlk Hclean Hw url.
  destruct (writeJson_run w segs [("devServer", url)] Hclean Hw)
    as (n1 & n' & Hmk & Hwr & Hwj & Hfile & _).
  exists (set_heap (<[r := set_origin url rc]> (heap w)) (set_fs n' w)).
  split; [|split; [|split]].
  - unfold Legacy.on_listening. rewrite lbind_lift. fold w.
    match goal with
    | |- context [match ?m w with _ => _ end] =>
        assert (Hrun : m w = (inr tt, set_heap (<[r := set_origin url rc]> (heap w))
                                        (set_fs n' w)))
    end.
    { rewrite (bind_ok _ _ w w rc) by by apply (the_resolvedConfig_ok w r).
      cbv zeta. fold url. rewrite (bind_ok _ _ _ _ _ Hwj).
      unfold bind, gets, defined, modify. simpl. rewrite Hr. simpl.
      f_equal. f_equal. apply map_eq. intros i. rewrite lookup_alter.
      destruct (decide (r = i)) as [<-|Hne].
      + by rewrite lookup_insert_eq, Hlk.
      + by rewrite lookup_insert_ne. }
    by rewrite Hrun.
  - simpl. unfold Fs.read_file. by rewrite Hfile.
  - done.
  - simpl. eapply kept_trans; [by eapply kept_mkdir | by eapply kept_write].
Qed.

(** X14.  The [config] hook of the earlier revision returns what the
    later one returns without the [allowedHosts] key, and throws what it
    throws, whenever no host option is set and the user's server host is
    not the all-interfaces sentinel. *)
Theorem legacy_config_agrees (u : UserConfig) (w : World) (pc : PluginConfig) :
  pluginConfig w = Some pc ->
  truthy (of_optional (host pc)) = false ->
  all_interfaces (js_or (default HostUndefined (us_host <$> uc_server u))
                        (HostString "localhost")) = false ->
  Legacy.config u w
  = match Plugin.config u w with
    | (inr c, w') => (inr (Legacy.without_allowedHosts c), w')
    | (inl e, w') => (inl e, w')
    end.
Proof.
  intros Hp Hh Hs. unfold Legacy.config, Plugin.config.
  rewrite !(bind_ok _ _ w w pc) by by apply the_pluginConfig_ok.
  unfold bind at 1 3, process_cwd, gets. cbv zeta.
  rewrite (js_or_falsy _ _ Hh), sentinel_all_interfaces, Hs.
  destruct (uc_build u ≫= ub_outDir) as [d|].
  - reflexivity.
  - unfold bind. rewrite getDefaultOutDir_run.
    by destruct (Fs.exists_at _ _).
Qed.

(** X15.  The middleware of the earlier revision: whenever it returns it
    has called [next] exactly once, also after ending the response; it
    ends a response only for the URL [/index.html] exactly, with status
    404 and the text of [dev-server-index.html] next to the module; for
    any other URL it reads no file and changes nothing else; and when the
    page cannot be read the error leaves it with the status already set,
    the response not ended and [next] not called. *)
Theorem index_middleware_passes_on (dirname : string) (url : option string)
    (x : Legacy.Exchange) (w : World) :
  let page := Fs.read_file (fs w)
                (fs_path w (Path.join [dirname; "dev-server-index.html"])) in
  let result := Legacy.index_middleware dirname url x w in
  (result.1 = None -> Legacy.nexts result.2 = S (Legacy.nexts x))
  /\ (url <> Some "/index.html" ->
      result = (None, {| Legacy.statusCode := Legacy.statusCode x;
                         Legacy.ended := Legacy.ended x;
                         Legacy.nexts := S (Legacy.nexts x) |}))
  /\ (forall text, url = Some "/index.html" -> page = Some text ->
        result = (None, {| Legacy.statusCode := 404;
                           Legacy.ended := Legacy.ended x ++ [text];
                           Legacy.nexts := S (Legacy.nexts x) |}))
  /\ (url = Some "/index.html" -> page = None ->
      exists e, result = (Some (FsError e),
                          {| Legacy.statusCode := 404;
                             Legacy.ended := Legacy.ended x;
                             Legacy.nexts := Legacy.nexts x |})).
Proof.
  intros page result. unfold result, Legacy.index_middleware.
  split; [|split; [|split]].
  - case_bool_decide; [|done].
    pose proof (readFileSync_world (Path.join [dirname; "dev-server-index.html"]) w) as Hw.
    destruct (Legacy.readFileSync _ w) as [[e|text] w1]; done.
  - intros Hurl. by rewrite bool_decide_false.
  - intros text Hurl Hpage. rewrite bool_decide_true by done.
    by rewrite (readFileSync_read _ w text Hpage).
  - intros Hurl Hpage. rewrite bool_decide_true by done.
    destruct (readFileSync_unreadable _ w Hpage) as [e He]. rewrite He. eauto.
Qed.

(** X16.  [netteVersion] and [nettepluginVersion] never throw and only
    read, whatever the files hold and whatever [JSON.parse] makes of them.
    [netteVersion] never answers [null]; it answers the empty string when
    [composer.lock] cannot be read or is not JSON. *)
Theorem version_probes_never_throw (JSON_parse : string -> option Legacy.json)
    (dirname : string) (w : World) :
  (exists v, Legacy.netteVersion JSON_parse w = (inr v, w) /\ v <> Legacy.JNull)
  /\ (exists v, Legacy.nettepluginVersion JSON_parse dirname w = (inr v, w))
  /\ (Fs.read_file (fs w) (fs_path w "composer.lock") = None ->
      Legacy.netteVersion JSON_parse w = (inr (Legacy.JString EmptyString), w))
  /\ (forall text,
        Fs.read_file (fs w) (fs_path w "composer.lock") = Some text ->
        JSON_parse text = None ->
        Legacy.netteVersion JSON_parse w = (inr (Legacy.JString EmptyString), w)).
Proof.
  split; [apply netteVersion_catches|]. split; [|split].
  - unfold Legacy.nettepluginVersion, Legacy.try_catch.
    match goal with
    | |- context [match ?body w with _ => _ end] =>
        assert (Hreads : (body w).2 = w);
        [|destruct (body w) as [[e|v] w1]; simpl in Hreads; subst w1; by eexists]
    end.
    apply bind_reads; [apply readFileSync_world|]. intros text w1.
    apply bind_reads; [apply parse_world|]. intros package w2.
    destruct (Legacy.nullish _); [done | apply property_world].
  - intros Hno. destruct (readFileSync_unreadable "composer.lock" w Hno) as [e He].
    unfold Legacy.netteVersion, Legacy.try_catch, bind. by rewrite He.
  - intros text Hread Hparse.
    unfold Legacy.netteVersion, Legacy.try_catch, bind.
    rewrite (readFileSync_read _ w text Hread). unfold Legacy.parse. by rewrite Hparse.
Qed.

(** X17.  What [netteVersion] reads: when [composer.lock] holds an object
    whose [packages] is an array without [null], the answer is the version
    of the first package named [nette/application], and the empty string
    when there is none or its version is missing or [null].  A [null] in
    the array before that package makes the answer the empty string,
    whatever comes after it. *)
Theorem netteVersion_reads_first_package (JSON_parse : string -> option Legacy.json)
    (w : World) (text : string) (properties : gmap string Legacy.json)
    (packages : list Legacy.json) :
  Fs.read_file (fs w) (fs_path w "composer.lock") = Some text ->
  JSON_parse text = Some (Legacy.JObject properties) ->
  properties !! "packages" = Some (Legacy.JArray packages) ->
  (Forall (fun p => p <> Legacy.JNull) packages ->
   Legacy.netteVersion JSON_parse w
   = (inr match List.find (fun p => Legacy.is_nette_application
                                      (Legacy.own_property p "name")) packages with
          | Some p =>
              match Legacy.own_property p "version" with
              | None | Some Legacy.JNull => Legacy.JString EmptyString
              | Some v => v
              end
          | None => Legacy.JString EmptyString
          end, w))
  /\ (forall before after,
        packages = before ++ Legacy.JNull :: after ->
        Forall (fun p => p <> Legacy.JNull
                         /\ Legacy.is_nette_application (Legacy.own_property p "name") = false)
               before ->
        Legacy.netteVersion JSON_parse w = (inr (Legacy.JString EmptyString), w)).
Proof.
  intros Hread Hparse Hpackages.
  assert (Hstart : forall k : option Legacy.json -> M Legacy.json,
             Legacy.try_catch
               (text <- Legacy.readFileSync "composer.lock" ;;
                composer <- Legacy.parse JSON_parse text ;;
                packages <- Legacy.property composer "packages" ;;
                k packages)%monad
               (ret (Legacy.JString EmptyString)) w
             = Legacy.try_catch (k (Some (Legacy.JArray packages)))
                 (ret (Legacy.JString EmptyString)) w).
  { intros k. unfold Legacy.try_catch, bind.
    rewrite (readFileSync_read _ w text Hread). unfold Legacy.parse. rewrite Hparse.
    unfold ret. simpl. by rewrite Hpackages. }
  unfold Legacy.netteVersion. rewrite Hstart. clear Hstart.
  unfold Legacy.try_catch, bind.
  change (Legacy.nullish (Some (Legacy.JArray packages))) with false. cbv iota. split.
  - intros Hall. unfold Legacy.call_find. rewrite (find_package_first _ w Hall).
    destruct (List.find _ packages) as [p|] eqn:Hfind; [|done].
    assert (Hp : p <> Legacy.JNull).
    { apply find_some in Hfind as [Hin _].
      by apply (proj1 (List.Forall_forall _ _) Hall). }
    assert (Hnn : Legacy.nullish (Some p) = false) by by destruct p.
    rewrite Hnn, (property_own p "version" w Hp). unfold ret.
    by destruct (Legacy.own_property p "version") as [[]|].
  - intros before after -> Hbefore. unfold Legacy.call_find.
    by rewrite (find_package_null before after w Hbefore).
Qed.

(** X18.  A whole session in the two revisions.  From a process in
    which the plugin is not loaded yet and no configuration object binds
    all interfaces, take any sequence of factory calls without a host
    option, [config] calls with a user configuration that does not bind
    all interfaces, [configResolved] and [configureServer] calls, listener
    events on ports other than 80, and timeouts.  The earlier revision
    leaves the world (the files, the configuration objects, the module
    variables and the listener callbacks) that the later revision leaves
    after the same hook calls and events; every hook call or event throws
    what it throws there; and the [config] hook gives back the object it
    gives back there, without the [allowedHosts] key.  The installer that
    [configureServer] returns, the timers, the middlewares and the console
    of the earlier revision have no counterpart and are not compared. *)
Theorem legacy_sessions_agree (JSON_parse : string -> option Legacy.json)
    (dirname : string) (blue bold dim : string -> string)
    (l : list Legacy.Step) (p : Legacy.Process) :
  pluginConfig (Legacy.world p) = None -> handlers (Legacy.world p) = [] ->
  no_sentinel (Legacy.world p) ->
  Forall plain_action (Legacy.calls l) ->
  Legacy.world (Legacy.perform_all JSON_parse dirname blue bold dim l p)
  = Plugin.perform_all (Legacy.calls l) (Legacy.world p)
  /\ Legacy.answers JSON_parse dirname blue bold dim l p
     = map Legacy.earlier (answers (Legacy.calls l) (Legacy.world p)).
Proof.
  intros Hp Hh Hs Hl.
  assert (Hplain : plain_world (Legacy.world p)).
  { split; [done|]. split; [by rewrite Hp | done]. }
  clear Hp Hh Hs. revert p Hplain Hl.
  induction l as [|[a|] l IH]; intros p Hplain Hl; [done| |].
  - change (Legacy.calls (Legacy.Do a :: l)) with (a :: Legacy.calls l) in *.
    apply List.Forall_cons_iff in Hl as [Ha Hl].
    destruct (perform_agree JSON_parse dirname blue bold dim a p Ha Hplain)
      as [Hres Hworld].
    pose proof (perform_keeps a (Legacy.world p) Ha Hplain) as Hnext.
    rewrite <- Hworld in Hnext.
    destruct (IH _ Hnext Hl) as [IH1 IH2]. split.
    + change (Legacy.perform_all JSON_parse dirname blue bold dim (Legacy.Do a :: l) p)
        with (Legacy.perform_all JSON_parse dirname blue bold dim l
                (Legacy.perform JSON_parse dirname blue bold dim (Legacy.Do a) p).2).
      by rewrite IH1, Hworld.
    + change (Legacy.answers JSON_parse dirname blue bold dim (Legacy.Do a :: l) p)
        with ((Legacy.perform JSON_parse dirname blue bold dim (Legacy.Do a) p).1
              :: Legacy.answers JSON_parse dirname blue bold dim l
                   (Legacy.perform JSON_parse dirname blue bold dim (Legacy.Do a) p).2).
      by rewrite Hres, IH2, Hworld.
  - change (Legacy.calls (Legacy.Timeout :: l)) with (Legacy.calls l) in *.
    assert (Hworld : Legacy.world
                       (Legacy.perform JSON_parse dirname blue bold dim Legacy.Timeout p).2
                     = Legacy.world p).
    { unfold Legacy.perform, Legacy.lbind, Legacy.lret.
      pose proof (timeout_world JSON_parse dirname blue bold dim p) as Ht.
      by destruct (Legacy.timeout JSON_parse dirname blue bold dim p) as [[e|[]] p1]. }
    rewrite <- Hworld in Hplain.
    destruct (IH _ Hplain Hl) as [IH1 IH2]. split.
    + change (Legacy.perform_all JSON_parse dirname blue bold dim (Legacy.Timeout :: l) p)
        with (Legacy.perform_all JSON_parse dirname blue bold dim l
                (Legacy.perform JSON_parse dirname blue bold dim Legacy.Timeout p).2).
      by rewrite IH1, Hworld.
    + change (Legacy.answers JSON_parse dirname blue bold dim (Legacy.Timeout :: l) p)
        with (Legacy.answers JSON_parse dirname blue bold dim l
                (Legacy.perform JSON_parse dirname blue bold dim Legacy.Timeout p).2).
      by rewrite IH2, Hworld.
Qed.


(** X20.  The banner of the earlier revision, when its timer runs: it
    reads the two versions, which always have an answer, and prints one
    text made of them; it returns unless the text of a version cannot be
    made, and then what it throws is a [TypeError] and nothing is
    printed; the world, the timers and the middlewares are never changed;
    and in a project without [composer.lock] and [package.json] the text
    has an empty version after [Nette] and the bare [v] after
    [plugin]. *)
Theorem banner_prints_versions (JSON_parse : string -> option Legacy.json)
    (dirname : string) (blue bold dim : string -> string) (p : Legacy.Process) :
  let w := Legacy.world p in
  let line nette plugin :=
    Json.newline +:+ "  " +:+ blue (bold "Nette" +:+ " " +:+ nette)
    +:+ "  " +:+ dim "plugin" +:+ " " +:+ bold ("v" +:+ plugin) in
  let after := Legacy.banner JSON_parse dirname blue bold dim p in
  (exists v pv,
     Legacy.netteVersion JSON_parse w = (inr v, w)
     /\ Legacy.nettepluginVersion JSON_parse dirname w = (inr pv, w)
     /\ after = match Legacy.to_string v, Legacy.template_of pv with
                | inr nette, inr plugin =>
                    (inr tt, {| Legacy.world := w;
                                Legacy.timers := Legacy.timers p;
                                Legacy.middlewares := Legacy.middlewares p;
                                Legacy.console := Legacy.console p ++ [line nette plugin] |})
                | inl e, _ => (inl e, p)
                | _, inl e => (inl e, p)
                end)
  /\ (forall e, after.1 = inl e -> e = TypeError /\ after.2 = p)
  /\ (Fs.read_file (fs w) (fs_path w "composer.lock") = None ->
      Fs.read_file (fs w) (fs_path w (Path.join [dirname; "../package.json"])) = None ->
      after = (inr tt, {| Legacy.world := w;
                          Legacy.timers := Legacy.timers p;
                          Legacy.middlewares := Legacy.middlewares p;
                          Legacy.console :=
                            Legacy.console p ++ [line EmptyString EmptyString] |})).
Proof.
  intros w line after.
  destruct (netteVersion_catches JSON_parse w) as (v & Hv & _).
  destruct (nettepluginVersion_reads JSON_parse dirname w) as (pv & Hpv).
  assert (Hafter : after
            = match Legacy.to_string v, Legacy.template_of pv with
              | inr nette, inr plugin =>
                  (inr tt, {| Legacy.world := w;
                              Legacy.timers := Legacy.timers p;
                              Legacy.middlewares := Legacy.middlewares p;
                              Legacy.console := Legacy.console p ++ [line nette plugin] |})
              | inl e, _ => (inl e, p)
              | _, inl e => (inl e, p)
              end).
  { subst after. unfold Legacy.banner. rewrite lbind_lift. fold w. rewrite Hv.
    subst w. rewrite set_world_same. unfold Legacy.lbind at 1, Legacy.of_result.
    destruct (Legacy.to_string v) as [e|nette]; [done|].
    rewrite lbind_lift, Hpv, set_world_same. unfold Legacy.lbind, Legacy.of_result.
    by destruct (Legacy.template_of pv). }
  split; [by exists v, pv|]. split.
  - intros e. rewrite Hafter.
    destruct (Legacy.to_string v) as [e1|nette] eqn:Hn.
    { simpl. intros [= <-]. split; [by apply (to_string_throws v) | done]. }
    destruct (Legacy.template_of pv) as [e2|plugin] eqn:Hpl; [|done].
    simpl. intros [= <-]. split; [|done].
    destruct pv as [pv|]; [by apply (to_string_throws pv) | done].
  - intros Hlock Hpackage. rewrite Hafter.
    assert (v = Legacy.JString EmptyString) as ->.
    { destruct (readFileSync_unreadable "composer.lock" w Hlock) as [e He].
      revert Hv. unfold Legacy.netteVersion, Legacy.try_catch, bind. rewrite He.
      unfold ret. congruence. }
    assert (pv = Some (Legacy.JString EmptyString)) as ->.
    { destruct (readFileSync_unreadable _ w Hpackage) as [e He].
      revert Hpv. unfold Legacy.nettepluginVersion, Legacy.try_catch, bind. rewrite He.
      unfold ret. congruence. }
    reflexivity.
Qed.


(** ** The theorems at the sample process *)

Lemma info_file_clean : Forall Path.clean Sample.info_file.
Proof.
  unfold Sample.info_file.
  repeat (apply List.Forall_cons; [by repeat split|]). apply List.Forall_nil.
Defined.

Lemma info_file_place :
  info_place Sample.dev Sample.mockConfig ".vite/nette.json" = Sample.info_file.
Proof. vm_compute. reflexivity. Defined.

Lemma writeJson_succeeds_iff_writable_witness :
  Forall Path.clean Sample.info_file
  /\ Fs.writable (fs Sample.dev) Sample.info_file = true
  /\ exists w',
       writeJson (Path.render Sample.info_file) [("devServer", "http://localhost:5173")]
         Sample.dev = (inr tt, w')
       /\ Fs.read_file (fs w') Sample.info_file = Some (artifact "http://localhost:5173").
Proof.
  split; [exact info_file_clean|]. split; [vm_compute; reflexivity|].
  destruct (writeJson_succeeds_iff_writable Sample.dev Sample.info_file
              [("devServer", "http://localhost:5173")] info_file_clean)
    as ([_ Hruns] & Hdone & _).
  destruct (Hruns ltac:(vm_compute; reflexivity)) as [w' Hw'].
  exists w'. split; [exact Hw'|]. by destruct (Hdone w' Hw').
Defined.

Lemma coordinator_touches_only_the_artifact_witness :
  ready Sample.dev 0 Sample.mockConfig Sample.stored ".vite/nette.json"
  /\ Fs.writable (fs Sample.dev)
       (info_place Sample.dev Sample.mockConfig ".vite/nette.json") = true
  /\ exists w,
       configureServer {| httpServer := Some 7 |} Sample.dev = (inr tt, w)
       /\ forall evs : list Event, exists w',
            emit_all 7 evs w = (inr tt, w')
            /\ forall q,
                 q <> info_place Sample.dev Sample.mockConfig ".vite/nette.json" ->
                 Fs.read_file (fs w') q = Fs.read_file (fs Sample.dev) q
                 /\ (Fs.exists_at (fs Sample.dev) q = true -> Fs.exists_at (fs w') q = true).
Proof.
  split; [exact Claims.dev_ready|]. split; [exact Claims.dev_writable|].
  exact (coordinator_touches_only_the_artifact Sample.dev 7 0 Sample.mockConfig
           Sample.stored ".vite/nette.json" Claims.dev_ready Claims.dev_writable).
Defined.

Lemma dev_no_artifact :
  Fs.exists_at (fs Sample.dev)
    (info_place Sample.dev Sample.mockConfig ".vite/nette.json") = false.
Proof. vm_compute. reflexivity. Defined.

Lemma coordinator_file_system_witness :
  ready Sample.dev 0 Sample.mockConfig Sample.stored ".vite/nette.json"
  /\ Fs.writable (fs Sample.dev)
       (info_place Sample.dev Sample.mockConfig ".vite/nette.json") = true
  /\ Fs.exists_at (fs Sample.dev)
       (info_place Sample.dev Sample.mockConfig ".vite/nette.json") = false
  /\ exists w,
       configureServer {| httpServer := Some 7 |} Sample.dev = (inr tt, w)
       /\ forall evs : list Event, exists w',
            emit_all 7 evs w = (inr tt, w')
            /\ tree_after (fs Sample.dev)
                 (info_place Sample.dev Sample.mockConfig ".vite/nette.json")
                 (fun port => artifact (advertised_url Sample.mockConfig Sample.stored port))
                 evs
               = inr (fs w')
            /\ (Fs.exists_at (fs Sample.dev)
                  (parent (info_place Sample.dev Sample.mockConfig ".vite/nette.json"))
                = true ->
                lifecycle evs <> Active -> fs w' = fs Sample.dev).
Proof.
  split; [exact Claims.dev_ready|]. split; [exact Claims.dev_writable|].
  split; [exact dev_no_artifact|].
  exact (coordinator_file_system Sample.dev 7 0 Sample.mockConfig Sample.stored
           ".vite/nette.json" Claims.dev_ready Claims.dev_writable dev_no_artifact).
Defined.

Lemma repeated_attachment_is_harmless_witness :
  ready Sample.dev 0 Sample.mockConfig Sample.stored ".vite/nette.json"
  /\ Fs.writable (fs Sample.dev)
       (info_place Sample.dev Sample.mockConfig ".vite/nette.json") = true
  /\ let call := CallConfigureServer {| httpServer := Some 7 |} in
     let once := perform_all [call] Sample.dev in
     let twice := perform_all [call; call] Sample.dev in
     length (handlers twice) = 6
     /\ forall evs : list Event, exists w1,
          emit_all 7 evs once = (inr tt, w1)
          /\ emit_all 7 evs twice = (inr tt, set_handlers (handlers twice) w1).
Proof.
  split; [exact Claims.dev_ready|]. split; [exact Claims.dev_writable|].
  exact (proj2 (repeated_attachment_is_harmless Sample.dev 7 0 Sample.mockConfig
                  Sample.stored ".vite/nette.json" 1
                  Claims.dev_ready Claims.dev_writable)).
Defined.

Lemma dev_unnamed_ready :
  ready Sample.dev_unnamed 0 Sample.mockConfig Sample.stored_unnamed EmptyString.
Proof. repeat split; reflexivity. Defined.

(** With the info file option [''] the place is the output directory
    itself. *)
Lemma failed_listening_leaves_origin_witness :
  ready Sample.dev_unnamed 0 Sample.mockConfig Sample.stored_unnamed EmptyString
  /\ info_place Sample.dev_unnamed Sample.mockConfig EmptyString = Sample.assets
  /\ Fs.writable (fs Sample.dev_unnamed)
       (info_place Sample.dev_unnamed Sample.mockConfig EmptyString) = false
  /\ exists w e w',
       configureServer {| httpServer := Some 7 |} Sample.dev_unnamed = (inr tt, w)
       /\ emit 7 (Listening 5173) w = (inl (FsError e), w')
       /\ heap w' = heap Sample.dev_unnamed
       /\ forall q, Fs.read_file (fs w') q = Fs.read_file (fs Sample.dev_unnamed) q.
Proof.
  split; [exact dev_unnamed_ready|]. split; [vm_compute; reflexivity|].
  split; [vm_compute; reflexivity|].
  exact (failed_listening_leaves_origin Sample.dev_unnamed 7 0 Sample.mockConfig
           Sample.stored_unnamed EmptyString 5173%N dev_unnamed_ready
           ltac:(vm_compute; reflexivity)).
Defined.

Lemma absolute_paths_win_witness :
  starts_with_slash "/run/vite/info.json" = true
  /\ infoFilePath Sample.dev Sample.mockConfig "/run/vite/info.json" = "/run/vite/info.json"
  /\ starts_with_slash ".vite/nette.json" = false
  /\ starts_with_slash (build_outDir Sample.mockConfig) = true
  /\ forall w' rc',
       build_outDir rc' = build_outDir Sample.mockConfig ->
       infoFilePath w' rc' ".vite/nette.json" = "/home/app/www/assets/.vite/nette.json".
Proof.
  destruct (absolute_paths_win Sample.dev Sample.mockConfig "/run/vite/info.json")
    as [Habs _].
  destruct (absolute_paths_win Sample.dev Sample.mockConfig ".vite/nette.json")
    as [_ Hrel].
  split; [reflexivity|]. split; [by destruct (Habs eq_refl) as [-> _]|].
  split; [reflexivity|]. split; [reflexivity|].
  intros w' rc' Hout. by rewrite (Hrel eq_refl eq_refl w' rc' Hout).
Defined.

Lemma dev_two_configs_ready :
  ready Sample.dev_two_configs 0 Sample.mockConfig Sample.stored ".vite/nette.json".
Proof. repeat split; reflexivity. Defined.

(** After attachment the factory is called with another info file and
    a host, and Vite resolves the HTTPS configuration: the next
    [listening] event writes the old place, with the new host and
    protocol, and sets the origin of the new object. *)
Lemma callbacks_read_variables_when_run_witness :
  ready Sample.dev_two_configs 0 Sample.mockConfig Sample.stored ".vite/nette.json"
  /\ Fs.writable (fs Sample.dev_two_configs)
       (info_place Sample.dev_two_configs Sample.mockConfig ".vite/nette.json") = true
  /\ heap Sample.dev_two_configs !! 1 = Some Sample.secureConfig
  /\ let w := perform_all
                [CallConfigureServer {| httpServer := Some 7 |};
                 CallFactory (Sample.options (Some "elsewhere.json") (Some "dev.test") None);
                 CallConfigResolved 1] Sample.dev_two_configs in
     exists w',
       emit 7 (Listening 5173) w = (inr tt, w')
       /\ Fs.read_file (fs w') Sample.info_file = Some (artifact "https://dev.test:5173")
       /\ Fs.read_file (fs w') ["home"; "app"; "www"; "assets"; "elsewhere.json"] = None
       /\ server_origin <$> heap w' !! 1 = Some (Some "https://dev.test:5173")
       /\ server_origin <$> heap w' !! 0 = Some (Some EmptyString).
Proof.
  split; [exact dev_two_configs_ready|]. split; [vm_compute; reflexivity|].
  split; [reflexivity|]. intros w.
  destruct (callbacks_read_variables_when_run Sample.dev_two_configs 7 0 Sample.mockConfig
              Sample.stored ".vite/nette.json"
              (Sample.options (Some "elsewhere.json") (Some "dev.test") None)
              1 Sample.secureConfig dev_two_configs_ready
              ltac:(vm_compute; reflexivity) eq_refl 5173%N)
    as (w' & Hev & Hfile & Hheap & Hkept).
  exists w'. split; [exact Hev|]. split; [exact Hfile|]. split.
  { rewrite (Hkept ["home"; "app"; "www"; "assets"; "elsewhere.json"]); [reflexivity|].
    vm_compute. discriminate. }
  rewrite Hheap. split; reflexivity.
Defined.

Lemma interrupt_removes_artifact_and_exits_witness :
  ready Sample.dev 0 Sample.mockConfig Sample.stored ".vite/nette.json"
  /\ Fs.writable (fs Sample.dev)
       (info_place Sample.dev Sample.mockConfig ".vite/nette.json") = true
  /\ exists w,
       configureServer {| httpServer := Some 7 |} Sample.dev = (inr tt, w)
       /\ forall evs : list Event, exists w' w'',
            emit_all 7 evs w = (inr tt, w')
            /\ Signal.sigint w' = Signal.Exited 0 w''
            /\ Fs.exists_at (fs w'')
                 (info_place Sample.dev Sample.mockConfig ".vite/nette.json") = false.
Proof.
  split; [exact Claims.dev_ready|]. split; [exact Claims.dev_writable|].
  destruct (interrupt_removes_artifact_and_exits Sample.dev 7 0 Sample.mockConfig
              Sample.stored ".vite/nette.json" Claims.dev_ready Claims.dev_writable)
    as (_ & w & Hattach & Hevs).
  exists w. split; [exact Hattach|]. intros evs.
  destruct (Hevs evs) as (w' & w'' & Hrun & Hsig & Hgone & _).
  by exists w', w''.
Defined.

(** The process of the tests, attached: both revisions write the same
    for port 5173, and the earlier one sets its timer. *)
Lemma legacy_listening_agrees_witness :
  let p := Legacy.process_of (configureServer {| httpServer := Some 7 |} Sample.dev).2 in
  pluginConfig (Legacy.world p) = Some Sample.stored
  /\ truthy (of_optional (host Sample.stored)) = false
  /\ exists w',
       Plugin.on_listening 5173 (Path.render Sample.info_file) (Legacy.world p)
       = (inr tt, w')
       /\ Fs.read_file (fs w') Sample.info_file = Some (artifact "http://localhost:5173")
       /\ Legacy.on_listening 5173 (Path.render Sample.info_file) p
          = (inr tt, {| Legacy.world := w'; Legacy.timers := [Legacy.BannerTimer 200];
                        Legacy.middlewares := []; Legacy.console := [] |}).
Proof.
  intros p. split; [reflexivity|]. split; [reflexivity|].
  assert (Hs : forall rc, (the_resolvedConfig (Legacy.world p)).1 = inr rc ->
                 all_interfaces (js_or (server_host rc) (HostString "localhost")) = false).
  { intros rc Hrc. vm_compute in Hrc. by inversion Hrc. }
  pose proof (legacy_listening_agrees 5173 (Path.render Sample.info_file) p Sample.stored
                eq_refl eq_refl Hs ltac:(done)) as Hsame.
  assert (Hlater : exists w',
             Plugin.on_listening 5173 (Path.render Sample.info_file) (Legacy.world p)
             = (inr tt, w')
             /\ Fs.read_file (fs w') Sample.info_file
                = Some (artifact "http://localhost:5173")).
  { eexists. split; vm_compute; reflexivity. }
  destruct Hlater as (w' & Hlater & Hfile). exists w'.
  split; [exact Hlater|]. split; [exact Hfile|].
  by rewrite Hsame, Hlater.
Defined.

(** With the host [true] the earlier revision advertises [true]. *)
Lemma legacy_listening_url_witness :
  let w := Sample.started (Sample.options None None None)
             (Sample.boot Sample.tree (Sample.mock false (HostBool true))) in
  resolvedConfig w = Some 0
  /\ heap w !! 0 = Some (Sample.mock false (HostBool true))
  /\ Forall Path.clean Sample.info_file
  /\ Fs.writable (fs w) Sample.info_file = true
  /\ exists w',
       Legacy.on_listening 5173 (Path.render Sample.info_file) (Legacy.process_of w)
       = (inr tt, {| Legacy.world := w'; Legacy.timers := [Legacy.BannerTimer 200];
                     Legacy.middlewares := []; Legacy.console := [] |})
       /\ Fs.read_file (fs w') Sample.info_file = Some (artifact "http://true:5173")
       /\ server_origin <$> heap w' !! 0 = Some (Some "http://true:5173").
Proof.
  intros w. split; [reflexivity|]. split; [reflexivity|].
  split; [exact info_file_clean|]. split; [vm_compute; reflexivity|].
  destruct (legacy_listening_url (Legacy.process_of w) 0
              (Sample.mock false (HostBool true)) Sample.info_file
              5173%N eq_refl eq_refl info_file_clean ltac:(vm_compute; reflexivity))
    as (w' & Hon & Hfile & Hheap & _).
  exists w'. split; [exact Hon|]. split; [exact Hfile|]. by rewrite Hheap.
Defined.

Lemma legacy_config_agrees_witness :
  let u := Sample.userConfig (Some (Sample.userServer (HostString "example.com") None))
             None in
  pluginConfig Sample.dev = Some Sample.stored
  /\ truthy (of_optional (host Sample.stored)) = false
  /\ all_interfaces (js_or (default HostUndefined (us_host <$> uc_server u))
                           (HostString "localhost")) = false
  /\ exists c,
       Plugin.config u Sample.dev = (inr c, Sample.dev)
       /\ c_server_allowedHosts c = Some (AllowedList ["example.com"])
       /\ Legacy.config u Sample.dev = (inr (Legacy.without_allowedHosts c), Sample.dev).
Proof.
  intros u. split; [reflexivity|]. split; [reflexivity|]. split; [reflexivity|].
  pose proof (legacy_config_agrees u Sample.dev Sample.stored eq_refl eq_refl eq_refl)
    as Hsame.
  assert (Hc : exists c, Plugin.config u Sample.dev = (inr c, Sample.dev)
                         /\ c_server_allowedHosts c = Some (AllowedList ["example.com"])).
  { eexists. split; vm_compute; reflexivity. }
  destruct Hc as (c & Hc & Hallowed). exists c. split; [exact Hc|]. split; [exact Hallowed|].
  by rewrite Hsame, Hc.
Defined.

Lemma index_middleware_passes_on_witness :
  let w := Sample.boot Sample.tree_installed Sample.mockConfig in
  Fs.read_file (fs w)
    (fs_path w (Path.join [Sample.module_dir; "dev-server-index.html"]))
  = Some "<h1>Vite</h1>"
  /\ Legacy.index_middleware Sample.module_dir (Some "/index.html") Sample.fresh w
     = (None, {| Legacy.statusCode := 404; Legacy.ended := ["<h1>Vite</h1>"];
                 Legacy.nexts := 1 |})
  /\ Legacy.index_middleware Sample.module_dir (Some "/index.html?x") Sample.fresh w
     = (None, {| Legacy.statusCode := 200; Legacy.ended := []; Legacy.nexts := 1 |}).
Proof.
  intros w. split; [vm_compute; reflexivity|].
  destruct (index_middleware_passes_on Sample.module_dir (Some "/index.html")
              Sample.fresh w) as (_ & _ & Hpage & _).
  destruct (index_middleware_passes_on Sample.module_dir (Some "/index.html?x")
              Sample.fresh w) as (_ & Hother & _).
  split.
  - apply (Hpage "<h1>Vite</h1>"); [reflexivity | vm_compute; reflexivity].
  - apply Hother. discriminate.
Defined.

Lemma composer_lock_read :
  let w := Sample.boot Sample.tree_composer Sample.mockConfig in
  Fs.read_file (fs w) (fs_path w "composer.lock") = Some Sample.lock_text.
Proof. vm_compute. reflexivity. Defined.

Lemma netteVersion_reads_first_package_witness :
  let w := Sample.boot Sample.tree_composer Sample.mockConfig in
  Fs.read_file (fs w) (fs_path w "composer.lock") = Some Sample.lock_text
  /\ Sample.parse_lock Sample.lock_text = Some (Legacy.JObject Sample.lock_properties)
  /\ Sample.lock_properties !! "packages" = Some (Legacy.JArray Sample.lock_packages)
  /\ Forall (fun p => p <> Legacy.JNull) Sample.lock_packages
  /\ Legacy.netteVersion Sample.parse_lock w = (inr (Legacy.JString "v3.2.6"), w).
Proof.
  intros w.
  assert (Hparse : Sample.parse_lock Sample.lock_text
                   = Some (Legacy.JObject Sample.lock_properties)).
  { unfold Sample.parse_lock. by rewrite decide_True. }
  assert (Hall : Forall (fun p => p <> Legacy.JNull) Sample.lock_packages).
  { unfold Sample.lock_packages. by repeat constructor. }
  split; [exact composer_lock_read|]. split; [exact Hparse|]. split; [reflexivity|].
  split; [exact Hall|].
  destruct (netteVersion_reads_first_package Sample.parse_lock w Sample.lock_text
              Sample.lock_properties Sample.lock_packages composer_lock_read Hparse eq_refl)
    as [Hfirst _].
  rewrite (Hfirst Hall). reflexivity.
Defined.

(** In the project with a [composer.lock], colours off, the banner
    names the version of [nette/application]. *)
Lemma banner_prints_versions_witness :
  let p := Legacy.process_of (Sample.boot Sample.tree_composer Sample.mockConfig) in
  Legacy.banner Sample.parse_lock Sample.module_dir
    Sample.no_colour Sample.no_colour Sample.no_colour p
  = (inr tt, Legacy.set_console [Json.newline +:+ "  Nette v3.2.6  plugin v"] p).
Proof.
  intros p.
  destruct (banner_prints_versions Sample.parse_lock Sample.module_dir
              Sample.no_colour Sample.no_colour Sample.no_colour p)
    as [(v & pv & Hv & Hpv & Hafter) _].
  vm_compute in Hv. vm_compute in Hpv.
  injection Hv as <-. injection Hpv as <-.
  rewrite Hafter. vm_compute. reflexivity.
Defined.

Lemma boot_no_sentinel (tree : Fs.node) :
  no_sentinel (Sample.boot tree Sample.mockConfig).
Proof.
  intros r rc H.
  change (heap (Sample.boot tree Sample.mockConfig))
    with ({[ 0 := Sample.mockConfig ]} : gmap nat ResolvedConfig) in H.
  apply lookup_singleton_Some in H as [_ <-]. reflexivity.
Defined.

(** A session of the tests in a project with a [composer.lock], colours
    off: the timer set by the [listening] event runs before the [close]
    event and prints the banner. *)
Lemma legacy_sessions_agree_witness :
  let p := Legacy.process_of (Sample.boot Sample.tree_composer Sample.mockConfig) in
  let l := [Legacy.Do (CallFactory (Sample.options None None None));
            Legacy.Do (CallConfig (Sample.userConfig None None));
            Legacy.Do (CallConfigResolved 0);
            Legacy.Do (CallConfigureServer {| httpServer := Some 7 |});
            Legacy.Do (Emit 7 (Listening 5173));
            Legacy.Timeout;
            Legacy.Do (Emit 7 Close)] in
  let p' := Legacy.perform_all Sample.parse_lock Sample.module_dir
              Sample.no_colour Sample.no_colour Sample.no_colour l p in
  pluginConfig (Legacy.world p) = None /\ handlers (Legacy.world p) = []
  /\ no_sentinel (Legacy.world p)
  /\ Forall plain_action (Legacy.calls l)
  /\ Legacy.world p' = Plugin.perform_all (Legacy.calls l) (Legacy.world p)
  /\ Legacy.answers Sample.parse_lock Sample.module_dir
       Sample.no_colour Sample.no_colour Sample.no_colour l p
     = map Legacy.earlier (answers (Legacy.calls l) (Legacy.world p))
  /\ Legacy.console p' = [Json.newline +:+ "  Nette v3.2.6  plugin v"]
  /\ Legacy.timers p' = []
  /\ Legacy.middlewares p' = [({| httpServer := Some 7 |}, Legacy.IndexMiddleware)].
Proof.
  intros p l p'.
  assert (Hl : Forall plain_action (Legacy.calls l)).
  { unfold l. simpl Legacy.calls.
    repeat (apply List.Forall_cons; [by simpl|]). apply List.Forall_nil. }
  split; [reflexivity|]. split; [reflexivity|].
  split; [exact (boot_no_sentinel Sample.tree_composer)|].
  split; [exact Hl|].
  destruct (legacy_sessions_agree Sample.parse_lock Sample.module_dir
              Sample.no_colour Sample.no_colour Sample.no_colour l p
              eq_refl eq_refl (boot_no_sentinel Sample.tree_composer) Hl) as [Hworld Hanswers].
  split; [exact Hworld|]. split; [exact Hanswers|].
  split; [vm_compute; reflexivity|]. split; vm_compute; reflexivity.
Defined.

(** Two listeners: both listen, the second one closes; the artifact is
    gone though the first listener is still there. *)
Lemma listeners_share_the_artifact_witness :
  ready Sample.dev 0 Sample.mockConfig Sample.stored ".vite/nette.json"
  /\ Fs.writable (fs Sample.dev)
       (info_place Sample.dev Sample.mockConfig ".vite/nette.json") = true
  /\ Fs.exists_at (fs Sample.dev)
       (info_place Sample.dev Sample.mockConfig ".vite/nette.json") = false
  /\ 7 <> 8
  /\ let w' := perform_all
                 [CallConfigureServer {| httpServer := Some 7 |};
                  CallConfigureServer {| httpServer := Some 8 |};
                  Emit 7 (Listening 5173); Emit 8 (Listening 5174); Emit 8 Close]
                 Sample.dev in
     ~ (Fs.exists_at (fs w') (info_place Sample.dev Sample.mockConfig ".vite/nette.json")
        = true).
Proof.
  split; [exact Claims.dev_ready|]. split; [exact Claims.dev_writable|].
  split; [exact dev_no_artifact|]. split; [done|]. intros w' Hex.
  destruct (listeners_share_the_artifact Sample.dev 7 8 0 Sample.mockConfig Sample.stored
              ".vite/nette.json" Claims.dev_ready Claims.dev_writable dev_no_artifact
              ltac:(done) [(true, Listening 5173); (false, Listening 5174); (false, Close)])
    as [_ Hiff].
  apply Hiff in Hex. by vm_compute in Hex.
Defined.

Lemma user_allowedHosts_is_dropped_witness :
  let w := Sample.started (Sample.options None (Some "192.168.1.200") None)
             (Sample.boot Sample.tree Sample.mockConfig) in
  let u := Sample.userConfig
             (Some (Sample.userServer (HostBool true) (Some (AllowedList ["nette.test"]))))
             None in
  pluginConfig w = Some (Sample.options (Some ".vite/nette.json") (Some "192.168.1.200") None)
  /\ uc_server u ≫= us_allowedHosts = Some (AllowedList ["nette.test"])
  /\ exists c, config u w = (inr c, w) /\ c_server_allowedHosts c = None.
Proof.
  intros w u. split; [reflexivity|]. split; [reflexivity|].
  assert (Hc : exists c, config u w = (inr c, w)) by (eexists; vm_compute; reflexivity).
  destruct Hc as [c Hc]. exists c. split; [exact Hc|].
  exact (proj1 (user_allowedHosts_is_dropped w w _ u c (AllowedList ["nette.test"])
                  eq_refl eq_refl Hc)).
Defined.

End Further.
